(** * MCQ recognition and answer resolution: a shallow embedding

  The development follows the JavaScript sources of the extension:

  - [MCQParser]    (text parser for OCR output),
  - [MCQExtractor] (page extractor working on the document tree),
  - [Highlighter.findMatchingOption] and [Highlighter.levenshteinDistance],
  - [AIService] ([answerMCQ], [_fallbackParse], [_matchAnswerToOption]),
  - [Highlighter]  (styles by confidence, the highlights on the page),
  - [OCRService], [OCRRoute], [OCRUpload] (cleaning and validating what
    was recognised, the upload validator),
  - [Validator], [AnswerRoute] (sanitising and validating a request, the
    answer route and its error statuses),
  - [StealthUtils] (the name hash, the randomised styles), [Server]
    (allowed origins), [Popup].

  Strings are sequences of code units.  The model covers the code units
  0..255 (the ISO-8859-1 part of UTF-16): white space is 9..13, 32 and 160,
  case mapping is the one of that range, and [\d], [\w], [\b] are the
  ASCII classes as in ECMAScript. *)

From stdpp Require Import gmap strings list.
From Stdlib Require Import Ascii ZArith QArith Lia.
From Stdlib Require Floats.PrimFloat Floats.FloatOps.
From Stdlib Require Numbers.Cyclic.Int63.Uint63.
From Stdlib Require Strings.String Numbers.DecimalString.

Close Scope Q_scope.

Set Default Proof Using "Type".

(** ** String literals for code-unit lists *)

Inductive strI : Type := SNil | SCons (a : ascii) (s : strI).

Fixpoint strI_of_bytes (l : list Byte.byte) : strI :=
  match l with
  | [] => SNil
  | b :: l => SCons (ascii_of_byte b) (strI_of_bytes l)
  end.

Fixpoint bytes_of_strI (s : strI) : list Byte.byte :=
  match s with
  | SNil => []
  | SCons a s => byte_of_ascii a :: bytes_of_strI s
  end.

Declare Scope js_scope.
Delimit Scope js_scope with js.
#[warning="-via-type-mismatch"]
String Notation list strI_of_bytes bytes_of_strI
  (via strI mapping [[nil] => SNil, [cons] => SCons]) : js_scope.

Abbreviation str := (list ascii).

Open Scope js_scope.

(** ** JavaScript string primitives *)

Module JS.

Definition code (c : ascii) : nat := nat_of_ascii c.

Definition in_range (lo hi : nat) (c : ascii) : bool :=
  (lo <=? code c) && (code c <=? hi).

(** [WhiteSpace] and [LineTerminator] of ECMAScript below U+0100: used by
    [String.prototype.trim] and by the class [\s]. *)
Definition is_space (c : ascii) : bool :=
  in_range 9 13 c || (code c =? 32) || (code c =? 160).

Definition is_digit (c : ascii) : bool := in_range 48 57 c.
Definition is_upper (c : ascii) : bool := in_range 65 90 c.
Definition is_lower (c : ascii) : bool := in_range 97 122 c.
Definition is_letter (c : ascii) : bool := is_upper c || is_lower c.
(** [\w] *)
Definition is_word (c : ascii) : bool :=
  is_letter c || is_digit c || (code c =? 95).

(** Upper-case letters of the range: A-Z, and the Latin-1 letters
    192..214 and 216..222. *)
Definition has_lower (c : ascii) : bool :=
  is_upper c || in_range 192 214 c || in_range 216 222 c.

Definition lower_char (c : ascii) : ascii :=
  if has_lower c then ascii_of_nat (code c + 32) else c.

(** ASCII upper-casing, as used on a captured letter of [[A-D]] *)
Definition upper_char (c : ascii) : ascii :=
  if is_lower c then ascii_of_nat (code c - 32) else c.

Definition toLowerCase (s : str) : str := map lower_char s.
Definition toUpperCase_ascii (s : str) : str := map upper_char s.

Fixpoint trimStart (s : str) : str :=
  match s with
  | c :: s' => if is_space c then trimStart s' else s
  | [] => []
  end.

Definition trimEnd (s : str) : str := rev (trimStart (rev s)).

Definition trim (s : str) : str := trimEnd (trimStart s).

Definition char_eqb (a b : ascii) : bool := Ascii.eqb a b.

Fixpoint str_eqb (a b : str) : bool :=
  match a, b with
  | [], [] => true
  | x :: a', y :: b' => char_eqb x y && str_eqb a' b'
  | _, _ => false
  end.

Fixpoint startsWith (s p : str) : bool :=
  match p, s with
  | [], _ => true
  | y :: p', x :: s' => char_eqb x y && startsWith s' p'
  | _ :: _, [] => false
  end.

(** [s.includes(p)] *)
Fixpoint includes (s p : str) : bool :=
  startsWith s p ||
  match s with
  | [] => false
  | _ :: s' => includes s' p
  end.

(** [s.split(sep)] for a one-character separator *)
Fixpoint split_char (sep : ascii) (s : str) : list str :=
  match s with
  | [] => [[]]
  | c :: s' =>
      if char_eqb c sep then [] :: split_char sep s'
      else match split_char sep s' with
           | l :: ls => (c :: l) :: ls
           | [] => [[c]]
           end
  end.

(** Truthiness of a string value: the empty string is falsy. *)
Definition truthy (s : str) : bool :=
  match s with [] => false | _ => true end.

(** the integer that a run of decimal digits denotes *)
Definition digit_val (c : ascii) : N := N.of_nat (code c - 48).

Definition decimal_value (s : str) : N :=
  fold_left (fun acc c => (10 * acc + digit_val c)%N) s 0%N.

(** The Number value of an integer: the double nearest to it, ties to the
    even mantissa, and infinity when it is too large.  Above 62 bits the
    leading 62 bits are kept, with a last bit that tells whether a lower
    bit was set, which rounds the same way. *)
Definition to_double (n : N) : PrimFloat.float :=
  let bits := N.size n in
  if (bits <=? 62)%N then PrimFloat.of_uint63 (Uint63.of_Z (Z.of_N n))
  else
    let shift := (bits - 62)%N in
    let top := N.shiftr n shift in
    let sticky := if (N.land n (N.ones shift) =? 0)%N then 0%N else 1%N in
    FloatOps.Z.ldexp
      (PrimFloat.of_uint63 (Uint63.of_Z (Z.of_N (N.lor top sticky))))
      (Z.of_N shift).

(** [parseInt] on a match of [\d+] *)
Definition parseInt (s : str) : PrimFloat.float :=
  to_double (decimal_value s).

End JS.

(** ** A backtracking matcher for the regular expressions of the sources *)

Module Regex.
Import JS.

Inductive regex : Type :=
| Eps
| Chr (p : ascii -> bool)           (* one code unit of a class *)
| Seq (r1 r2 : regex)
| Alt (r1 r2 : regex)               (* ordered alternative *)
| Star (greedy : bool) (r : regex)  (* r* and r*? *)
| Group (i : nat) (r : regex)       (* capturing group number i *)
| Bol                               (* ^ without the m flag *)
| Eol                               (* $ without the m flag *)
| WordB                             (* \b *)
| Look (r : regex).                 (* (?=r) *)

Definition Plus (greedy : bool) (r : regex) : regex := Seq r (Star greedy r).

Definition Lit (c : ascii) : regex := Chr (char_eqb c).
(** a literal letter under the [i] flag *)
Definition LitI (c : ascii) : regex :=
  Chr (fun x => char_eqb (lower_char x) (lower_char c)).

Fixpoint Word (cs : str) : regex :=
  match cs with
  | [] => Eps
  | c :: cs' => Seq (Lit c) (Word cs')
  end.

Fixpoint WordI (cs : str) : regex :=
  match cs with
  | [] => Eps
  | c :: cs' => Seq (LitI c) (WordI cs')
  end.

Fixpoint AltList (rs : list regex) : regex :=
  match rs with
  | [] => Chr (fun _ => false)
  | [r] => r
  | r :: rs' => Alt r (AltList rs')
  end.

(** A position in the subject: the code units before it (nearest first)
    and the ones from it on. *)
Record pos : Type := Pos { before : str; after : str }.

Definition start_of (s : str) : pos := Pos [] s.

Definition index (s : pos) : nat := length (before s).

Abbreviation captures := (gmap nat str).

Definition result : Type := pos * captures.

Definition captured (from to : pos) : str :=
  take (length (after from) - length (after to)) (after from).

Definition at_word_boundary (s : pos) : bool :=
  let a := match before s with c :: _ => is_word c | [] => false end in
  let b := match after s with c :: _ => is_word c | [] => false end in
  xorb a b.

Definition orElse {A} (x : option A) (y : option A) : option A :=
  match x with Some _ => x | None => y end.

Fixpoint rx (r : regex) (k : pos -> captures -> option result)
    (s : pos) (c : captures) : option result :=
  match r with
  | Eps => k s c
  | Chr p =>
      match after s with
      | a :: rest => if p a then k (Pos (a :: before s) rest) c else None
      | [] => None
      end
  | Seq r1 r2 => rx r1 (rx r2 k) s c
  | Alt r1 r2 => orElse (rx r1 k s c) (rx r2 k s c)
  | Star greedy r1 =>
      (fix loop (fuel : nat) (s : pos) (c : captures) : option result :=
         match fuel with
         | 0 => k s c
         | S fuel' =>
             let again :=
               rx r1 (fun s' c' =>
                        if length (after s') <? length (after s)
                        then loop fuel' s' c' else None) s c in
             if greedy then orElse again (k s c) else orElse (k s c) again
         end) (S (length (after s))) s c
  | Group i r1 => rx r1 (fun s' c' => k s' (<[i := captured s s']> c')) s c
  | Bol => match before s with [] => k s c | _ => None end
  | Eol => match after s with [] => k s c | _ => None end
  | WordB => if at_word_boundary s then k s c else None
  | Look r1 =>
      match rx r1 (fun s' c' => Some (s', c')) s c with
      | Some (_, c') => k s c'
      | None => None
      end
  end.

Definition accept : pos -> captures -> option result :=
  fun s c => Some (s, c).

(** One attempt at a fixed position *)
Definition match_at (r : regex) (s : pos) : option result := rx r accept s ∅.

Record MatchResult : Type := Match {
  m_index : nat;        (* match.index *)
  m_text : str;         (* match[0] *)
  m_groups : captures;  (* match[i], absent when undefined *)
  m_end : pos
}.

Definition step (s : pos) : option pos :=
  match after s with
  | a :: rest => Some (Pos (a :: before s) rest)
  | [] => None
  end.

(** [RegExpBuiltinExec] from a given position: the first position at or
    after it where the pattern matches. *)
Fixpoint search_from (r : regex) (bef aft : str) : option MatchResult :=
  match match_at r (Pos bef aft) with
  | Some (e, c) =>
      Some (Match (length bef) (captured (Pos bef aft) e) c e)
  | None =>
      match aft with
      | a :: rest => search_from r (a :: bef) rest
      | [] => None
      end
  end.

Definition exec (r : regex) (s : str) : option MatchResult :=
  search_from r [] s.

Definition test (r : regex) (s : str) : bool :=
  match exec r s with Some _ => true | None => false end.

Definition group (m : MatchResult) (i : nat) : str :=
  default [] (m_groups m !! i).

(** [s.replace(r, '')] without the [g] flag *)
Definition remove_first (r : regex) (s : str) : str :=
  match exec r s with
  | Some m => take (m_index m) s ++ after (m_end m)
  | None => s
  end.

(** [[...s.matchAll(r)]] for a pattern with the [g] flag *)
Fixpoint matchAll_from (fuel : nat) (r : regex) (s : pos)
    : list MatchResult :=
  match fuel with
  | 0 => []
  | S fuel' =>
      match search_from r (before s) (after s) with
      | None => []
      | Some m =>
          let e := m_end m in
          if index e =? m_index m
          then match step e with
               | Some e' => m :: matchAll_from fuel' r e'
               | None => [m]
               end
          else m :: matchAll_from fuel' r e
      end
  end.

Definition matchAll (r : regex) (s : str) : list MatchResult :=
  matchAll_from (S (length s)) r (start_of s).

(** [s.replace(r, rep)] with the [g] flag *)
Fixpoint replace_from (fuel : nat) (r : regex) (rep : str) (s : pos)
    : str :=
  match fuel with
  | 0 => after s
  | S fuel' =>
      match search_from r (before s) (after s) with
      | None => after s
      | Some m =>
          let e := m_end m in
          let skipped := take (m_index m - index s) (after s) in
          if index e =? m_index m
          then match after e with
               | a :: rest =>
                   skipped ++ rep ++ a ::
                     replace_from fuel' r rep (Pos (a :: before e) rest)
               | [] => skipped ++ rep
               end
          else skipped ++ rep ++ replace_from fuel' r rep e
      end
  end.

Definition replaceAll (r : regex) (rep : str) (s : str) : str :=
  replace_from (S (length s)) r rep (start_of s).

(** [s.split(r)] for a pattern without capturing groups.  [s] is the
    scan position [q] of [RegExp.prototype[Symbol.split]], [piece] holds
    the code units between the start [p] of the current piece and [q],
    last first. *)
Fixpoint split_loop (fuel : nat) (r : regex) (piece : str) (s : pos)
    : list str :=
  match fuel with
  | 0 => [rev piece ++ after s]
  | S fuel' =>
      match after s with
      | [] => [rev piece]
      | a :: rest =>
          let advance :=
            split_loop fuel' r (a :: piece) (Pos (a :: before s) rest) in
          match match_at r s with
          | None => advance
          | Some (e, _) =>
              if index e =? index s - length piece
              then advance
              else rev piece :: split_loop fuel' r [] e
          end
      end
  end.

Definition split (r : regex) (s : str) : list str :=
  match s with
  | [] => match match_at r (start_of s) with Some _ => [] | None => [s] end
  | _ => split_loop (2 * length s + 2) r [] (start_of s)
  end.

End Regex.

(** ** Candidate lists: deduplication shared by parser and extractor *)

Section Deduplicate.
Context {M : Type} (question : M -> str).

(** the key computed by the filter callback:
    [mcq.question.toLowerCase().trim()] *)
Definition dedup_key (mcq : M) : str := JS.trim (JS.toLowerCase (question mcq)).

(** [mcqs.filter(...)] with the closure variable [seen] threaded through *)
Fixpoint dedup_filter (seen : gset str) (mcqs : list M) : list M :=
  match mcqs with
  | [] => []
  | mcq :: rest =>
      let key := dedup_key mcq in
      if decide (key ∈ seen) then dedup_filter seen rest
      else mcq :: dedup_filter ({[ key ]} ∪ seen) rest
  end.

End Deduplicate.

(** ** Exceptions at the strategy boundary *)

Inductive exn : Type :=
| TypeError (msg : str)
| SyntaxError (msg : str)
| Error (msg : str).

Inductive outcome (A : Type) : Type :=
| Returned (a : A)
| Thrown (e : exn).
Arguments Returned {A} a.
Arguments Thrown {A} e.

#[global] Instance outcome_ret : MRet outcome := fun A a => Returned a.
#[global] Instance outcome_bind : MBind outcome :=
  fun A B f x =>
    match x with
    | Returned a => f a
    | Thrown e => Thrown e
    end.

Fixpoint foldM {A B} (f : B -> A -> outcome B) (l : list A) (b : B)
    : outcome B :=
  match l with
  | [] => Returned b
  | a :: l' => b' ← f b a; foldM f l' b'
  end.

Section Strategies.
Context {M : Type}.

(** The body of [for (const strategy of strategies) { try { ... } catch
    { console.warn(...) } }]: one step on the accumulator [mcqs]. *)
Definition try_strategy (mcqs : list M) (strategy : unit -> outcome (list M))
    : list M :=
  match strategy () with
  | Returned extracted =>
      if 0 <? length extracted then mcqs ++ extracted else mcqs
  | Thrown _ => mcqs
  end.

Definition run_strategies (strategies : list (unit -> outcome (list M)))
    : list M :=
  fold_left try_strategy strategies [].
End Strategies.

(** ** MCQParser: OCR text to MCQs *)

Module MCQParser.
Import JS Regex.

Record MCQ : Type := mkMCQ {
  question : str;
  options : list str;
  number : option PrimFloat.float
}.

Definition nl : ascii := "010"%char.
Definition any : ascii -> bool := fun _ => true.
Definition one_of (cs : str) : ascii -> bool :=
  fun c => existsb (char_eqb c) cs.
(** [[.\):\s]] *)
Definition marker_end (c : ascii) : bool := one_of ".):"%js c || is_space c.
(** [[.\)]] *)
Definition dot_paren : ascii -> bool := one_of ".)"%js.
(** [[:\s]] *)
Definition colon_space (c : ascii) : bool := one_of ":"%js c || is_space c.

Fixpoint Seqs (rs : list regex) : regex :=
  match rs with
  | [] => Eps
  | [r] => r
  | r :: rs' => Seq r (Seqs rs')
  end.

Definition digits : regex := Plus true (Chr is_digit).

(** [/^[A-Z][.\):\s]/i] *)
Definition opt_letter : regex := Seqs [Bol; Chr is_letter; Chr marker_end].
(** [/^\d+[.\):\s]/] *)
Definition opt_number : regex := Seqs [Bol; digits; Chr marker_end].
(** [/^\([A-Z]\)/i] *)
Definition opt_paren_letter : regex :=
  Seqs [Bol; Lit "("; Chr is_letter; Lit ")"].
(** [/^\(\d+\)/] *)
Definition opt_paren_number : regex := Seqs [Bol; Lit "("; digits; Lit ")"].

Definition looksLikeOption (line : str) : bool :=
  truthy line &&
  existsb (fun pattern => test pattern line)
    [opt_letter; opt_number; opt_paren_letter; opt_paren_number].

(** [/^[A-Z][.\):\s]+/i] *)
Definition strip_letter : regex :=
  Seqs [Bol; Chr is_letter; Plus true (Chr marker_end)].
(** [/^\d+[.\):\s]+/] *)
Definition strip_number : regex :=
  Seqs [Bol; digits; Plus true (Chr marker_end)].
(** [/^\([A-Z]\)\s*/i] *)
Definition strip_paren_letter : regex :=
  Seqs [Bol; Lit "("; Chr is_letter; Lit ")"; Star true (Chr is_space)].
(** [/^\(\d+\)\s*/] *)
Definition strip_paren_number : regex :=
  Seqs [Bol; Lit "("; digits; Lit ")"; Star true (Chr is_space)].

Definition cleanOption (line : str) : str :=
  trim (remove_first strip_paren_number
          (remove_first strip_paren_letter
             (remove_first strip_number
                (remove_first strip_letter line)))).

(** the four [questionIndicators] *)
Definition q_mark : regex := Lit "?".
Definition q_word : regex :=
  Seq Bol (AltList (map WordI
    ["what"; "which"; "who"; "where"; "when"; "why"; "how"]%js)).
Definition q_instruction : regex :=
  Seq Bol (AltList (map WordI
    ["select"; "choose"; "identify"; "find"; "determine"; "calculate"]%js)).
Definition q_structure : regex :=
  Seq (AltList (map WordI
    ["is"; "are"; "was"; "were"; "will"; "would"; "should"; "can";
     "could"]%js)) (Plus true (Chr is_space)).

Definition looksLikeQuestion (text : str) : bool :=
  if negb (truthy text) || (length text <? 10) then false
  else existsb (fun pattern => test pattern text)
         [q_mark; q_word; q_instruction; q_structure].

(** The [for] loop that accumulates the question text and stops at the
    first option line; the result is [(questionText, optionsStartIndex)]. *)
Fixpoint scan_question (lines : list str) (i : nat) (questionText : str)
    : str * nat :=
  match lines with
  | [] => (questionText, 0)
  | line :: rest =>
      if looksLikeOption line then (questionText, i)
      else scan_question rest (S i)
             (questionText ++ (if truthy questionText then " "%js else [])
                ++ line)
  end.

Definition collect_options (lines : list str) : list str :=
  List.filter truthy
    (map cleanOption (List.filter looksLikeOption lines)).

Definition parseQuestionBlock (block : str) : option MCQ :=
  let lines :=
    List.filter (fun l => 0 <? length l) (map trim (split_char nl block)) in
  if length lines <? 3 then None
  else
    let '(questionText, optionsStartIndex) := scan_question lines 0 [] in
    if negb (truthy questionText) || (optionsStartIndex =? 0)
       || (length lines - 1 <=? optionsStartIndex)
    then None
    else
      let options := collect_options (drop optionsStartIndex lines) in
      if (length options <? 2) || (6 <? length options) then None
      else Some (mkMCQ (trim questionText) options None).

(** [/(?:^|\n)(\d+)[.\)]\s*(.+?)(?=\n\d+[.\)]|\n*$)/gs] *)
Definition numberedPattern : regex :=
  Seqs [Alt Bol (Lit nl); Group 1 digits; Chr dot_paren;
        Star true (Chr is_space); Group 2 (Plus false (Chr any));
        Look (Alt (Seqs [Lit nl; digits; Chr dot_paren])
                  (Seq (Star true (Lit nl)) Eol))].

(** [/(?:^|\n)Q(\d+)[:\s]*(.+?)(?=\nQ\d+|\n*$)/gis] *)
Definition qPrefixedPattern : regex :=
  Seqs [Alt Bol (Lit nl); LitI "Q"; Group 1 digits;
        Star true (Chr colon_space); Group 2 (Plus false (Chr any));
        Look (Alt (Seqs [Lit nl; LitI "Q"; digits])
                  (Seq (Star true (Lit nl)) Eol))].

(** the loop body shared by the two numbered strategies *)
Definition block_of_match (m : MatchResult) : list MCQ :=
  let questionNum := group m 1 in
  let questionBlock := group m 2 in
  match parseQuestionBlock questionBlock with
  | Some mcq =>
      [mkMCQ (question mcq) (options mcq) (Some (parseInt questionNum))]
  | None => []
  end.

Definition parseNumberedQuestions (text : str) : list MCQ :=
  flat_map block_of_match (matchAll numberedPattern text).

Definition parseQPrefixedQuestions (text : str) : list MCQ :=
  flat_map block_of_match (matchAll qPrefixedPattern text).

(** [/\n{2,}/] *)
Definition blank_lines : regex := Seqs [Lit nl; Lit nl; Star true (Lit nl)].

Definition parseBlockQuestions (text : str) : list MCQ :=
  flat_map (fun block =>
              if looksLikeQuestion block
              then match parseQuestionBlock block with
                   | Some mcq => [mcq]
                   | None => []
                   end
              else [])
    (split blank_lines text).

Definition strategies (text : str) : list (unit -> outcome (list MCQ)) :=
  [ fun _ => Returned (parseNumberedQuestions text);
    fun _ => Returned (parseQPrefixedQuestions text);
    fun _ => Returned (parseBlockQuestions text) ].

Definition deduplicate (mcqs : list MCQ) : list MCQ :=
  dedup_filter question ∅ mcqs.

Definition parse (text : str) : outcome (list MCQ) :=
  if negb (truthy text) || (length (trim text) =? 0) then Returned []
  else Returned (deduplicate (run_strategies (strategies text))).

(** the text of the end-to-end example of the specification *)
Definition example_text : str :=
  "1. What is 2+2?" ++ [nl] ++ "A. 2" ++ [nl] ++ "B. 3" ++ [nl] ++ "C. 4"
    ++ [nl] ++ "D. 5".

(** the object [{ isValid, issues }] returned by [validate] *)
Record Validation : Type := mkValidation {
  isValid : bool;
  issues : list str
}.

Definition validate (mcq : MCQ) : Validation :=
  let issues :=
    (if negb (truthy (question mcq)) || (length (question mcq) <? 10)
     then ["Question too short or missing"] else [])
    ++ (if length (options mcq) <? 2
        then ["Not enough options (need at least 2)"] else [])
    ++ (if 6 <? length (options mcq)
        then ["Too many options (maximum 6)"] else [])
    ++ (let tooShort := List.filter (fun opt => length opt <? 1) (options mcq) in
        if 0 <? length tooShort then ["Some options are too short"] else [])
  in
  mkValidation (length issues =? 0) issues.

End MCQParser.

(** ** The document tree seen by the page extractor

  A standards-mode HTML document: tag and attribute names are in lower
  case, as the HTML parser delivers them.  An element is addressed by its
  path from the root element (child indices, counting all child nodes). *)

Module DOM.
Import JS.

#[warning="-register-all"]
Inductive node : Type :=
| Element (tag : str) (attrs : list (str * str)) (children : list node)
| TextNode (data : str).

Abbreviation handle := (list nat).

Record document : Type := Document {
  root : node;
  (** [window.location.hostname] *)
  hostname : str;
  (** what [document.querySelector] does with a selector text that this
      model does not parse: [label[for="..."]] built from an id holding a
      quote, a backslash or a line break *)
  unparsed_selector : str -> outcome (option handle)
}.

Definition children_of (n : node) : list node :=
  match n with
  | Element _ _ cs => cs
  | TextNode _ => []
  end.

Definition is_element (n : node) : bool :=
  match n with Element _ _ _ => true | TextNode _ => false end.

Fixpoint node_at (n : node) (p : handle) : option node :=
  match p with
  | [] => Some n
  | i :: p' =>
      match children_of n !! i with
      | Some c => node_at c p'
      | None => None
      end
  end.

Definition element_at (d : document) (p : handle) : option node :=
  match node_at (root d) p with
  | Some (Element t a cs) => Some (Element t a cs)
  | _ => None
  end.

Definition tagName (n : node) : str :=
  match n with Element t _ _ => t | TextNode _ => [] end.

Fixpoint assoc (k : str) (kvs : list (str * str)) : option str :=
  match kvs with
  | [] => None
  | (k', v) :: rest => if str_eqb k k' then Some v else assoc k rest
  end.

Definition getAttribute (n : node) (name : str) : option str :=
  match n with
  | Element _ attrs _ => assoc name attrs
  | TextNode _ => None
  end.

(** a reflected string property such as [id] or [name] *)
Definition attr_or_empty (n : node) (name : str) : str :=
  default [] (getAttribute n name).

(** [input.value] of a radio button: the attribute, or "on" *)
Definition radio_value (n : node) : str :=
  default "on" (getAttribute n "value").

(** [node.textContent] *)
Fixpoint textContent (n : node) : str :=
  match n with
  | TextNode data => data
  | Element _ _ cs =>
      (fix all (cs : list node) : str :=
         match cs with
         | [] => []
         | c :: cs' => textContent c ++ all cs'
         end) cs
  end.

Definition is_script_or_style (n : node) : bool :=
  str_eqb (tagName n) "script" || str_eqb (tagName n) "style".

(** [textContent] of the clone after its [script] and [style] descendants
    were removed *)
Fixpoint visible_text (n : node) : str :=
  match n with
  | TextNode data => data
  | Element _ _ cs =>
      (fix all (cs : list node) : str :=
         match cs with
         | [] => []
         | c :: cs' =>
             (if is_element c && is_script_or_style c then []
              else visible_text c) ++ all cs'
         end) cs
  end.

(** the element itself (when [n] is one) and its element descendants, in
    document order *)
Fixpoint subtree (n : node) (p : handle) : list handle :=
  match n with
  | TextNode _ => []
  | Element _ _ cs =>
      p :: (fix all (cs : list node) (i : nat) : list handle :=
              match cs with
              | [] => []
              | c :: cs' => subtree c (p ++ [i]) ++ all cs' (S i)
              end) cs 0
  end.

Definition descendants (d : document) (p : handle) : list handle :=
  match node_at (root d) p with
  | Some n => tail (subtree n p)
  | None => []
  end.

(** *** Selectors *)

Inductive simple : Type :=
| Tag (t : str)                  (* t *)
| Class (c : str)                (* .c *)
| AttrHas (a : str)              (* [a] *)
| AttrEq (a v : str)             (* [a="v"] *)
| AttrEqI (a v : str)            (* [a="v"] for an attribute whose values
                                    HTML compares case-insensitively *)
| AttrContains (a v : str).      (* [a*="v"] *)

(** a compound selector is a conjunction, a selector list a disjunction *)
Definition selector : Type := list (list simple).

Definition html_space (c : ascii) : bool :=
  (code c =? 9) || (code c =? 10) || (code c =? 12) || (code c =? 13)
  || (code c =? 32).

Fixpoint tokens_go (cur : str) (s : str) : list str :=
  match s with
  | [] => if truthy cur then [rev cur] else []
  | c :: s' =>
      if html_space c
      then (if truthy cur then [rev cur] else []) ++ tokens_go [] s'
      else tokens_go (c :: cur) s'
  end.

Definition classList (n : node) : list str :=
  tokens_go [] (attr_or_empty n "class").

Definition matches_simple (n : node) (s : simple) : bool :=
  match s with
  | Tag t => str_eqb (tagName n) t
  | Class c => existsb (str_eqb c) (classList n)
  | AttrHas a => bool_decide (is_Some (getAttribute n a))
  | AttrEq a v =>
      match getAttribute n a with
      | Some x => str_eqb x v
      | None => false
      end
  | AttrEqI a v =>
      match getAttribute n a with
      | Some x => str_eqb (toLowerCase x) (toLowerCase v)
      | None => false
      end
  | AttrContains a v =>
      match getAttribute n a with
      | Some x => truthy v && includes x v
      | None => false
      end
  end.

Definition matches (n : node) (sel : selector) : bool :=
  is_element n && existsb (forallb (matches_simple n)) sel.

Definition matches_at (d : document) (sel : selector) (p : handle) : bool :=
  match node_at (root d) p with
  | Some n => matches n sel
  | None => false
  end.

(** [document.querySelectorAll(sel)] *)
Definition querySelectorAll_doc (d : document) (sel : selector)
    : list handle :=
  List.filter (matches_at d sel) (subtree (root d) []).

(** [element.querySelectorAll(sel)] *)
Definition querySelectorAll (d : document) (p : handle) (sel : selector)
    : list handle :=
  List.filter (matches_at d sel) (descendants d p).

Definition querySelector_doc (d : document) (sel : selector)
    : option handle :=
  head (querySelectorAll_doc d sel).

Definition querySelector (d : document) (p : handle) (sel : selector)
    : option handle :=
  head (querySelectorAll d p sel).

Definition parentElement (p : handle) : option handle :=
  match p with
  | [] => None
  | _ => Some (removelast p)
  end.

(** [element.closest(sel)]: the element itself or its nearest ancestor.
    [up] bounds the climb by the depth of the element. *)
Fixpoint closest_from (d : document) (sel : selector) (up : nat)
    (p : handle) : option handle :=
  if matches_at d sel p then Some p
  else match up with
       | 0 => None
       | S up' =>
           match parentElement p with
           | Some q => closest_from d sel up' q
           | None => None
           end
       end.

Definition closest (d : document) (p : handle) (sel : selector)
    : option handle :=
  closest_from d sel (length p) p.

(** the nearest element among the children [i-1, i-2, ...] of [parent] *)
Fixpoint element_before (siblings : list node) (i : nat) : option nat :=
  match i with
  | 0 => None
  | S j =>
      match siblings !! j with
      | Some c => if is_element c then Some j else element_before siblings j
      | None => element_before siblings j
      end
  end.

Fixpoint element_from (siblings : list node) (i : nat) : option nat :=
  match siblings with
  | [] => None
  | c :: rest =>
      if is_element c then Some i else element_from rest (S i)
  end.

Definition previousElementSibling (d : document) (p : handle)
    : option handle :=
  match parentElement p, last p with
  | Some q, Some i =>
      match node_at (root d) q with
      | Some n =>
          match element_before (children_of n) i with
          | Some j => Some (q ++ [j])
          | None => None
          end
      | None => None
      end
  | _, _ => None
  end.

Definition nextElementSibling (d : document) (p : handle)
    : option handle :=
  match parentElement p, last p with
  | Some q, Some i =>
      match node_at (root d) q with
      | Some n =>
          match element_from (drop (S i) (children_of n)) (S i) with
          | Some j => Some (q ++ [j])
          | None => None
          end
      | None => None
      end
  | _, _ => None
  end.

Definition textContent_at (d : document) (p : handle) : str :=
  match node_at (root d) p with
  | Some n => textContent n
  | None => []
  end.

End DOM.

(** ** MCQExtractor: the page extractor *)

(** the option objects [{ text, element, value }] built by the extractor and
    consumed by the highlighter *)
Record PageOption : Type := mkOption {
  text : str;
  element : DOM.handle;
  value : str
}.

Module MCQExtractor.
Import JS Regex DOM.

Record MCQ : Type := mkMCQ {
  question : str;
  questionElement : handle;
  options : list PageOption;
  type : str;
  groupName : option str
}.

(** the objects [{ text, element }] returned by the question finders *)
Record Question : Type := mkQuestion {
  q_text : str;
  q_element : handle
}.

Definition nl : ascii := "010"%char.
Definition one_of (cs : str) : ascii -> bool :=
  fun c => existsb (char_eqb c) cs.
(** [[.\):\s]] *)
Definition marker_end (c : ascii) : bool := one_of ".):" c || is_space c.
(** [[.)\s]] *)
Definition dot_paren_space (c : ascii) : bool := one_of ".)" c || is_space c.
Definition digits : regex := Plus true (Chr is_digit).

Fixpoint Seqs (rs : list regex) : regex :=
  match rs with
  | [] => Eps
  | [r] => r
  | r :: rs' => Seq r (Seqs rs')
  end.

(** [clone.textContent.trim().replace(/\s+/g, ' ')] *)
Definition extractTextContent (d : document) (p : handle) : str :=
  match node_at (root d) p with
  | Some n => replaceAll (Plus true (Chr is_space)) " " (trim (visible_text n))
  | None => []
  end.

(** the six [questionIndicators] *)
Definition q_mark_end : regex := Seq (Lit "?") Eol.
Definition q_word : regex :=
  Seq Bol (AltList (map WordI
    ["what"; "which"; "who"; "where"; "when"; "why"; "how"])).
Definition q_instruction : regex :=
  Seq Bol (AltList (map WordI
    ["select"; "choose"; "identify"; "find"; "determine"])).
Definition q_label : regex := Seqs [Bol; WordI "question "; digits].
Definition q_short_label : regex := Seqs [Bol; LitI "q"; digits].
Definition q_number : regex := Seq digits (Plus true (Chr dot_paren_space)).

Definition looksLikeQuestion (text : str) : bool :=
  if negb (truthy text) || (length text <? 10) then false
  else existsb (fun pattern => test pattern (trim text))
         [q_mark_end; q_word; q_instruction; q_label; q_short_label;
          q_number].

(** [/^[A-Z][.\):\s]+/i] and [/^\d+[.\):\s]+/] *)
Definition strip_letter : regex :=
  Seqs [Bol; Chr is_letter; Plus true (Chr marker_end)].
Definition strip_number : regex :=
  Seqs [Bol; digits; Plus true (Chr marker_end)].

Definition cleanOptionText (text : str) : str :=
  trim (remove_first strip_number (remove_first strip_letter text)).

(** *** Selectors of the source, in order of appearance *)

(** ['input[type="radio"]'] *)
Definition sel_radio : selector := [[Tag "input"; AttrEqI "type" "radio"]].
(** ['ol, ul'] *)
Definition sel_lists : selector := [[Tag "ol"]; [Tag "ul"]].
Definition sel_li : selector := [[Tag "li"]].
Definition questionSelectors : list selector :=
  [ [[Class "question"]]; [[Class "quiz-question"]]; [[Class "mcq-question"]];
    [[AttrContains "class" "question"]]; [[AttrHas "data-question"]] ].
Definition optionSelectors : list selector :=
  [ [[Class "option"]]; [[Class "answer-option"]]; [[Class "choice"]];
    [[AttrContains "class" "option"]]; [[AttrContains "class" "choice"]] ].
Definition sel_table : selector := [[Tag "table"]].
Definition sel_tr : selector := [[Tag "tr"]].
(** ['fieldset, .question, .quiz-item, [role="group"]'] *)
Definition sel_container : selector :=
  [[Tag "fieldset"]; [Class "question"]; [Class "quiz-item"];
   [AttrEq "role" "group"]].
Definition sel_legend : selector := [[Tag "legend"]].
(** ['h1, h2, h3, h4, h5, h6, .question-text'] *)
Definition sel_heading : selector :=
  [[Tag "h1"]; [Tag "h2"]; [Tag "h3"]; [Tag "h4"]; [Tag "h5"]; [Tag "h6"];
   [Class "question-text"]].
(** ['h1, h2, h3, h4, h5, h6, p, div'] *)
Definition sel_heading_p_div : selector :=
  [[Tag "h1"]; [Tag "h2"]; [Tag "h3"]; [Tag "h4"]; [Tag "h5"]; [Tag "h6"];
   [Tag "p"]; [Tag "div"]].
Definition sel_label : selector := [[Tag "label"]].

(** [findQuestionBeforeElement]: the [while] loop over previous siblings *)
Fixpoint previous_question (d : document) (attempts : nat)
    (current : option handle) : option Question :=
  match attempts, current with
  | S remaining, Some cur =>
      let text := extractTextContent d cur in
      if looksLikeQuestion text then Some (mkQuestion text cur)
      else previous_question d remaining (previousElementSibling d cur)
  | _, _ => None
  end.

Definition findQuestionBeforeElement (d : document) (element : handle)
    : option Question :=
  match previous_question d 5 (previousElementSibling d element) with
  | Some q => Some q
  | None =>
      match parentElement element with
      | Some parent =>
          match querySelector d parent sel_heading_p_div with
          | Some heading =>
              if bool_decide (heading <> element) then
                let text := extractTextContent d heading in
                if looksLikeQuestion text then Some (mkQuestion text heading)
                else None
              else None
          | None => None
          end
      | None => None
      end
  end.

Definition findQuestionForRadioGroup (d : document) (radio : handle)
    : option Question :=
  let fallback := findQuestionBeforeElement d radio in
  match closest d radio sel_container with
  | Some container =>
      match querySelector d container sel_legend with
      | Some legend => Some (mkQuestion (extractTextContent d legend) legend)
      | None =>
          match querySelector d container sel_heading with
          | Some heading =>
              Some (mkQuestion (extractTextContent d heading) heading)
          | None => fallback
          end
      end
  | None => fallback
  end.

Definition quote : ascii := "034"%char.

(** the characters after which an interpolated id no longer reads as the
    string of [label[for="..."]] *)
Definition breaks_css_string (c : ascii) : bool :=
  one_of ["034"; "092"; "010"; "012"; "013"]%char c.

(** [document.querySelector(`label[for="${id}"]`)] *)
Definition query_label_for (d : document) (id : str)
    : outcome (option handle) :=
  if existsb breaks_css_string id
  then unparsed_selector d ("label[for=" ++ [quote] ++ id ++ [quote] ++ "]")
  else Returned (querySelector_doc d [[Tag "label"; AttrEq "for" id]]).

(** the result is the label text, or [None] for [null] *)
Definition findLabelForInput (d : document) (input : handle)
    : outcome (option str) :=
  let id := match node_at (root d) input with
            | Some n => attr_or_empty n "id"
            | None => []
            end in
  let rest :=
    match closest d input sel_label with
    | Some parentLabel => Some (extractTextContent d parentLabel)
    | None =>
        match nextElementSibling d input with
        | Some nextSibling => Some (extractTextContent d nextSibling)
        | None => None
        end
    end in
  if truthy id then
    label ← query_label_for d id;
    match label with
    | Some l => Returned (Some (extractTextContent d l))
    | None => Returned rest
    end
  else Returned rest.

(** *** Strategy 1: radio button groups *)

(** names found on [Object.prototype]: for these [radioGroups[name]] is
    already truthy on the empty object and has no [push] *)
Definition prototype_names : list str :=
  ["constructor"; "__defineGetter__"; "__defineSetter__"; "hasOwnProperty";
   "__lookupGetter__"; "__lookupSetter__"; "isPrototypeOf";
   "propertyIsEnumerable"; "toString"; "valueOf"; "__proto__";
   "toLocaleString"].

(** [radioGroups]: own properties in creation order *)
Definition groups : Type := list (str * list handle).

Fixpoint push_radio (name : str) (radio : handle) (g : groups) : groups :=
  match g with
  | [] => [(name, [radio])]
  | (k, radios) :: g' =>
      if str_eqb k name then (k, radios ++ [radio]) :: g'
      else (k, radios) :: push_radio name radio g'
  end.

(** the [forEach] callback that fills [radioGroups] *)
Definition group_radio (d : document) (g : groups) (radio : handle)
    : outcome groups :=
  let name := match node_at (root d) radio with
              | Some n => attr_or_empty n "name"
              | None => []
              end in
  if negb (truthy name) then Returned g
  else if existsb (str_eqb name) prototype_names
  then Thrown (TypeError "radioGroups[name].push is not a function")
  else Returned (push_radio name radio g).

(** An array index as a property key: a canonical numeric string below
    2^32 - 1.  [Object.entries] lists these first, in ascending order. *)
Definition is_array_index (k : str) : bool :=
  truthy k && forallb is_digit k
  && (str_eqb k "0" || negb (startsWith k "0"))
  && (length k <=? 10) && (decimal_value k <? 4294967295)%N.

Fixpoint insert_sorted (e : str * list handle) (l : groups) : groups :=
  match l with
  | [] => [e]
  | e' :: l' =>
      if (decimal_value (fst e) <=? decimal_value (fst e'))%N then e :: l
      else e' :: insert_sorted e l'
  end.

Definition entries (g : groups) : groups :=
  foldr insert_sorted [] (List.filter (fun e => is_array_index (fst e)) g)
  ++ List.filter (fun e => negb (is_array_index (fst e))) g.

Definition radio_option (d : document) (radio : handle)
    : outcome PageOption :=
  label ← findLabelForInput d radio;
  let v := match node_at (root d) radio with
           | Some n => radio_value n
           | None => []
           end in
  let text := match label with
              | Some l => if truthy l then l else v
              | None => v
              end in
  Returned (mkOption text radio v).

(** the body of the [for ... of Object.entries(radioGroups)] loop *)
Definition radio_group_mcq (d : document) (mcqs : list MCQ)
    (entry : str * list handle) : outcome (list MCQ) :=
  let '(groupName, radios) := entry in
  let question :=
    match radios with
    | r0 :: _ => findQuestionForRadioGroup d r0
    | [] => None
    end in
  options ← mapM (radio_option d) radios;
  match question with
  | Some q =>
      if 1 <? length options
      then Returned (mcqs ++ [mkMCQ (q_text q) (q_element q) options "radio"
                                (Some groupName)])
      else Returned mcqs
  | None => Returned mcqs
  end.

Definition extractFromRadioButtons (d : document) : outcome (list MCQ) :=
  radioGroups ← foldM (group_radio d) (querySelectorAll_doc d sel_radio) [];
  foldM (radio_group_mcq d) (entries radioGroups) [].

(** *** Strategy 2: lists *)

(** [/^[A-Z][.\):\s]|^\d+[.\):\s]/i] *)
Definition optionPattern : regex :=
  Alt (Seqs [Bol; Chr is_letter; Chr marker_end])
      (Seqs [Bol; digits; Chr marker_end]).

Definition list_mcq (d : document) (lst : handle) : list MCQ :=
  let items := querySelectorAll d lst sel_li in
  match findQuestionBeforeElement d lst with
  | Some question =>
      if (2 <=? length items) && (length items <=? 6) then
        if existsb (fun item => test optionPattern (trim (textContent_at d item)))
             items
        then
          [mkMCQ (q_text question) (q_element question)
             (map (fun item =>
                     mkOption (cleanOptionText (textContent_at d item)) item
                       (trim (textContent_at d item))) items)
             "list" None]
        else []
      else []
  | None => []
  end.

Definition extractFromLists (d : document) : list MCQ :=
  flat_map (list_mcq d) (querySelectorAll_doc d sel_lists).

(** *** Strategy 3: class-tagged blocks *)

(** the inner [optionSelectors.forEach]: the last selector with a non-empty
    result wins.  [parentElement?.querySelectorAll(...) || ...] takes the
    element's own descendants only when there is no parent element. *)
Definition option_elements (d : document) (qElem : handle) : list handle :=
  fold_left
    (fun optionElements optSel =>
       let found :=
         match parentElement qElem with
         | Some parent => querySelectorAll d parent optSel
         | None => querySelectorAll d qElem optSel
         end in
       if 0 <? length found then found else optionElements)
    optionSelectors [].

Definition div_mcq (d : document) (qElem : handle) : list MCQ :=
  let questionText := extractTextContent d qElem in
  let optionElements := option_elements d qElem in
  if (2 <=? length optionElements) && (length optionElements <=? 6)
  then
    [mkMCQ questionText qElem
       (map (fun elem =>
               mkOption (extractTextContent d elem) elem
                 (extractTextContent d elem)) optionElements)
       "div" None]
  else [].

Definition extractFromDivStructure (d : document) : list MCQ :=
  flat_map (fun selector => flat_map (div_mcq d) (querySelectorAll_doc d selector))
    questionSelectors.

(** *** Strategy 4: tables *)

Definition table_mcq (d : document) (table : handle) : list MCQ :=
  let rows := querySelectorAll d table sel_tr in
  if 3 <=? length rows then
    match rows with
    | firstRow :: optionRows =>
        if (2 <=? length optionRows) && (length optionRows <=? 6)
        then
          [mkMCQ (extractTextContent d firstRow) firstRow
             (map (fun row =>
                     mkOption (extractTextContent d row) row
                       (extractTextContent d row)) optionRows)
             "table" None]
        else []
    | [] => []
    end
  else [].

Definition extractFromTableFormat (d : document) : list MCQ :=
  flat_map (table_mcq d) (querySelectorAll_doc d sel_table).

(** *** Strategy 5: known platforms *)

(** the common shape of the three platform extractors: [questionText] is
    [q.querySelector(headingSel)?.textContent], the options are
    [q.querySelectorAll(optionSel)] *)
Definition platform_mcq (d : document) (headingSel optionSel : selector)
    (type : str) (q : handle) : list MCQ :=
  let questionText :=
    match querySelector d q headingSel with
    | Some h => textContent_at d h
    | None => []
    end in
  let options := querySelectorAll d q optionSel in
  if truthy questionText && (1 <? length options)
  then
    [mkMCQ questionText q
       (map (fun opt =>
               mkOption (textContent_at d opt) opt (textContent_at d opt))
          options)
       type None]
  else [].

Definition extractFromGoogleForms (d : document) : list MCQ :=
  flat_map
    (platform_mcq d [[AttrEq "role" "heading"]] [[AttrEq "role" "radio"]]
       "google-forms")
    (querySelectorAll_doc d [[AttrEq "role" "listitem"]]).

Definition extractFromQuizlet (d : document) : list MCQ :=
  flat_map
    (platform_mcq d [[AttrContains "class" "question"]]
       [[AttrContains "class" "choice"]] "quizlet")
    (querySelectorAll_doc d [[AttrContains "class" "MultipleChoiceQuestion"]]).

Definition extractFromCanvas (d : document) : list MCQ :=
  flat_map
    (platform_mcq d [[Class "question_text"]] [[Class "answer"]] "canvas")
    (querySelectorAll_doc d [[Class "question"]]).

Definition extractFromCommonPlatforms (d : document) : list MCQ :=
  let url := hostname d in
  if includes url "google.com/forms" then extractFromGoogleForms d
  else if includes url "quizlet.com" then extractFromQuizlet d
  else if includes url "instructure.com"
          || bool_decide (is_Some (querySelector_doc d
                                     [[AttrContains "class" "canvas"]]))
  then extractFromCanvas d
  else [].

Definition strategies (d : document) : list (unit -> outcome (list MCQ)) :=
  [ fun _ => extractFromRadioButtons d;
    fun _ => Returned (extractFromLists d);
    fun _ => Returned (extractFromDivStructure d);
    fun _ => Returned (extractFromTableFormat d);
    fun _ => Returned (extractFromCommonPlatforms d) ].

Definition deduplicate (mcqs : list MCQ) : list MCQ :=
  dedup_filter question ∅ mcqs.

Definition extractAll (d : document) : outcome (list MCQ) :=
  Returned (deduplicate (run_strategies (strategies d))).

End MCQExtractor.

(** ** The style objects of a highlight *)

(** the objects that the two [getHighlightStyle] return; [boxShadow] is
    absent from two of them *)
Record HighlightStyle : Type := mkStyle {
  border : str;
  backgroundColor : str;
  boxShadow : option str;
  transition : str
}.

(** ** StealthUtils: the name hash and the randomised styles *)

Module StealthUtils.
Import JS.

(** [ToInt32] of an integer *)
Definition toInt32 (z : Z) : Z := ((z + 2 ^ 31) mod 2 ^ 32 - 2 ^ 31)%Z.

(** [a << n] and [a & b] *)
Definition shl (a n : Z) : Z := toInt32 (Z.shiftl (toInt32 a) n).
Definition band (a b : Z) : Z := Z.land (toInt32 a) (toInt32 b).

Definition simpleHash (s : str) : Z :=
  Z.abs
    (fold_left
       (fun hash c =>
          let hash := (shl hash 5 - hash + Z.of_nat (code c))%Z in
          band hash hash)
       s 0%Z).

(** a digit of [Number.prototype.toString(36)] *)
Definition digit36 (d : Z) : ascii :=
  ascii_of_nat (Z.to_nat (if (d <? 10)%Z then 48 + d else 87 + d)%Z).

Fixpoint digits36 (fuel : nat) (n : Z) (acc : str) : str :=
  match fuel with
  | 0 => acc
  | S fuel' =>
      let acc' := digit36 (n mod 36) :: acc in
      if (n / 36 =? 0)%Z then acc' else digits36 fuel' (n / 36)%Z acc'
  end.

(** [n.toString(36)] for an integer [n >= 0] *)
Definition toString36 (n : Z) : str :=
  digits36 (S (Z.to_nat (Z.log2 n))) n [].

Definition obfuscate (name : str) : str :=
  "_" ++ toString36 (simpleHash name).

(** *** [getHighlightStyle]

  [show] is the conversion of a number to a string inside a template
  literal.  [random n] is the value of the call number [n] of
  [Math.random()] that the function makes: two calls for the variations,
  then one for each property of the object that is returned, in the order
  of the properties. *)

Section Styles.
Import PrimFloat.
Context (show : float -> str).

#[warnings="-inexact-float"]
Definition getHighlightStyle (random : nat -> float) (confidence : float)
    : HighlightStyle :=
  let hueVariation := (random 0%nat * 10 - 5)%float in
  let saturationVariation := (random 1%nat * 10 - 5)%float in
  if (80 <=? confidence)%float
  then mkStyle
         (show (2 + random 2%nat)%float ++ "px solid hsl("
            ++ show (120 + hueVariation)%float ++ ", "
            ++ show (70 + saturationVariation)%float ++ "%, 45%)")
         ("hsla(" ++ show (120 + hueVariation)%float ++ ", "
            ++ show (50 + saturationVariation)%float ++ "%, 85%, "
            ++ show (0.15 + random 3%nat * 0.1)%float ++ ")")
         (Some ("0 0 " ++ show (8 + random 4%nat * 4)%float ++ "px hsla("
                  ++ show (120 + hueVariation)%float ++ ", 70%, 50%, 0.3)"))
         ("all " ++ show (0.3 + random 5%nat * 0.2)%float ++ "s ease-in-out")
  else if (60 <=? confidence)%float
  then mkStyle
         (show (2 + random 2%nat)%float ++ "px solid hsl("
            ++ show (45 + hueVariation)%float ++ ", "
            ++ show (65 + saturationVariation)%float ++ "%, 50%)")
         ("hsla(" ++ show (45 + hueVariation)%float ++ ", "
            ++ show (50 + saturationVariation)%float ++ "%, 85%, "
            ++ show (0.1 + random 3%nat * 0.1)%float ++ ")")
         None
         ("all " ++ show (0.3 + random 4%nat * 0.2)%float ++ "s ease-in-out")
  else mkStyle
         (show (2 + random 2%nat)%float ++ "px dashed hsl("
            ++ show (25 + hueVariation)%float ++ ", "
            ++ show (70 + saturationVariation)%float ++ "%, 50%)")
         ("hsla(" ++ show (25 + hueVariation)%float ++ ", "
            ++ show (45 + saturationVariation)%float ++ "%, 88%, "
            ++ show (0.08 + random 3%nat * 0.08)%float ++ ")")
         None
         ("all " ++ show (0.3 + random 4%nat * 0.2)%float ++ "s ease-in-out").

End Styles.

End StealthUtils.

(** ** Highlighter: resolving an answer text to an option of the page *)

(** which [return] statement of the resolver produced the option *)
Inductive tier : Type := Exact | Substring | Letter | Fuzzy.

Module Highlighter.
Import JS Regex.

(** *** [levenshteinDistance]: a matrix filled by assignment *)

Abbreviation matrix := (list (list nat)).

(** [arr[i] = v] on a JavaScript array: overwrite inside, extend at or past
    the end ([hole] stands for the empty slots in between). *)
Definition array_set {A} (hole : A) (arr : list A) (i : nat) (v : A)
    : list A :=
  if i <? length arr then <[i := v]> arr
  else arr ++ replicate (i - length arr) hole ++ [v].

(** [matrix[i][j]]; every cell the function reads was written before *)
Definition cell (m : matrix) (i j : nat) : nat :=
  default 0 (m !! i ≫= fun row => row !! j).

(** [matrix[i][j] = v]; the row [matrix[i]] exists at every such
    assignment of the function *)
Definition set_cell (m : matrix) (i j v : nat) : matrix :=
  match m !! i with
  | Some row => <[i := array_set 0 row j v]> m
  | None => m
  end.

(** [b.charAt(i - 1) === a.charAt(j - 1)] *)
Definition same_char (a b : str) (i j : nat) : bool :=
  bool_decide (b !! (i - 1) = a !! (j - 1)).

Definition fill_cell (a b : str) (i : nat) (m : matrix) (j : nat) : matrix :=
  if same_char a b i j
  then set_cell m i j (cell m (i - 1) (j - 1))
  else set_cell m i j
         (Nat.min (cell m (i - 1) (j - 1) + 1)      (* substitution *)
            (Nat.min (cell m i (j - 1) + 1)         (* insertion *)
               (cell m (i - 1) j + 1))).            (* deletion *)

Definition fill_row (a b : str) (m : matrix) (i : nat) : matrix :=
  fold_left (fill_cell a b i) (seq 1 (length a)) m.

Definition init_rows (b : str) : matrix :=
  fold_left (fun m i => array_set [] m i [i]) (seq 0 (S (length b))) [].

Definition init_columns (a : str) (m : matrix) : matrix :=
  fold_left (fun m j => set_cell m 0 j j) (seq 0 (S (length a))) m.

Definition levenshteinDistance (a b : str) : nat :=
  let m := init_columns a (init_rows b) in
  let m := fold_left (fill_row a b) (seq 1 (length b)) m in
  cell m (length b) (length a).

(** *** [findMatchingOption] *)

Definition clean (s : str) : str := trim (toLowerCase s).

Definition one_of (cs : str) : ascii -> bool :=
  fun c => existsb (char_eqb c) cs.
(** [[.\):\s]] *)
Definition marker_end (c : ascii) : bool := one_of ".):" c || is_space c.
(** [[A-D]] under the [i] flag *)
Definition letter_A_D (c : ascii) : bool :=
  in_range 65 68 c || in_range 97 100 c.

(** [/^([A-D])[.\):\s]/i] *)
Definition letterPattern : regex :=
  Seq Bol (Seq (Group 1 (Chr letter_A_D)) (Chr marker_end)).

(** [letter.charCodeAt(0) - 'A'.charCodeAt(0)] for the upper-cased capture *)
Definition letter_index (m : MatchResult) : Z :=
  match toUpperCase_ascii (group m 1) with
  | c :: _ => Z.of_nat (code c) - 65
  | [] => 0
  end.

(** [options[index]] guarded by [index >= 0 && index < options.length] *)
Definition option_at {A} (options : list A) (index : Z) : option A :=
  if (0 <=? index)%Z && (index <? Z.of_nat (length options))%Z
  then options !! Z.to_nat index
  else None.

(** [x < m * 0.4] for integers [x] and [m]: the product is the double
    nearest to [0.4 m]; it is the integer [2m/5] when [5] divides [m] and
    lies at least [0.2] away from every integer otherwise, so that the
    comparison is that of [5 x] with [2 m]. *)
Definition below_40_percent (x m : nat) : bool := 5 * x <? 2 * m.

(** the state of the fuzzy loop: [bestMatch] and [bestScore], where [None]
    stands for [null] and for [Infinity] *)
Definition fuzzy_state : Type := option PageOption * option nat.

Definition fuzzy_step (cleanAnswer : str) (st : fuzzy_state)
    (option : PageOption) : fuzzy_state :=
  let distance := levenshteinDistance cleanAnswer (clean (text option)) in
  match snd st with
  | Some bestScore =>
      if distance <? bestScore then (Some option, Some distance) else st
  | None => (Some option, Some distance)
  end.

Definition fuzzy_accept (cleanAnswer : str) (st : fuzzy_state)
    : option PageOption :=
  match st with
  | (Some bestMatch, Some bestScore) =>
      if below_40_percent bestScore
           (Nat.max (length cleanAnswer) (length (text bestMatch)))
      then Some bestMatch else None
  | _ => None
  end.

Definition resolve (options : list PageOption) (answer : str)
    : option (tier * PageOption) :=
  let cleanAnswer := clean answer in
  match List.find (fun option => str_eqb (clean (text option)) cleanAnswer)
          options with
  | Some option => Some (Exact, option)
  | None =>
  match List.find (fun option =>
                     includes (clean (text option)) cleanAnswer
                     || includes cleanAnswer (clean (text option)))
          options with
  | Some option => Some (Substring, option)
  | None =>
  match exec letterPattern answer ≫= fun m => option_at options (letter_index m)
  with
  | Some option => Some (Letter, option)
  | None =>
      match fuzzy_accept cleanAnswer
              (fold_left (fuzzy_step cleanAnswer) options (None, None)) with
      | Some option => Some (Fuzzy, option)
      | None => None
      end
  end end end.

Definition findMatchingOption (options : list PageOption) (answer : str)
    : option PageOption :=
  snd <$> resolve options answer.

(** *** Styles by confidence

  [stealthUtils] tells whether [StealthUtils] is defined where the
  function runs, [show] and [random] are those of
  [StealthUtils.getHighlightStyle]. *)

Section Styles.
Import PrimFloat.
Context (show : float -> str) (stealthUtils : bool).

Definition getHighlightStyle (random : nat -> float) (confidence : float)
    (stealthMode : bool) : HighlightStyle :=
  if stealthMode && stealthUtils
  then StealthUtils.getHighlightStyle show random confidence
  else if (80 <=? confidence)%float
  then mkStyle "3px solid #22c55e" "rgba(34, 197, 94, 0.15)"
         (Some "0 0 10px rgba(34, 197, 94, 0.3)") "all 0.3s ease-in-out"
  else if (60 <=? confidence)%float
  then mkStyle "3px solid #eab308" "rgba(234, 179, 8, 0.1)" None
         "all 0.3s ease-in-out"
  else mkStyle "3px dashed #f97316" "rgba(249, 115, 22, 0.08)" None
         "all 0.3s ease-in-out".

Definition getConfidenceBadgeColor (confidence : float) : str :=
  if (80 <=? confidence)%float then "#22c55e"
  else if (60 <=? confidence)%float then "#eab308"
  else "#f97316".

End Styles.

(** *** Highlights on the page

  Of the page the functions touch three things, which the browser keeps
  apart: the inline style declaration [element.style] of an element, the
  attribute [data-mcq-highlighted] of an element, and the child lists, to
  which a badge is appended and from which badges are removed.  Elements
  are named by their handles.  The declarations and the child lists are
  the browser's: [get_property] and [set_property] read and write one
  property of a declaration, [remove_badge] removes the first element of
  class [mcq-confidence-badge] inside an element when there is one,
  [appendChild] appends a new element to an element.  Scrolling moves the
  viewport only and is left out, and so are the delays.  A call is taken
  as a whole: no other call of the highlighter runs while it waits. *)

(** the own properties of an object, in the order of [Object.assign] *)
Abbreviation properties := (list (str * str)).

(** the badge, as it is when it is appended *)
Record Badge : Type := mkBadge {
  className : str;
  textContent : str;
  style : properties
}.

Section Highlights.
Context (show : PrimFloat.float -> str) (stealthUtils : bool).
(** [Math.round] *)
Context (round : PrimFloat.float -> PrimFloat.float).
Context {Declaration Children : Type}.
Context (get_property : str -> Declaration -> str).
Context (set_property : str -> str -> Declaration -> Declaration).
Context (remove_badge : DOM.handle -> Children -> Children).
Context (appendChild : DOM.handle -> Badge -> Children -> Children).

Record Page : Type := mkPage {
  inline : DOM.handle -> Declaration;   (* [element.style] *)
  highlighted : gset DOM.handle;        (* [data-mcq-highlighted] is set *)
  children : Children
}.

(** the page and the array [highlightedElements] *)
Record State : Type := mkState {
  page : Page;
  highlightedElements : list (DOM.handle * properties)
}.

(** [Object.assign(element.style, source)] *)
Definition assign (source : properties) (d : Declaration) : Declaration :=
  fold_left (fun d '(name, v) => set_property name v d) source d.

(** the own properties of a style object *)
Definition style_properties (style : HighlightStyle) : properties :=
  [("border" : str, border style);
   ("backgroundColor" : str, backgroundColor style)]
  ++ match boxShadow style with
     | Some shadow => [("boxShadow" : str, shadow)]
     | None => []
     end
  ++ [("transition" : str, transition style)].

(** [if (!element.style[name]) element.style[name] = v] *)
Definition set_if_empty (name v : str) (d : Declaration) : Declaration :=
  if decide (get_property name d = []) then set_property name v d else d.

Definition with_inline (element : DOM.handle) (d : Declaration) (p : Page)
    : Page :=
  mkPage (fun e => if decide (e = element) then d else inline p e)
    (highlighted p) (children p).

Definition applyHighlight (element : DOM.handle) (style : HighlightStyle)
    (st : State) : State :=
  let d := inline (page st) element in
  let originalStyles : properties :=
    [("border" : str, get_property "border" d);
     ("backgroundColor" : str, get_property "backgroundColor" d);
     ("boxShadow" : str, get_property "boxShadow" d);
     ("transition" : str, get_property "transition" d);
     ("borderRadius" : str, get_property "borderRadius" d);
     ("padding" : str, get_property "padding" d)] in
  let d := assign (style_properties style) d in
  let d := set_if_empty "padding" "8px 12px" d in
  let d := set_if_empty "borderRadius" "6px" d in
  let p := with_inline element d (page st) in
  mkState (mkPage (inline p) ({[ element ]} ∪ highlighted p) (children p))
    (highlightedElements st ++ [(element, originalStyles)]).

Definition badge (confidence : PrimFloat.float) : Badge :=
  mkBadge "mcq-confidence-badge"
    (show (round confidence) ++ "% confident")
    [("display" : str, "inline-block" : str);
     ("marginLeft" : str, "8px" : str);
     ("padding" : str, "2px 8px" : str);
     ("fontSize" : str, "11px" : str);
     ("fontWeight" : str, "bold" : str);
     ("borderRadius" : str, "12px" : str);
     ("backgroundColor" : str, getConfidenceBadgeColor confidence);
     ("color" : str, "white" : str);
     ("verticalAlign" : str, "middle" : str);
     ("fontFamily" : str, "system-ui, -apple-system, sans-serif" : str)].

Definition addConfidenceBadge (element : DOM.handle)
    (confidence : PrimFloat.float) (st : State) : State :=
  let p := page st in
  mkState
    (mkPage (inline p) (highlighted p)
       (appendChild element (badge confidence)
          (remove_badge element (children p))))
    (highlightedElements st).

(** the body of the [forEach] of [clearHighlights] *)
Definition clear_one (p : Page) (entry : DOM.handle * properties) : Page :=
  let '(element, originalStyles) := entry in
  let p := with_inline element (assign originalStyles (inline p element)) p in
  mkPage (inline p) (highlighted p ∖ {[ element ]})
    (remove_badge element (children p)).

Definition clearHighlights (st : State) : State :=
  mkState (fold_left clear_one (highlightedElements st) (page st)) [].

(** [highlight]; [random] holds the values that [Math.random()] returns
    inside [getHighlightStyle] in this call *)
Definition highlight (mcq : MCQExtractor.MCQ) (answer : str)
    (confidence : PrimFloat.float) (stealthMode : bool)
    (random : nat -> PrimFloat.float) (st : State) : State :=
  let st := clearHighlights st in
  match findMatchingOption (MCQExtractor.options mcq) answer with
  | None => st
  | Some matchingOption =>
      let style :=
        getHighlightStyle show stealthUtils random confidence stealthMode in
      addConfidenceBadge (element matchingOption) confidence
        (applyHighlight (element matchingOption) style st)
  end.

(** an entry [{ mcq, answer, confidence }] of [results], with the random
    values of its highlight *)
Record Result : Type := mkResult {
  r_mcq : MCQExtractor.MCQ;
  r_answer : str;
  r_confidence : PrimFloat.float;
  r_random : nat -> PrimFloat.float
}.

Definition highlightMultiple (results : list Result) (stealthMode : bool)
    (st : State) : State :=
  fold_left
    (fun st result =>
       highlight (r_mcq result) (r_answer result) (r_confidence result)
         stealthMode (r_random result) st)
    results (clearHighlights st).

End Highlights.

End Highlighter.

(** ** The popup: the class of a confidence *)

Module Popup.

Import PrimFloat.

Definition getConfidenceClass (confidence : float) : str :=
  if (80 <=? confidence)%float then "high"
  else if (60 <=? confidence)%float then "medium"
  else "low".

End Popup.

(** ** AIService: the answer service *)

Module AIService.
Import JS Regex.

Record Answer : Type := mkAnswer {
  answer : option str;       (* [None] is [undefined] *)
  confidence : nat;
  explanation : str
}.

Definition one_of (cs : str) : ascii -> bool :=
  fun c => existsb (char_eqb c) cs.
Definition marker_end (c : ascii) : bool := one_of ".):" c || is_space c.
Definition letter_A_D (c : ascii) : bool :=
  in_range 65 68 c || in_range 97 100 c.

(** [/^([A-D])[.\):\s]/i] *)
Definition letterPattern : regex :=
  Seq Bol (Seq (Group 1 (Chr letter_A_D)) (Chr marker_end)).
(** [/\b([A-D])[.\):\s]/i] *)
Definition letterAnywhere : regex :=
  Seq WordB (Seq (Group 1 (Chr letter_A_D)) (Chr marker_end)).

Definition letter_index (m : MatchResult) : Z :=
  match toUpperCase_ascii (group m 1) with
  | c :: _ => Z.of_nat (code c) - 65
  | [] => 0
  end.

Definition option_at {A} (options : list A) (index : Z) : option A :=
  if (0 <=? index)%Z && (index <? Z.of_nat (length options))%Z
  then options !! Z.to_nat index
  else None.

Definition _fallbackParse (text : str) (options : list str) : Answer :=
  match exec letterAnywhere text ≫= fun m => option_at options (letter_index m)
  with
  | Some option =>
      mkAnswer (Some option) 50 "Extracted from unstructured response"
  | None =>
      match List.find (fun option =>
                         includes (toLowerCase text) (toLowerCase option))
              options with
      | Some option => mkAnswer (Some option) 40 "Matched from response text"
      | None =>
          mkAnswer (options !! 0) 20 "Unable to parse AI response reliably"
      end
  end.

Definition resolve (answer : str) (options : list str)
    : option (tier * str) :=
  let cleanAnswer := trim (toLowerCase answer) in
  match List.find (fun option =>
                     str_eqb (trim (toLowerCase option)) cleanAnswer)
          options with
  | Some option => Some (Exact, option)
  | None =>
  match List.find (fun option =>
                     includes cleanAnswer (trim (toLowerCase option)))
          options with
  | Some option => Some (Substring, option)
  | None =>
  match List.find (fun option =>
                     includes (trim (toLowerCase option)) cleanAnswer)
          options with
  | Some option => Some (Substring, option)
  | None =>
  match exec letterPattern answer ≫= fun m => option_at options (letter_index m)
  with
  | Some option => Some (Letter, option)
  | None => None
  end end end end.

Definition _matchAnswerToOption (answer : str) (options : list str)
    : option str :=
  snd <$> resolve answer options.

(** the configured provider *)
Inductive provider : Type := OpenAI | Ollama | Other (name : str).

(** [answerMCQ]: [respond] stands for the awaited call of the model, which
    delivers the raw response text or throws. *)
Definition answerMCQ (p : provider) (respond : str -> list str -> outcome str)
    (parseAIResponse : str -> list str -> Answer)
    (question : str) (options : list str) : outcome Answer :=
  if negb (truthy question) || (length options =? 0)
  then Thrown (Error "Invalid question or options")
  else
    match p with
    | OpenAI | Ollama =>
        response ← respond question options;
        Returned (parseAIResponse response options)
    | Other name => Thrown (Error ("Unsupported AI provider: " ++ name))
    end.

(** What the [try] block of a model call throws: [error.status] as the
    OpenAI client sets it, [error.code] as axios sets it, and
    [error.message]. *)
Record ClientError : Type := mkClientError {
  e_status : option Z;
  e_code : option str;
  e_message : str
}.

(** [_callOpenAI]: [completion] is the outcome of the [try] block, the
    content of the first choice or the error thrown on the way to it. *)
Definition _callOpenAI (completion : ClientError + str) : outcome str :=
  match completion with
  | inr content => Returned content
  | inl error =>
      if decide (e_status error = Some 401%Z)
      then Thrown (Error "Invalid OpenAI API key")
      else if decide (e_status error = Some 429%Z)
      then Thrown (Error "OpenAI rate limit exceeded. Please try again later.")
      else if decide (e_status error = Some 503%Z)
      then Thrown (Error "OpenAI service temporarily unavailable")
      else Thrown (Error ("OpenAI API error: " ++ e_message error))
  end.

(** [_callOllama], in the same way *)
Definition _callOllama (response : ClientError + str) : outcome str :=
  match response with
  | inr text => Returned text
  | inl error =>
      if decide (e_code error = Some "ECONNREFUSED")
      then Thrown (Error "Ollama is not running. Please start Ollama server.")
      else Thrown (Error ("Ollama error: " ++ e_message error))
  end.

End AIService.



(** ** OCRService: cleaning the recognised text *)

Module OCRService.
Import JS Regex.

Definition nl : ascii := "010"%char.

(** [/\s+/g] *)
Definition spaces : regex := Plus true (Chr is_space).
(** [/\n{3,}/g] *)
Definition newlines3 : regex :=
  Seq (Lit nl) (Seq (Lit nl) (Plus true (Lit nl))).
(** [/\bl\b/g] and [/\bO\b/g] *)
Definition lone (c : ascii) : regex := Seq WordB (Seq (Lit c) WordB).
(** [[^\x20-\x7E\n]] *)
Definition artifact (c : ascii) : bool :=
  negb (in_range 32 126 c || char_eqb c nl).

Definition cleanText (text : str) : str :=
  if negb (truthy text) then []
  else
    trim
      (replaceAll (Chr artifact) []
         (replaceAll (lone "O") "0"
            (replaceAll (lone "l") "1"
               (replaceAll newlines3 [nl; nl]
                  (replaceAll spaces " " text))))).

(** [text.split(/\s+/).filter(w => w.length > 0).length], the word count
    of [extractFromImage] and [extractFromPDF] *)
Definition word_count (text : str) : nat :=
  length (List.filter (fun w => 0 <? length w) (split spaces text)).

(** the fields of an extraction result that [validateResult] reads *)
Record Result : Type := mkResult {
  text : str;
  confidence : Z;
  wordCount : nat
}.

(** the result of an extraction that recognised [text] with the given
    (rounded) confidence *)
Definition extracted (text : str) (confidence : Z) : Result :=
  mkResult text confidence (word_count text).

Record Quality : Type := mkQuality {
  isValid : bool;
  issues : list str;
  warnings : list str
}.

Definition validateResult (result : Result) : Quality :=
  let issues :=
    (if negb (truthy (text result)) || (length (text result) =? 0)
     then ["No text extracted"] else [])
    ++ (if (confidence result <? 50)%Z
        then ["Low confidence score - text may be inaccurate"] else [])
    ++ (if wordCount result <? 10
        then ["Very little text detected - image quality may be poor"]
        else []) in
  mkQuality (length issues =? 0) issues
    (if (confidence result <? 70)%Z
     then ["Moderate confidence - verify extracted text"] else []).

End OCRService.

(** ** The route [POST /api/ocr/parse], after the text is recognised *)

Module OCRRoute.

(** [mcqs.map(mcq => ({ ...mcq, validation: mcqParser.validate(mcq) }))] on
    the MCQs parsed from the cleaned text; [text] is [ocrResult.text] *)
Definition validatedMCQs (text : str)
    : outcome (list (MCQParser.MCQ * MCQParser.Validation)) :=
  mcqs ← MCQParser.parse (OCRService.cleanText text);
  Returned (map (fun mcq => (mcq, MCQParser.validate mcq)) mcqs).

End OCRRoute.

(** ** Request validation *)

Module Validator.
Import JS Regex.

(** The values of a parsed JSON body; a field that is absent reads as
    [VUndefined]. *)
#[warnings="-register-all"]
Inductive value : Type :=
| VUndefined
| VNull
| VBoolean (b : bool)
| VNumber (x : PrimFloat.float)
| VString (s : str)
| VArray (items : list value)
| VObject (fields : list (str * value)).

(** [ToBoolean] *)
Definition truthy_value (v : value) : bool :=
  match v with
  | VUndefined | VNull => false
  | VBoolean b => b
  | VNumber x => negb (PrimFloat.eqb x PrimFloat.zero || PrimFloat.is_nan x)
  | VString s => truthy s
  | VArray _ | VObject _ => true
  end.

(** the two fields of [req.body] that the answer route reads *)
Record Body : Type := mkBody {
  question : value;
  options : value
}.

(** [[<>]] *)
Definition angle (c : ascii) : bool := existsb (char_eqb c) "<>".

(** [text.trim().replace(/[<>]/g, '').replace(/\s+/g, ' ')] *)
Definition sanitized (text : str) : str :=
  replaceAll (Plus true (Chr is_space)) " "
    (replaceAll (Chr angle) [] (trim text)).

Definition sanitizeText (text : value) : value :=
  match text with
  | VString s => VString (sanitized s)
  | _ => text
  end.

Definition sanitizeRequest (body : Body) : Body :=
  mkBody
    (if truthy_value (question body) then sanitizeText (question body)
     else question body)
    (match options body with
     | VArray items => VArray (map sanitizeText items)
     | other => other
     end).

(** [String(n)] for a natural number *)
Definition decimal (n : nat) : str :=
  String.list_ascii_of_string
    (DecimalString.NilZero.string_of_uint (Nat.to_uint n)).

Definition question_errors (question : value) : list str :=
  if negb (truthy_value question) then ["Question is required"]
  else
    match question with
    | VString q =>
        if length (trim q) <? 10
        then ["Question is too short (minimum 10 characters)"]
        else if 1000 <? length q
        then ["Question is too long (maximum 1000 characters)"]
        else []
    | _ => ["Question must be a string"]
    end.

(** the callback of [options.forEach] *)
Definition option_errors (index : nat) (option : value) : list str :=
  match option with
  | VString o =>
      if length (trim o) =? 0
      then ["Option " ++ decimal (index + 1) ++ " is empty"]
      else if 500 <? length o
      then ["Option " ++ decimal (index + 1)
              ++ " is too long (maximum 500 characters)"]
      else []
  | _ => ["Option " ++ decimal (index + 1) ++ " must be a string"]
  end.

Definition options_errors (options : value) : list str :=
  if negb (truthy_value options) then ["Options are required"]
  else
    match options with
    | VArray items =>
        if length items <? 2 then ["At least 2 options are required"]
        else if 10 <? length items then ["Maximum 10 options allowed"]
        else concat (imap option_errors items)
    | _ => ["Options must be an array"]
    end.

(** [validateAnswerRequest]: the list [errors]; the middleware answers 400
    when it is not empty and calls [next()] otherwise. *)
Definition validateAnswerRequest (body : Body) : list str :=
  question_errors (question body) ++ options_errors (options body).

End Validator.

(** ** The upload validator and the extractor it guards *)

Module OCRUpload.
Import JS.

(** the fields of [req.file] that are read *)
Record File : Type := mkFile {
  mimetype : str;
  size : N
}.

Definition allowedTypes : list str :=
  ["image/jpeg"; "image/png"; "image/webp"; "image/gif"; "application/pdf"].

(** [array.join(sep)] *)
Fixpoint join (sep : str) (l : list str) : str :=
  match l with
  | [] => []
  | [x] => x
  | x :: l' => x ++ sep ++ join sep l'
  end.

(** [validateOCRRequest]: the error of the 400 response, or [None] when
    [next()] is called *)
Definition validateOCRRequest (file : option File) : option str :=
  match file with
  | None => Some "No file uploaded"
  | Some file =>
      if negb (existsb (str_eqb (mimetype file)) allowedTypes)
      then Some ("Invalid file type. Allowed types: "
                   ++ join ", " allowedTypes)
      else if (10 * 1024 * 1024 <? size file)%N
      then Some "File too large. Maximum size: 10MB"
      else None
  end.

(** the branch of [extractText] *)
Inductive extractor : Type := extractFromImage | extractFromPDF.

Definition extractText (file : File) : outcome extractor :=
  let mimeType := mimetype file in
  if startsWith mimeType "image/" then Returned extractFromImage
  else if str_eqb mimeType "application/pdf" then Returned extractFromPDF
  else Thrown (Error ("Unsupported file type: " ++ mimeType)).

End OCRUpload.

(** ** The route [POST /api/answer] *)

Module AnswerRoute.
Import JS Validator.

Inductive response : Type :=
| Answered (result : AIService.Answer)      (* 200 *)
| Rejected (errors : list str)              (* 400, by the validator *)
| Failed (statusCode : nat) (errorMessage : str).

Definition message (error : exn) : str :=
  match error with TypeError m | SyntaxError m | Error m => m end.

(** the [catch] block of the handler *)
Definition failure (error : exn) : response :=
  if includes (message error) "API key"
  then Failed 401 "AI service authentication failed"
  else if includes (message error) "rate limit"
  then Failed 503 "AI service rate limit exceeded"
  else if includes (message error) "not running"
  then Failed 503 "AI service unavailable"
  else Failed 500 "Failed to process question".

(** the handler on a string and an array of strings *)
Definition handler (answerMCQ : str -> list str -> outcome AIService.Answer)
    (question : str) (options : list str) : response :=
  match answerMCQ question options with
  | Returned result => Answered result
  | Thrown error => failure error
  end.

Definition strings (items : list value) : option (list str) :=
  mapM (fun v => match v with VString s => Some s | _ => None end) items.

(** [sanitizeRequest], [validateAnswerRequest] and the handler in a row.
    The validator passes a string and an array of strings only, so that the
    last case is never taken. *)
Definition post (answerMCQ : str -> list str -> outcome AIService.Answer)
    (body : Body) : response :=
  let body := sanitizeRequest body in
  match validateAnswerRequest body with
  | [] =>
      match question body, options body with
      | VString q, VArray items =>
          match strings items with
          | Some opts => handler answerMCQ q opts
          | None => Failed 500 "Failed to process question"
          end
      | _, _ => Failed 500 "Failed to process question"
      end
  | errors => Rejected errors
  end.

End AnswerRoute.

(** ** The server: allowed origins and the last error handler *)

Module Server.
Import JS Regex.

(** [pattern.replace('*', '.*')]: the first star only *)
Fixpoint replace_star (pattern : str) : str :=
  match pattern with
  | [] => []
  | c :: rest =>
      if char_eqb c "*" then ".*" ++ rest else c :: replace_star rest
  end.

(** the syntax characters of a pattern *)
Definition syntax_character (c : ascii) : bool :=
  existsb (char_eqb c) "^$\.*+?()[]{}|".

(** [.] without the [s] flag: any code unit but a line terminator *)
Definition dot (c : ascii) : bool :=
  negb (char_eqb c "010" || char_eqb c "013").

(** [new RegExp(source)] for a source made of pattern characters and dots,
    each possibly followed by a star; [None] for any other source *)
Fixpoint compile (source : str) : option regex :=
  match source with
  | [] => Some Eps
  | c :: rest =>
      let atom :=
        if char_eqb c "." then Some (Chr dot)
        else if syntax_character c then None
        else Some (Lit c) in
      match rest with
      | s :: rest' =>
          if char_eqb s "*"
          then a ← atom; r ← compile rest'; Some (Seq (Star true a) r)
          else a ← atom; r ← compile rest; Some (Seq a r)
      | [] => a ← atom; Some (Seq a Eps)
      end
  end.

(** the default of [ALLOWED_ORIGINS] *)
Definition ALLOWED_ORIGINS : list str :=
  ["http://localhost:3000"; "chrome-extension://*"].

(** the callback of [ALLOWED_ORIGINS.some]; [None] when the source handed
    to [new RegExp] is not one that [compile] reads *)
Definition origin_matches (origin pattern : str) : option bool :=
  if includes pattern "*"
  then regex ← compile (replace_star pattern); Some (test regex origin)
  else Some (str_eqb origin pattern).

Fixpoint some_pattern (origin : str) (patterns : list str) : option bool :=
  match patterns with
  | [] => Some false
  | pattern :: rest =>
      b ← origin_matches origin pattern;
      if b : bool then Some true else some_pattern origin rest
  end.

(** the global error handler: status and error text for [err.code] and
    [err.message] *)
Definition errorHandler (code : option str) (message : str) : nat * str :=
  if decide (code = Some "LIMIT_FILE_SIZE")
  then (400, "File too large. Maximum size: 10MB")
  else if decide (code = Some "LIMIT_UNEXPECTED_FILE")
  then (400, "Unexpected field in file upload")
  else if str_eqb message "Not allowed by CORS"
  then (401, "CORS policy: Origin not allowed")
  else (500, "Internal server error").

(** what becomes of a request with the given [Origin] header: it goes on
    ([None]) or is answered by the error handler *)
Definition cors (allowed : list str) (origin : option str)
    : option (option (nat * str)) :=
  match origin with
  | None => Some None
  | Some o =>
      if negb (truthy o) then Some None
      else
        isAllowed ← some_pattern o allowed;
        Some (if isAllowed : bool then None
              else Some (errorHandler None "Not allowed by CORS"))
  end.

End Server.

(** what a strategy contributes to the candidate list *)
Definition candidates {M} (strategy : unit -> outcome (list M)) : list M :=
  match strategy () with
  | Returned extracted => extracted
  | Thrown _ => []
  end.

Module Examples.
Import DOM.

Definition no_oracle : str -> outcome (option handle) :=
  fun _ => Thrown (SyntaxError "not a valid selector").

(** [<label><input type="radio" name=... value=...>text</label>] *)
Definition radio_in_label (name text : str) : node :=
  Element "label" []
    [Element "input" [("type", "radio"); ("name", name); ("value", text)] [];
     TextNode text].

(** a field set with a legend and seven radio buttons of one group *)
Definition seven_radios : document :=
  Document
    (Element "html" []
       [Element "body" []
          [Element "fieldset" []
             (Element "legend" [] [TextNode "Which city is the capital?"]
              :: map (radio_in_label "q1")
                   ["Paris"; "Berlin"; "Rome"; "Madrid"; "Vienna"; "Oslo";
                    "Bern"])]])
    "example.com" no_oracle.

(** a page whose radio group is named like a member of [Object.prototype],
    next to a table of three rows *)
Definition throwing_radio_and_table : document :=
  Document
    (Element "html" []
       [Element "body" []
          [radio_in_label "constructor" "yes";
           radio_in_label "constructor" "no";
           Element "table" []
             [Element "tbody" []
                [Element "tr" [] [Element "td" [] [TextNode "Largest planet?"]];
                 Element "tr" [] [Element "td" [] [TextNode "Jupiter"]];
                 Element "tr" [] [Element "td" [] [TextNode "Mars"]]]]]])
    "example.com" no_oracle.

(** a question of a Canvas page, with the white space of the markup *)
Definition canvas_question : document :=
  Document
    (Element "html" []
       [Element "body" []
          [Element "div" [("class", "question")]
             [Element "div" [("class", "question_text")]
                [TextNode ("010"%char :: "  What is 2 + 2?  ")];
              Element "div" [("class", "answer")] [TextNode " 3"];
              Element "div" [("class", "answer")] [TextNode "4 "]]]])
    "school.instructure.com" no_oracle.

End Examples.


(** ** Vocabulary of the statements *)

(** the strategies that check the upper bound before they emit *)
Definition checks_upper_bound (type : str) : bool :=
  existsb (JS.str_eqb type) ["list"; "div"; "table"].

(** at least two options; at most six for the strategies that check it *)
Definition counted (m : MCQExtractor.MCQ) : Prop :=
  2 <= length (MCQExtractor.options m)
  /\ (checks_upper_bound (MCQExtractor.type m) = true ->
      length (MCQExtractor.options m) <= 6).

(** the zero-based position of an option letter: ['A'] and ['a'] give 0 *)
Definition letter_number (c : ascii) : nat := JS.code (JS.upper_char c) - 65.

(** an option of the page whose text and value are [s] *)
Definition page_option (n : nat) (s : str) : PageOption := mkOption s [n] s.

(** ** Option markers, described directly *)

Module Marker.
Import JS.

(** the rest of [s] after its longest prefix of code units in [p] *)
Fixpoint skip (p : ascii -> bool) (s : str) : str :=
  match s with
  | c :: s' => if p c then skip p s' else s
  | [] => []
  end.

Definition marker_end (c : ascii) : bool :=
  existsb (char_eqb c) ".):" || is_space c.

(** a letter and the run of '.', ')', ':' and white space after it *)
Definition drop_letter (s : str) : str :=
  match s with
  | c :: sep :: rest =>
      if is_letter c && marker_end sep then skip marker_end rest else s
  | _ => s
  end.

(** a digit sequence and the run of '.', ')', ':' and white space after it *)
Definition drop_number (s : str) : str :=
  match s with
  | c :: _ =>
      if is_digit c then
        match skip is_digit s with
        | sep :: rest => if marker_end sep then skip marker_end rest else s
        | [] => s
        end
      else s
  | [] => s
  end.

(** a letter in parentheses and the white space after it *)
Definition drop_paren_letter (s : str) : str :=
  match s with
  | open :: c :: close :: rest =>
      if char_eqb "(" open && is_letter c && char_eqb ")" close
      then skip is_space rest else s
  | _ => s
  end.

(** a digit sequence in parentheses and the white space after it *)
Definition drop_paren_number (s : str) : str :=
  match s with
  | open :: c :: rest =>
      if char_eqb "(" open && is_digit c then
        match skip is_digit rest with
        | close :: rest' =>
            if char_eqb ")" close then skip is_space rest' else s
        | [] => s
        end
      else s
  | _ => s
  end.

End Marker.

(** ** Vocabulary of the matcher facts *)

(** the loop of [Star], named *)
Definition star_loop (greedy : bool) (r1 : Regex.regex)
    (k : Regex.pos -> Regex.captures -> option Regex.result) :=
  fix loop (fuel : nat) (s : Regex.pos) (c : Regex.captures)
      : option Regex.result :=
    match fuel with
    | 0 => k s c
    | S fuel' =>
        let again :=
          Regex.rx r1 (fun s' c' =>
                   if length (Regex.after s') <? length (Regex.after s)
                   then loop fuel' s' c' else None) s c in
        if greedy then Regex.orElse again (k s c) else Regex.orElse (k s c) again
    end.

(** position reached after the longest run of code units in [p] *)
Definition after_run (p : ascii -> bool) (bef aft : str) : Regex.pos :=
  Regex.Pos (rev (take (length aft - length (Marker.skip p aft)) aft) ++ bef)
      (Marker.skip p aft).

(** ** Edit distance, described directly *)

Module Edit.

(** [edits s t n]: [t] is obtained from [s] by a script of single-character
    insertions, deletions and substitutions of total cost [n], each of cost
    one; characters that are kept cost nothing. *)
Inductive edits : str -> str -> nat -> Prop :=
| edits_nil : edits [] [] 0
| edits_keep x s t n : edits s t n -> edits (x :: s) (x :: t) n
| edits_substitute x y s t n : edits s t n -> edits (x :: s) (y :: t) (S n)
| edits_delete x s t n : edits s t n -> edits (x :: s) t (S n)
| edits_insert y s t n : edits s t n -> edits s (y :: t) (S n).

(** [d] is the edit distance of [s] and [t]: the least cost of a script *)
Definition is_distance (s t : str) (d : nat) : Prop :=
  edits s t d /\ forall n, edits s t n -> d <= n.

(** the recurrence of the dynamic programme, on whole strings *)
Fixpoint lev (s t : str) : nat :=
  match s with
  | [] => length t
  | x :: s' =>
      (fix lev_s (t : str) : nat :=
         match t with
         | [] => length s
         | y :: t' =>
             if decide (x = y) then lev s' t'
             else Nat.min (lev s' t' + 1)
                    (Nat.min (lev_s t' + 1) (lev s' t + 1))
         end) t
  end.

(** the value of the recurrence on the first [i] characters of [b] and the
    first [j] characters of [a], both read backwards *)
Definition prefix_lev (a b : str) (i j : nat) : nat :=
  lev (rev (take i b)) (rev (take j a)).

(** the matrix of [levenshteinDistance a b] while row [i] is being filled
    and holds [j] cells: the rows above are complete, the rows below hold
    their first cell only *)
Definition row_of (a b : str) (i j k : nat) : list nat :=
  if k <? i then prefix_lev a b k <$> seq 0 (S (length a))
  else if k =? i then prefix_lev a b k <$> seq 0 j
  else [k].

Definition state (a b : str) (i j : nat) : list (list nat) :=
  row_of a b i j <$> seq 0 (S (length b)).

End Edit.
(** the distance of the normalised answer to the normalised text of an
    option *)
Definition distance_to (cleanAnswer : str) (o : PageOption) : nat :=
  Highlighter.levenshteinDistance cleanAnswer (Highlighter.clean (text o)).

(** the threshold test as the engine evaluates it, on doubles: [0.4] is the
    double nearest to 2/5 *)
Definition double_of_nat (n : nat) : PrimFloat.float :=
  PrimFloat.of_uint63 (Uint63.of_Z (Z.of_nat n)).

Definition double_below_40_percent (x m : nat) : bool :=
  PrimFloat.ltb (double_of_nat x)
    (PrimFloat.mul (double_of_nat m)
       (PrimFloat.div (double_of_nat 2) (double_of_nat 5))).


(** ** Positions and pieces of one subject *)

(** [x] occurs in [t] as a run of consecutive code units *)
Definition infix_of (x t : str) : Prop := exists l r, t = l ++ x ++ r.

(** the matcher went from [s] to [s'] by reading [mid] *)
Definition reaches (s s' : Regex.pos) : Prop :=
  exists mid,
    Regex.after s = mid ++ Regex.after s'
    /\ Regex.before s' = rev mid ++ Regex.before s.

(** [s] is a position of the subject [t] *)
Definition position_of (t : str) (s : Regex.pos) : Prop :=
  rev (Regex.before s) ++ Regex.after s = t.

(** every captured group is a piece of the subject [t] *)
Definition captures_of (t : str) (c : Regex.captures) : Prop :=
  map_Forall (fun _ x => infix_of x t) c.

(** number of line feeds in a text *)
Definition line_breaks (t : str) : nat :=
  length (List.filter (fun c => JS.char_eqb c MCQParser.nl) t).

(** ** Runs of white space, described directly *)

(** [s] with every maximal run of code units in [p] replaced by [rep];
    [in_run] tells that the code unit before [s] was in [p] *)
Fixpoint squeeze (p : ascii -> bool) (rep : str) (in_run : bool) (s : str)
    : str :=
  match s with
  | [] => []
  | c :: s' =>
      if p c then
        if in_run then squeeze p rep true s'
        else rep ++ squeeze p rep true s'
      else c :: squeeze p rep false s'
  end.

(** the only white space in [s] is the space character *)
Definition only_blanks (s : str) : Prop :=
  Forall (fun c => JS.is_space c = true -> c = " "%char) s.

(** no two spaces of [s] are next to each other *)
Definition no_double_blank (s : str) : Prop :=
  forall i, s !! i = Some " "%char -> s !! S i <> Some " "%char.

(** [s] neither starts nor ends with white space *)
Definition trimmed (s : str) : Prop :=
  (forall c, head s = Some c -> JS.is_space c = false)
  /\ (forall c, last s = Some c -> JS.is_space c = false).

(** code units 0x20 to 0x7E *)
Definition printable (c : ascii) : Prop := 32 <= JS.code c <= 126.

(** ** Vocabulary of the server facts *)

(** an option that the validator lets through *)
Definition acceptable_option (o : str) : Prop :=
  JS.trim o <> [] /\ length o <= 500.

(** a question that the validator lets through *)
Definition acceptable_question (q : str) : Prop :=
  10 <= length (JS.trim q) /\ length q <= 1000.

(** the polynomial [c0 31^(n-1) + ... + c(n-1)] of the code units of [s] *)
Definition poly31 (s : str) : Z :=
  fold_left (fun h c => (31 * h + Z.of_nat (JS.code c))%Z) s 0%Z.

(** the value of a base-36 digit, and of a numeral *)
Definition digit36_value (c : ascii) : Z :=
  if JS.is_digit c then Z.of_nat (JS.code c) - 48
  else Z.of_nat (JS.code c) - 87.

Definition numeral36_value (s : str) : Z :=
  fold_left (fun v c => (36 * v + digit36_value c)%Z) s 0%Z.

(** a pattern that needs a first code unit in [p] *)
Definition starts_in (p : ascii -> bool) (r : Regex.regex) : Prop :=
  (forall bef, Regex.match_at r (Regex.Pos bef []) = None)
  /\ (forall bef a aft,
        p a = false -> Regex.match_at r (Regex.Pos bef (a :: aft)) = None).

(** ** Vocabulary of the parser facts *)

(** the lines of a block as [parseQuestionBlock] sees them: trimmed, the
    empty ones dropped *)
Definition block_lines (block : str) : list str :=
  List.filter (fun l => 0 <? length l)
    (map JS.trim (JS.split_char MCQParser.nl block)).

(** a text on one line: no line feed in it *)
Definition one_line (s : str) : Prop :=
  Forall (fun c => c <> MCQParser.nl) s.

(** a text as the parser reports it: not empty, on one line, no white space
    at either end *)
Definition tidy (s : str) : Prop := s <> [] /\ one_line s /\ trimmed s.

(** the text accumulated by the question loop of [parseQuestionBlock] *)
Definition accumulated (questionText : str) (lines : list str) : str :=
  fold_left
    (fun q line => q ++ (if JS.truthy q then " " else []) ++ line)
    lines questionText.

(** a block of three lines and the MCQ read from it *)
Definition example_block : str :=
  "What is" ++ [MCQParser.nl] ++ "2+2?" ++ [MCQParser.nl] ++ "A. 3"
    ++ [MCQParser.nl] ++ "note" ++ [MCQParser.nl] ++ "B. 4".

Definition example_mcq : MCQParser.MCQ :=
  MCQParser.mkMCQ "What is 2+2?" ["3"; "4"] None.

(** ** Vocabulary of the origin facts *)

(** a text without syntax characters of patterns *)
Definition plain (w : str) : Prop :=
  Forall (fun c => Server.syntax_character c = false) w.

(** the pattern that [new RegExp] builds for a plain text followed by [.*] *)
Definition prefix_pattern (w : str) : Regex.regex :=
  foldr (fun c r => Regex.Seq (Regex.Lit c) r)
    (Regex.Seq (Regex.Star true (Regex.Chr Server.dot)) Regex.Eps) w.

(** ** Vocabulary of the highlight facts *)

(** the element that an answer to a question would highlight *)
Definition target (mcq : MCQExtractor.MCQ) (answer : str)
    : list DOM.handle :=
  match Highlighter.findMatchingOption (MCQExtractor.options mcq) answer with
  | Some o => [element o]
  | None => []
  end.

(** the elements that [highlightedElements] holds *)
Definition registered {Declaration Children}
    (st : @Highlighter.State Declaration Children) : gset DOM.handle :=
  list_to_set (Highlighter.highlightedElements st).*1.

(** the elements that carry the attribute are the ones that
    [highlightedElements] holds *)
Definition consistent {Declaration Children}
    (st : @Highlighter.State Declaration Children) : Prop :=
  Highlighter.highlighted (Highlighter.page st) = registered st.

(** ** Vocabulary of the confidence facts *)

(** a border of the given line style: a width in pixels, which is 3 or a
    number as [show] prints it, then the line style, then a colour *)
Definition line (show : PrimFloat.float -> str) (line_style : str)
    (border : str) : Prop :=
  exists width colour : str,
    border = width ++ "px " ++ line_style ++ " " ++ colour
    /\ (width = "3" \/ exists x, width = show x).

(** ** Vocabulary of the radio facts *)

(** the [name] of a radio button, as the grouping loop reads it *)
Definition radio_name (d : DOM.document) (radio : DOM.handle) : str :=
  match DOM.node_at (DOM.root d) radio with
  | Some n => DOM.attr_or_empty n "name"
  | None => []
  end.

(** the radio buttons of the page that carry the name, in document order *)
Definition named_radios (d : DOM.document) (name : str) : list DOM.handle :=
  filter (fun r => radio_name d r = name)
    (DOM.querySelectorAll_doc d MCQExtractor.sel_radio).

(** the groups built from the radio buttons read so far *)
Definition grouped (d : DOM.document) (read : list DOM.handle)
    (g : MCQExtractor.groups) : Prop :=
  NoDup (g.*1)
  /\ (forall k rs, (k, rs) ∈ g ->
        k <> [] /\ rs = filter (fun r => radio_name d r = k) read)
  /\ (forall r, r ∈ read -> radio_name d r <> [] -> radio_name d r ∈ (g.*1)).

(** ** Vocabulary of the word count *)

(** the words of [s]: maximal runs of code units that are not white space;
    [in_word] tells that the code unit before [s] belongs to a word, which
    is then not counted again *)
Fixpoint count_words (in_word : bool) (s : str) : nat :=
  match s with
  | [] => 0
  | c :: s' =>
      if JS.is_space c then count_words false s'
      else (if in_word then 0 else 1) + count_words true s'
  end.

(** the pieces between the runs of white space of [s]; [piece] holds the
    piece being read, last code unit first, and [in_run] tells that the
    code unit before [s] was white space *)
Fixpoint pieces (in_run : bool) (piece : str) (s : str) : list str :=
  match s with
  | [] => [rev piece]
  | c :: s' =>
      if JS.is_space c then
        if in_run then pieces true [] s'
        else rev piece :: pieces true [] s'
      else pieces false (c :: piece) s'
  end.

(** ** Vocabulary of the extractor facts *)

(** the question text is the normalised text of the question element *)
Definition question_of_element (d : DOM.document) (m : MCQExtractor.MCQ)
    : Prop :=
  MCQExtractor.question m
  = MCQExtractor.extractTextContent d (MCQExtractor.questionElement m).

(** the selectors of a platform extractor, and the pages on which it runs *)
Definition platform (d : DOM.document) (type : str)
    (headingSel optionSel : DOM.selector) : Prop :=
  (type = "google-forms"
   /\ headingSel = [[DOM.AttrEq "role" "heading"]]
   /\ optionSel = [[DOM.AttrEq "role" "radio"]]
   /\ infix_of "google.com/forms" (DOM.hostname d))
  \/ (type = "quizlet"
      /\ headingSel = [[DOM.AttrContains "class" "question"]]
      /\ optionSel = [[DOM.AttrContains "class" "choice"]]
      /\ infix_of "quizlet.com" (DOM.hostname d))
  \/ (type = "canvas"
      /\ headingSel = [[DOM.Class "question_text"]]
      /\ optionSel = [[DOM.Class "answer"]]
      /\ (infix_of "instructure.com" (DOM.hostname d)
          \/ is_Some (DOM.querySelector_doc d
                        [[DOM.AttrContains "class" "canvas"]]))).

(** what the type of an MCQ says about it *)
Definition labelled (d : DOM.document) (m : MCQExtractor.MCQ) : Prop :=
  (MCQExtractor.type m = "radio"
   /\ is_Some (MCQExtractor.groupName m)
   /\ question_of_element d m)
  \/ (MCQExtractor.type m = "list"
      /\ MCQExtractor.groupName m = None
      /\ question_of_element d m
      /\ MCQExtractor.looksLikeQuestion (MCQExtractor.question m) = true)
  \/ ((MCQExtractor.type m = "div" \/ MCQExtractor.type m = "table")
      /\ MCQExtractor.groupName m = None
      /\ question_of_element d m
      /\ Forall (fun o =>
                   text o = MCQExtractor.extractTextContent d (element o)
                   /\ value o = text o)
           (MCQExtractor.options m))
  \/ (exists headingSel optionSel heading,
        platform d (MCQExtractor.type m) headingSel optionSel
        /\ MCQExtractor.groupName m = None
        /\ DOM.querySelector d (MCQExtractor.questionElement m) headingSel
           = Some heading
        /\ MCQExtractor.question m = DOM.textContent_at d heading
        /\ MCQExtractor.question m <> []
        /\ element <$> MCQExtractor.options m
           = DOM.querySelectorAll d (MCQExtractor.questionElement m) optionSel
        /\ Forall (fun o =>
                     text o = DOM.textContent_at d (element o)
                     /\ value o = text o)
             (MCQExtractor.options m)).

(** the question is a text with single blanks and none at its ends *)
Definition normalised (s : str) : Prop :=
  trimmed s /\ only_blanks s /\ no_double_blank s.

(** * Facts about deduplication *)

Section DeduplicateFacts.
Context {M : Type} (question : M -> str).
Abbreviation key := (dedup_key question).

Lemma dedup_filter_sublist (seen : gset str) (mcqs : list M) :
  dedup_filter question seen mcqs `sublist_of` mcqs.
Proof.
  revert seen. induction mcqs as [|m l IH]; intros seen; simpl.
  - constructor.
  - destruct (decide (key m ∈ seen)).
    + apply sublist_cons, IH.
    + apply sublist_skip, IH.
Qed.

Lemma dedup_filter_fresh (seen : gset str) (mcqs : list M) (m : M) :
  m ∈ dedup_filter question seen mcqs -> key m ∉ seen.
Proof.
  revert seen. induction mcqs as [|x l IH]; intros seen; simpl.
  - intros H. inversion H.
  - destruct (decide (key x ∈ seen)) as [Hin|Hout].
    + apply IH.
    + intros [->|H]%elem_of_cons; [done|].
      apply IH in H. set_solver.
Qed.

Lemma dedup_filter_NoDup (seen : gset str) (mcqs : list M) :
  NoDup (key <$> dedup_filter question seen mcqs).
Proof.
  revert seen. induction mcqs as [|x l IH]; intros seen; simpl.
  - constructor.
  - destruct (decide (key x ∈ seen)); [apply IH|].
    rewrite fmap_cons. constructor; [|apply IH].
    intros (m & Hk & Hm)%list_elem_of_fmap.
    apply dedup_filter_fresh in Hm. set_solver.
Qed.


End DeduplicateFacts.


(** * Facts about the strategy loop *)

Lemma fold_try_strategy {M} (strategies : list (unit -> outcome (list M)))
    (mcqs : list M) :
  fold_left try_strategy strategies mcqs
  = mcqs ++ flat_map candidates strategies.
Proof.
  revert mcqs. induction strategies as [|s l IH]; intros mcqs; simpl.
  - by rewrite app_nil_r.
  - rewrite IH. unfold try_strategy, candidates.
    destruct (s ()) as [extracted|e]; simpl.
    + destruct extracted; simpl; [done|]. by rewrite <- app_assoc.
    + done.
Qed.

Lemma run_strategies_candidates {M}
    (strategies : list (unit -> outcome (list M))) :
  run_strategies strategies = flat_map candidates strategies.
Proof. unfold run_strategies. by rewrite fold_try_strategy. Qed.

(** C8. A strategy that throws is caught where it is called and contributes
    no candidate: the loop collects exactly the candidates of the strategies
    that return, in order, whatever the others do; [extractAll] and [parse]
    return the deduplicated collection and never pass the error on. *)
Theorem C8_strategy_failure_is_isolated :
  (forall (M : Type) (before after : list (unit -> outcome (list M)))
          (failing : unit -> outcome (list M)) (e : exn),
     failing () = Thrown e ->
     run_strategies (before ++ failing :: after)
     = flat_map candidates before ++ flat_map candidates after)
  /\ (forall d : DOM.document,
        MCQExtractor.extractAll d
        = Returned (MCQExtractor.deduplicate
                      (flat_map candidates (MCQExtractor.strategies d)))
        /\ forall e : exn,
             MCQExtractor.extractFromRadioButtons d = Thrown e ->
             MCQExtractor.extractAll d
             = Returned (MCQExtractor.deduplicate
                           (MCQExtractor.extractFromLists d
                            ++ MCQExtractor.extractFromDivStructure d
                            ++ MCQExtractor.extractFromTableFormat d
                            ++ MCQExtractor.extractFromCommonPlatforms d)))
  /\ (forall text : str,
        MCQParser.parse text
        = Returned
            (if negb (JS.truthy text) || (length (JS.trim text) =? 0)
             then []
             else MCQParser.deduplicate
                    (flat_map candidates (MCQParser.strategies text)))).
Proof.
  split; [|split].
  - intros M before after failing e He.
    rewrite run_strategies_candidates, flat_map_app. simpl.
    unfold candidates at 2. by rewrite He.
  - intros d. unfold MCQExtractor.extractAll.
    rewrite run_strategies_candidates. split; [done|].
    intros e He. simpl. unfold candidates at 1. rewrite He.
    unfold candidates. simpl. by rewrite app_nil_r.
  - intros text. unfold MCQParser.parse.
    destruct (_ || _); [done|].
    by rewrite run_strategies_candidates.
Qed.

(** On a page whose radio group is called [constructor] the radio strategy
    throws a [TypeError]; the table of the same page is still reported. *)
Lemma C8_witness :
  MCQExtractor.extractFromRadioButtons Examples.throwing_radio_and_table
  = Thrown (TypeError "radioGroups[name].push is not a function")
  /\ MCQExtractor.extractAll Examples.throwing_radio_and_table
     = Returned
         (MCQExtractor.deduplicate
            (MCQExtractor.extractFromLists Examples.throwing_radio_and_table
             ++ MCQExtractor.extractFromDivStructure
                  Examples.throwing_radio_and_table
             ++ MCQExtractor.extractFromTableFormat
                  Examples.throwing_radio_and_table
             ++ MCQExtractor.extractFromCommonPlatforms
                  Examples.throwing_radio_and_table)).
Proof.
  split; [vm_compute; reflexivity|].
  apply (proj2 (proj1 (proj2 C8_strategy_failure_is_isolated)
                  Examples.throwing_radio_and_table)
           (TypeError "radioGroups[name].push is not a function")).
  vm_compute; reflexivity.
Defined.

(** On a page whose radio group is called [constructor] the radio strategy
    throws a [TypeError]; the table of the same page is still reported. *)
Example extractAll_survives_throwing_strategy :
  MCQExtractor.extractFromRadioButtons Examples.throwing_radio_and_table
  = Thrown (TypeError "radioGroups[name].push is not a function")
  /\ MCQExtractor.extractAll Examples.throwing_radio_and_table
     = Returned
         [MCQExtractor.mkMCQ "Largest planet?" [0; 2; 0; 0]
            [mkOption "Jupiter" [0; 2; 0; 1] "Jupiter";
             mkOption "Mars" [0; 2; 0; 2] "Mars"]
            "table" None].
Proof. split; vm_compute; reflexivity. Qed.

(** * Option counts *)

Section OptionCounts.
Import MCQExtractor.

Lemma list_mcq_counted d lst : Forall counted (list_mcq d lst).
Proof.
  unfold list_mcq. destruct (findQuestionBeforeElement d lst); [|constructor].
  destruct (_ && _) eqn:Hlen; [|constructor].
  destruct (existsb _ _); constructor; [|constructor].
  apply andb_true_iff in Hlen as [H2 H6].
  apply Nat.leb_le in H2, H6.
  split; simpl; rewrite length_map; [lia|intros _; lia].
Qed.

Lemma div_mcq_counted d qElem : Forall counted (div_mcq d qElem).
Proof.
  unfold div_mcq. destruct (_ && _) eqn:Hlen; constructor; [|constructor].
  apply andb_true_iff in Hlen as [H2 H6].
  apply Nat.leb_le in H2, H6.
  split; simpl; rewrite length_map; [lia|intros _; lia].
Qed.

Lemma table_mcq_counted d table : Forall counted (table_mcq d table).
Proof.
  unfold table_mcq. destruct (3 <=? _); [|constructor].
  destruct (DOM.querySelectorAll d table sel_tr) as [|firstRow optionRows];
    [constructor|].
  destruct (_ && _) eqn:Hlen; constructor; [|constructor].
  apply andb_true_iff in Hlen as [H2 H6].
  apply Nat.leb_le in H2, H6.
  split; simpl; rewrite length_map; [lia|intros _; lia].
Qed.

Lemma platform_mcq_counted d headingSel optionSel t q :
  checks_upper_bound t = false ->
  Forall counted (platform_mcq d headingSel optionSel t q).
Proof.
  intros Ht. unfold platform_mcq.
  destruct (_ && _) eqn:Hlen; constructor; [|constructor].
  apply andb_true_iff in Hlen as [_ H2]. apply Nat.ltb_lt in H2.
  split; simpl; [rewrite length_map; lia|congruence].
Qed.

Lemma platforms_counted d : Forall counted (extractFromCommonPlatforms d).
Proof.
  unfold extractFromCommonPlatforms, extractFromGoogleForms,
    extractFromQuizlet, extractFromCanvas.
  repeat case_match; try constructor;
    apply Forall_flat_map, Forall_forall; intros q _;
    apply platform_mcq_counted; reflexivity.
Qed.

Lemma radio_group_mcq_counted d mcqs entry mcqs' :
  Forall counted mcqs ->
  radio_group_mcq d mcqs entry = Returned mcqs' ->
  Forall counted mcqs'.
Proof.
  intros Hm. unfold radio_group_mcq. destruct entry as [groupName radios].
  destruct (mapM (radio_option d) radios) as [opts|e]; simpl; [|done].
  destruct (match radios with [] => _ | _ => _ end) as [q|];
    [|intros [= <-]; done].
  destruct (1 <? length opts) eqn:Hlen; intros [= <-]; [|done].
  apply Forall_app; split; [done|]. constructor; [|constructor].
  apply Nat.ltb_lt in Hlen. split; simpl; [lia|discriminate].
Qed.

Lemma foldM_radio_counted d es mcqs mcqs' :
  Forall counted mcqs ->
  foldM (radio_group_mcq d) es mcqs = Returned mcqs' ->
  Forall counted mcqs'.
Proof.
  revert mcqs. induction es as [|e es IH]; intros mcqs Hm; simpl.
  - by intros [= <-].
  - destruct (radio_group_mcq d mcqs e) as [m1|x] eqn:He; simpl; [|done].
    apply IH. eapply radio_group_mcq_counted; eauto.
Qed.

Lemma radio_counted d :
  Forall counted (candidates (fun _ => extractFromRadioButtons d)).
Proof.
  unfold candidates.
  destruct (extractFromRadioButtons d) as [l|e] eqn:He; [|constructor].
  unfold extractFromRadioButtons in He.
  destruct (foldM (group_radio d) _ _) as [g|x]; simpl in He; [|done].
  eapply foldM_radio_counted; [|exact He]. constructor.
Qed.

Lemma extractAll_counted d :
  exists mcqs, extractAll d = Returned mcqs /\ Forall counted mcqs.
Proof.
  eexists; split; [reflexivity|].
  apply Forall_forall. intros m Hm.
  apply elem_of_sublist with (l2 := run_strategies (strategies d)) in Hm;
    [|apply dedup_filter_sublist].
  revert m Hm. apply Forall_forall.
  rewrite run_strategies_candidates.
  apply Forall_flat_map. unfold strategies.
  repeat apply Forall_cons_2; [| | | | |constructor]; unfold candidates.
  - apply radio_counted.
  - apply Forall_flat_map, Forall_forall; intros; apply list_mcq_counted.
  - apply Forall_flat_map, Forall_forall; intros sel _.
    apply Forall_flat_map, Forall_forall; intros; apply div_mcq_counted.
  - apply Forall_flat_map, Forall_forall; intros; apply table_mcq_counted.
  - apply platforms_counted.
Qed.

End OptionCounts.

Section ParserOptionCounts.
Import MCQParser.

Lemma parseQuestionBlock_counted block mcq :
  parseQuestionBlock block = Some mcq ->
  2 <= length (options mcq) <= 6.
Proof.
  unfold parseQuestionBlock.
  destruct (length _ <? 3); [done|].
  destruct (scan_question _ 0 []) as [questionText optionsStartIndex].
  destruct (_ || _); [done|].
  destruct (_ || _) eqn:Hlen; [done|].
  intros [= <-]. simpl.
  apply orb_false_iff in Hlen as [H2 H6].
  apply Nat.ltb_ge in H2, H6. lia.
Qed.

Lemma block_of_match_counted m :
  Forall (fun mcq => 2 <= length (options mcq) <= 6) (block_of_match m).
Proof.
  unfold block_of_match.
  destruct (parseQuestionBlock _) as [mcq|] eqn:Hb; constructor; [|constructor].
  simpl. by apply parseQuestionBlock_counted in Hb.
Qed.

Lemma parse_counted text :
  exists mcqs, parse text = Returned mcqs
    /\ Forall (fun mcq => 2 <= length (options mcq) <= 6) mcqs.
Proof.
  unfold parse. destruct (_ || _); [by eexists|].
  eexists; split; [reflexivity|].
  apply Forall_forall. intros m Hm.
  apply elem_of_sublist with (l2 := run_strategies (strategies text)) in Hm;
    [|apply dedup_filter_sublist].
  revert m Hm. apply Forall_forall.
  rewrite run_strategies_candidates.
  apply Forall_flat_map. unfold strategies.
  repeat apply Forall_cons_2; [| | |constructor]; unfold candidates.
  - apply Forall_flat_map, Forall_forall; intros; apply block_of_match_counted.
  - apply Forall_flat_map, Forall_forall; intros; apply block_of_match_counted.
  - apply Forall_flat_map, Forall_forall; intros block _.
    destruct (looksLikeQuestion block); [|constructor].
    destruct (parseQuestionBlock block) as [mcq|] eqn:Hb; constructor;
      [|constructor].
    by apply parseQuestionBlock_counted in Hb.
Qed.

End ParserOptionCounts.

(** C2, as the code has it.  Every MCQ returned by [MCQExtractor.extractAll]
    has at least two options, and at most six when it comes from the list,
    class-tagged block or table strategy; radio groups and platform
    templates are emitted with any number of options from two on.  Every
    MCQ returned by [MCQParser.parse] has between two and six options. *)
Theorem C2_option_count_bounds :
  (forall d : DOM.document,
     exists mcqs,
       MCQExtractor.extractAll d = Returned mcqs
       /\ Forall (fun m =>
                    2 <= length (MCQExtractor.options m)
                    /\ (checks_upper_bound (MCQExtractor.type m) = true ->
                        length (MCQExtractor.options m) <= 6)) mcqs)
  /\ (forall text : str,
        exists mcqs,
          MCQParser.parse text = Returned mcqs
          /\ Forall (fun m => 2 <= length (MCQParser.options m) <= 6) mcqs).
Proof. split; [apply extractAll_counted|apply parse_counted]. Qed.

(** A radio group of seven buttons is reported with its seven options: the
    upper bound of six does not hold for [extractAll]. *)
Lemma C2_counterexample :
  exists m,
    MCQExtractor.extractAll Examples.seven_radios = Returned [m]
    /\ MCQExtractor.question m = "Which city is the capital?"
    /\ MCQExtractor.type m = "radio"
    /\ length (MCQExtractor.options m) = 7
    /\ ~ (2 <= length (MCQExtractor.options m) <= 6).
Proof.
  eexists. split; [vm_compute; reflexivity|].
  repeat split; simpl; lia.
Qed.

(** * The text parser on the example of the specification *)

(** C9. The five lines "1. What is 2+2?", "A. 2", "B. 3", "C. 4", "D. 5"
    parse to exactly one MCQ with question "What is 2+2?", the options
    "2", "3", "4", "5" in this order, and number 1. *)
Theorem C9_text_block_end_to_end :
  MCQParser.parse
    ("1. What is 2+2?" ++ [MCQParser.nl] ++ "A. 2" ++ [MCQParser.nl]
       ++ "B. 3" ++ [MCQParser.nl] ++ "C. 4" ++ [MCQParser.nl] ++ "D. 5")
  = Returned [MCQParser.mkMCQ "What is 2+2?" ["2"; "3"; "4"; "5"]
                (Some PrimFloat.one)].
Proof. vm_compute. reflexivity. Qed.

(** * Facts about strings and searches *)

Lemma char_eqb_eq a b : JS.char_eqb a b = true <-> a = b.
Proof. apply Ascii.eqb_eq. Qed.

Lemma str_eqb_eq a b : JS.str_eqb a b = true <-> a = b.
Proof.
  revert b. induction a as [|x a IH]; intros [|y b]; simpl; try done.
  rewrite andb_true_iff, char_eqb_eq, IH. split.
  - by intros [-> ->].
  - by intros [= -> ->].
Qed.

Lemma str_eqb_refl a : JS.str_eqb a a = true.
Proof. by apply str_eqb_eq. Qed.

(** [arr.find]-like loops return the first element that passes the test *)
Lemma find_first {A} (p : A -> bool) (l : list A) (x : A) :
  x ∈ l -> p x = true ->
  exists i y,
    l !! i = Some y /\ p y = true
    /\ (forall j z, j < i -> l !! j = Some z -> p z = false)
    /\ List.find p l = Some y.
Proof.
  induction l as [|a l IH]; intros Hin Hp; [by apply elem_of_nil in Hin|].
  simpl. destruct (p a) eqn:Ha.
  - exists 0, a. repeat split; try done. intros j z Hj. lia.
  - apply elem_of_cons in Hin as [->|Hin]; [congruence|].
    destruct (IH Hin Hp) as (i & y & Hi & Hy & Hfirst & Hfind).
    exists (S i), y. repeat split; try done.
    intros [|j] z Hj; simpl; [by intros [= <-]|].
    apply Hfirst. lia.
Qed.

Lemma find_some_elem {A} (p : A -> bool) (l : list A) (x : A) :
  List.find p l = Some x -> x ∈ l /\ p x = true.
Proof.
  induction l as [|a l IH]; simpl; [done|].
  destruct (p a) eqn:Ha.
  - intros [= <-]. split; [by left|done].
  - intros [Hin Hp]%IH. split; [by right|done].
Qed.

(** A pattern that starts with [^] matches at the start of the subject or
    nowhere. *)
Lemma search_anchored r b bef aft :
  Regex.search_from (Regex.Seq Regex.Bol r) (b :: bef) aft = None.
Proof.
  revert b bef. induction aft as [|a aft IH]; intros b bef; simpl; [done|].
  apply IH.
Qed.

Lemma exec_anchored r s :
  Regex.exec (Regex.Seq Regex.Bol r) s =
  match Regex.rx r Regex.accept (Regex.start_of s) ∅ with
  | Some (e, c) =>
      Some (Regex.Match 0 (Regex.captured (Regex.start_of s) e) c e)
  | None => None
  end.
Proof.
  unfold Regex.exec. destruct s as [|a s]; simpl; unfold Regex.match_at; simpl.
  - by destruct (Regex.rx r Regex.accept _ _) as [[e c]|].
  - destruct (Regex.rx r Regex.accept _ _) as [[e c]|]; [done|].
    apply search_anchored.
Qed.

(** * The exact tier *)

(** C1, as the code has it.  When the answer equals the text of some option
    after lower-casing and trimming both, the resolver returns at the exact
    tier the first option of the list whose lower-cased, trimmed text equals
    that of the answer, which is that very option when it is the only one
    with this normalised text; no later tier is consulted. *)
Theorem C1_exact_tier_first_equal_option :
  (forall (options : list PageOption) (answer : str) (o : PageOption),
     o ∈ options ->
     JS.trim (JS.toLowerCase (text o)) = JS.trim (JS.toLowerCase answer) ->
     exists i o',
       options !! i = Some o'
       /\ JS.trim (JS.toLowerCase (text o')) = JS.trim (JS.toLowerCase answer)
       /\ (forall j x, j < i -> options !! j = Some x ->
             JS.trim (JS.toLowerCase (text x)) <> JS.trim (JS.toLowerCase answer))
       /\ Highlighter.resolve options answer = Some (Exact, o')
       /\ Highlighter.findMatchingOption options answer = Some o'
       /\ ((forall j x, options !! j = Some x ->
               JS.trim (JS.toLowerCase (text x)) = JS.trim (JS.toLowerCase answer) ->
               x = o) ->
           o' = o))
  /\
  (forall (options : list str) (answer o : str),
     o ∈ options ->
     JS.trim (JS.toLowerCase o) = JS.trim (JS.toLowerCase answer) ->
     exists i o',
       options !! i = Some o'
       /\ JS.trim (JS.toLowerCase o') = JS.trim (JS.toLowerCase answer)
       /\ (forall j x, j < i -> options !! j = Some x ->
             JS.trim (JS.toLowerCase x) <> JS.trim (JS.toLowerCase answer))
       /\ AIService.resolve answer options = Some (Exact, o')
       /\ AIService._matchAnswerToOption answer options = Some o'
       /\ ((forall j x, options !! j = Some x ->
               JS.trim (JS.toLowerCase x) = JS.trim (JS.toLowerCase answer) ->
               x = o) ->
           o' = o)).
Proof.
  split.
  - intros options answer o Hin Heq.
    destruct (find_first
                (fun option =>
                   JS.str_eqb (Highlighter.clean (text option))
                     (Highlighter.clean answer)) options o Hin)
      as (i & o' & Hi & Ho' & Hfirst & Hfind).
    { by apply str_eqb_eq. }
    exists i, o'. split; [done|]. split; [by apply str_eqb_eq|].
    split.
    { intros j x Hj Hx Hc. apply (Hfirst j x Hj) in Hx.
      unfold Highlighter.clean in Hx. rewrite Hc, str_eqb_refl in Hx. done. }
    unfold Highlighter.findMatchingOption, Highlighter.resolve.
    rewrite Hfind. repeat split; [done..|].
    intros Hunique. apply (Hunique i o' Hi). by apply str_eqb_eq.
  - intros options answer o Hin Heq.
    destruct (find_first
                (fun option =>
                   JS.str_eqb (JS.trim (JS.toLowerCase option))
                     (JS.trim (JS.toLowerCase answer))) options o Hin)
      as (i & o' & Hi & Ho' & Hfirst & Hfind).
    { by apply str_eqb_eq. }
    exists i, o'. split; [done|]. split; [by apply str_eqb_eq|].
    split.
    { intros j x Hj Hx Hc. apply (Hfirst j x Hj) in Hx.
      rewrite Hc, str_eqb_refl in Hx. done. }
    unfold AIService._matchAnswerToOption, AIService.resolve.
    rewrite Hfind. repeat split; [done..|].
    intros Hunique. apply (Hunique i o' Hi). by apply str_eqb_eq.
Qed.

Lemma C1_witness :
  exists i o',
    [page_option 0 "Paris"; page_option 1 "Berlin"] !! i = Some o'
    /\ JS.trim (JS.toLowerCase (text o')) = JS.trim (JS.toLowerCase "  BERLIN ")
    /\ (forall j x, j < i ->
          [page_option 0 "Paris"; page_option 1 "Berlin"] !! j = Some x ->
          JS.trim (JS.toLowerCase (text x)) <> JS.trim (JS.toLowerCase "  BERLIN "))
    /\ Highlighter.resolve [page_option 0 "Paris"; page_option 1 "Berlin"]
         "  BERLIN " = Some (Exact, o')
    /\ Highlighter.findMatchingOption
         [page_option 0 "Paris"; page_option 1 "Berlin"] "  BERLIN "
       = Some o'
    /\ ((forall j x,
           [page_option 0 "Paris"; page_option 1 "Berlin"] !! j = Some x ->
           JS.trim (JS.toLowerCase (text x)) = JS.trim (JS.toLowerCase "  BERLIN ") ->
           x = page_option 1 "Berlin") ->
        o' = page_option 1 "Berlin").
Proof.
  apply (proj1 C1_exact_tier_first_equal_option
           [page_option 0 "Paris"; page_option 1 "Berlin"] "  BERLIN "
           (page_option 1 "Berlin")).
  - apply list_elem_of_lookup_2 with 1. reflexivity.
  - vm_compute. reflexivity.
Defined.

(** The answer "PARIS" equals the second option exactly, yet the first
    option, "Paris", is returned: the option that is returned need not be
    the one the answer equals.  And white space inside the text is compared
    as it stands: the answer "New  York", which differs from the option
    "New York" by a doubled blank only, is not resolved at the exact tier;
    the page resolver reaches the option at the fuzzy tier, the service
    finds no option. *)
Lemma C1_counterexample :
  ("PARIS" ∈ ["Paris"; "PARIS"]
   /\ AIService._matchAnswerToOption "PARIS" ["Paris"; "PARIS"] = Some "Paris"
   /\ "Paris" <> "PARIS"
   /\ page_option 1 "PARIS" ∈ [page_option 0 "Paris"; page_option 1 "PARIS"]
   /\ Highlighter.findMatchingOption
        [page_option 0 "Paris"; page_option 1 "PARIS"] "PARIS"
      = Some (page_option 0 "Paris")
   /\ page_option 0 "Paris" <> page_option 1 "PARIS")
  /\
  (filter (fun c => negb (JS.is_space c)) (JS.toLowerCase "New  York")
   = filter (fun c => negb (JS.is_space c)) (JS.toLowerCase "New York")
   /\ Highlighter.resolve [page_option 0 "Paris"; page_option 1 "New York"]
        "New  York"
      = Some (Fuzzy, page_option 1 "New York")
   /\ Fuzzy <> Exact
   /\ AIService.resolve "New  York" ["Paris"; "New York"] = None
   /\ AIService._matchAnswerToOption "New  York" ["Paris"; "New York"] = None).
Proof.
  split; repeat split; try (vm_compute; reflexivity); try discriminate.
  - apply list_elem_of_lookup_2 with 1. reflexivity.
  - apply list_elem_of_lookup_2 with 1. reflexivity.
Qed.

(** * The letter tier *)

Lemma letter_number_range c :
  Highlighter.letter_A_D c = true ->
  (Z.of_nat (JS.code (JS.upper_char c)) - 65)%Z = Z.of_nat (letter_number c)
  /\ letter_number c < 4.
Proof.
  destruct c as [[] [] [] [] [] [] [] []]; try discriminate;
    intros _; vm_compute; split; (reflexivity || lia).
Qed.

Lemma option_at_lookup {A} (options : list A) (n : nat) :
  Highlighter.option_at options (Z.of_nat n) = options !! n.
Proof.
  unfold Highlighter.option_at.
  destruct (decide (n < length options)) as [Hlt|Hge].
  - replace (0 <=? Z.of_nat n)%Z with true by (symmetry; apply Z.leb_le; lia).
    replace (Z.of_nat n <? Z.of_nat (length options))%Z with true
      by (symmetry; apply Z.ltb_lt; lia).
    simpl. by rewrite Nat2Z.id.
  - replace (Z.of_nat n <? Z.of_nat (length options))%Z with false
      by (symmetry; apply Z.ltb_ge; lia).
    rewrite andb_false_r. symmetry. apply lookup_ge_None. lia.
Qed.

(** the pattern [/^([A-D])[.\):\s]/i] on an answer that starts with one of
    the letters followed by one of the separators *)
Lemma letterPattern_match c sep rest :
  Highlighter.letter_A_D c = true ->
  Highlighter.marker_end sep = true ->
  exists m,
    Regex.exec Highlighter.letterPattern (c :: sep :: rest) = Some m
    /\ Regex.group m 1 = [c].
Proof.
  intros Hc Hsep. eexists. split.
  - unfold Regex.exec, Highlighter.letterPattern. cbn.
    unfold Regex.match_at. cbn. rewrite Hc. cbn. rewrite Hsep. cbn.
    reflexivity.
  - unfold Regex.group. cbn. rewrite lookup_insert_eq. cbn.
    replace (S (length rest) - length rest) with 1 by lia. reflexivity.
Qed.

Lemma find_none {A} (p : A -> bool) (l : list A) :
  (forall x, x ∈ l -> p x = false) -> List.find p l = None.
Proof.
  induction l as [|a l IH]; intros H; simpl; [done|].
  rewrite (H a) by (by left). apply IH. intros x Hx. apply H. by right.
Qed.

(** the pattern [/^([A-D])[.\):\s]/i] matches such answers only *)
Lemma letterPattern_inv answer m :
  Regex.exec Highlighter.letterPattern answer = Some m ->
  exists c sep rest,
    answer = c :: sep :: rest
    /\ Highlighter.letter_A_D c = true
    /\ Highlighter.marker_end sep = true
    /\ Regex.group m 1 = [c].
Proof.
  unfold Highlighter.letterPattern. rewrite exec_anchored.
  destruct answer as [|c [|sep rest]]; cbn.
  - done.
  - by destruct (Highlighter.letter_A_D c).
  - destruct (Highlighter.letter_A_D c) eqn:Hc; [|done]. cbn.
    destruct (Highlighter.marker_end sep) eqn:Hsep; [|done]. cbn.
    intros [= <-]. exists c, sep, rest. repeat split; try done.
    unfold Regex.group. cbn. rewrite lookup_insert_eq. cbn.
    replace (S (length rest) - length rest) with 1 by lia. reflexivity.
Qed.

(** the letters of the tier, spelled out *)
Lemma letter_A_D_cases c :
  Highlighter.letter_A_D c = true ->
  exists n, n < 4 /\ letter_number c = n
    /\ (c = ascii_of_nat (65 + n) \/ c = ascii_of_nat (97 + n)).
Proof.
  destruct c as [[] [] [] [] [] [] [] []]; try discriminate; intros _;
    (eexists; split; [|split; [reflexivity|]];
       [vm_compute; lia | vm_compute; ((by left) || (by right))]).
Qed.

Lemma marker_end_cases sep :
  Highlighter.marker_end sep = true ->
  sep = "."%char \/ sep = ")"%char \/ sep = ":"%char \/ JS.is_space sep = true.
Proof.
  unfold Highlighter.marker_end, Highlighter.one_of. cbn [existsb].
  rewrite !orb_true_iff, !char_eqb_eq. intuition discriminate.
Qed.

Lemma letter_of_number (n : nat) (c : ascii) :
  n < 4 ->
  c = ascii_of_nat (65 + n) \/ c = ascii_of_nat (97 + n) ->
  Highlighter.letter_A_D c = true /\ letter_number c = n.
Proof.
  intros Hn Hc.
  destruct n as [|[|[|[|n]]]]; [| | | |lia];
    destruct Hc as [-> | ->]; vm_compute; done.
Qed.

Lemma separator_marker_end (sep : ascii) :
  sep = "."%char \/ sep = ")"%char \/ sep = ":"%char \/ JS.is_space sep = true ->
  Highlighter.marker_end sep = true.
Proof.
  unfold Highlighter.marker_end.
  intros [-> | [-> | [-> | H]]]; try (vm_compute; reflexivity).
  rewrite H. apply orb_true_r.
Qed.

(** an answer that the letter step maps to an option *)
Lemma letter_step_inv {A} (options : list A) (answer : str) (o : A) :
  (Regex.exec Highlighter.letterPattern answer
     ≫= fun m => Highlighter.option_at options (Highlighter.letter_index m))
  = Some o ->
  exists n sep rest,
    n < 4
    /\ (answer = ascii_of_nat (65 + n) :: sep :: rest
        \/ answer = ascii_of_nat (97 + n) :: sep :: rest)
    /\ (sep = "."%char \/ sep = ")"%char \/ sep = ":"%char
        \/ JS.is_space sep = true)
    /\ options !! n = Some o.
Proof.
  destruct (Regex.exec _ answer) as [m|] eqn:Hm; [|done]. simpl.
  destruct (letterPattern_inv answer m Hm) as (c & sep & rest & -> & Hc & Hsep & Hg).
  unfold Highlighter.letter_index. rewrite Hg. simpl.
  destruct (letter_number_range c Hc) as [-> _].
  rewrite option_at_lookup. intros Ho.
  destruct (letter_A_D_cases c Hc) as (n & Hn & Hnum & Hcase).
  exists n, sep, rest. split; [done|]. split.
  { destruct Hcase as [Hc1|Hc1]; [left|right];
      exact (f_equal (fun x => x :: sep :: rest) Hc1). }
  split; [by apply marker_end_cases|]. by rewrite <- Hnum.
Qed.

(** C5, as the code has it.  The letter tier reads the letters A to D, in
    either case, followed by '.', ')', ':' or white space: for an answer of
    this shape on which the exact and substring tiers find no option, the
    resolver returns, at the letter tier, the option at the zero-based
    position of the letter ('A' gives 0) when the list is that long.  No
    other answer is resolved at the letter tier: an answer that is, starts
    with one of the eight letters 'A' to 'D', 'a' to 'd', followed by one
    of these separators, and its option stands at the position of the
    letter.  For the options "Paris", "Berlin", "Rome" and the answer
    "B) Berlin" the resolver returns "Berlin", found by the substring
    tier. *)
Theorem C5_letter_tier_A_to_D :
  (forall (options : list PageOption) (n : nat) (c sep : ascii) (rest : str)
          (o : PageOption),
     n < 4 ->
     c = ascii_of_nat (65 + n) \/ c = ascii_of_nat (97 + n) ->
     sep = "."%char \/ sep = ")"%char \/ sep = ":"%char
       \/ JS.is_space sep = true ->
     (forall x, x ∈ options ->
        JS.trim (JS.toLowerCase (text x))
          <> JS.trim (JS.toLowerCase (c :: sep :: rest))
        /\ JS.includes (JS.trim (JS.toLowerCase (text x)))
             (JS.trim (JS.toLowerCase (c :: sep :: rest))) = false
        /\ JS.includes (JS.trim (JS.toLowerCase (c :: sep :: rest)))
             (JS.trim (JS.toLowerCase (text x))) = false) ->
     options !! n = Some o ->
     Highlighter.resolve options (c :: sep :: rest) = Some (Letter, o))
  /\
  (forall (options : list str) (n : nat) (c sep : ascii) (rest : str)
          (o : str),
     n < 4 ->
     c = ascii_of_nat (65 + n) \/ c = ascii_of_nat (97 + n) ->
     sep = "."%char \/ sep = ")"%char \/ sep = ":"%char
       \/ JS.is_space sep = true ->
     (forall x, x ∈ options ->
        JS.trim (JS.toLowerCase x) <> JS.trim (JS.toLowerCase (c :: sep :: rest))
        /\ JS.includes (JS.trim (JS.toLowerCase x))
             (JS.trim (JS.toLowerCase (c :: sep :: rest))) = false
        /\ JS.includes (JS.trim (JS.toLowerCase (c :: sep :: rest)))
             (JS.trim (JS.toLowerCase x)) = false) ->
     options !! n = Some o ->
     AIService.resolve (c :: sep :: rest) options = Some (Letter, o))
  /\
  (forall (options : list PageOption) (answer : str) (o : PageOption),
     Highlighter.resolve options answer = Some (Letter, o) ->
     exists n sep rest,
       n < 4
       /\ (answer = ascii_of_nat (65 + n) :: sep :: rest
           \/ answer = ascii_of_nat (97 + n) :: sep :: rest)
       /\ (sep = "."%char \/ sep = ")"%char \/ sep = ":"%char
           \/ JS.is_space sep = true)
       /\ options !! n = Some o)
  /\
  (forall (options : list str) (answer : str) (o : str),
     AIService.resolve answer options = Some (Letter, o) ->
     exists n sep rest,
       n < 4
       /\ (answer = ascii_of_nat (65 + n) :: sep :: rest
           \/ answer = ascii_of_nat (97 + n) :: sep :: rest)
       /\ (sep = "."%char \/ sep = ")"%char \/ sep = ":"%char
           \/ JS.is_space sep = true)
       /\ options !! n = Some o)
  /\ Highlighter.resolve
       [page_option 0 "Paris"; page_option 1 "Berlin"; page_option 2 "Rome"]
       "B) Berlin"
     = Some (Substring, page_option 1 "Berlin")
  /\ AIService.resolve "B) Berlin" ["Paris"; "Berlin"; "Rome"]
     = Some (Substring, "Berlin").
Proof.
  split; [|split; [|split; [|split; [|split; vm_compute; reflexivity]]]].
  - intros options n c sep rest o Hn Hletter Hsep%separator_marker_end Hnone Ho.
    destruct (letter_of_number n c Hn Hletter) as [Hc Hnum].
    rewrite <- Hnum in Ho.
    unfold Highlighter.resolve.
    rewrite find_none.
    2:{ intros x Hx. destruct (Hnone x Hx) as (Hne & _ & _).
        destruct (JS.str_eqb _ _) eqn:E; [|done]. by apply str_eqb_eq in E. }
    rewrite find_none.
    2:{ intros x Hx. destruct (Hnone x Hx) as (_ & H1 & H2).
        unfold Highlighter.clean. by rewrite H1, H2. }
    destruct (letterPattern_match c sep rest Hc Hsep) as (m & Hm & Hg).
    rewrite Hm. simpl. unfold Highlighter.letter_index. rewrite Hg. simpl.
    destruct (letter_number_range c Hc) as [-> _].
    by rewrite option_at_lookup, Ho.
  - intros options n c sep rest o Hn Hletter Hsep%separator_marker_end Hnone Ho.
    destruct (letter_of_number n c Hn Hletter) as [Hc Hnum].
    rewrite <- Hnum in Ho.
    unfold AIService.resolve.
    rewrite find_none.
    2:{ intros x Hx. destruct (Hnone x Hx) as (Hne & _ & _).
        destruct (JS.str_eqb _ _) eqn:E; [|done]. by apply str_eqb_eq in E. }
    rewrite find_none.
    2:{ intros x Hx. by destruct (Hnone x Hx) as (_ & _ & H2). }
    rewrite find_none.
    2:{ intros x Hx. by destruct (Hnone x Hx) as (_ & H1 & _). }
    destruct (letterPattern_match c sep rest Hc Hsep) as (m & Hm & Hg).
    change AIService.letterPattern with Highlighter.letterPattern.
    rewrite Hm. simpl. unfold AIService.letter_index. rewrite Hg. simpl.
    destruct (letter_number_range c Hc) as [-> _].
    change (@AIService.option_at) with (@Highlighter.option_at).
    by rewrite option_at_lookup, Ho.
  - intros options answer o. unfold Highlighter.resolve.
    destruct (List.find _ options); [done|].
    destruct (List.find _ options); [done|].
    destruct (_ ≫= _) as [x|] eqn:Hstep.
    + intros [= <-]. by apply letter_step_inv.
    + by destruct (Highlighter.fuzzy_accept _ _).
  - intros options answer o. unfold AIService.resolve.
    destruct (List.find _ options); [done|].
    destruct (List.find _ options); [done|].
    destruct (List.find _ options); [done|].
    destruct (_ ≫= _) as [x|] eqn:Hstep; [|done].
    intros [= <-]. by apply (letter_step_inv options answer).
Qed.

Lemma C5_witness :
  Highlighter.resolve
    [page_option 0 "x"; page_option 1 "y"; page_option 2 "z"] "b) q"
  = Some (Letter, page_option 1 "y").
Proof.
  apply (proj1 C5_letter_tier_A_to_D
           [page_option 0 "x"; page_option 1 "y"; page_option 2 "z"]
           1 "b"%char ")"%char " q" (page_option 1 "y")).
  - lia.
  - right. reflexivity.
  - right. left. reflexivity.
  - intros x Hx.
    repeat (apply elem_of_cons in Hx as [->|Hx];
            [vm_compute; repeat split; discriminate|]).
    by apply elem_of_nil in Hx.
  - vm_compute. reflexivity.
Defined.

(** The answer "B) Berlin" is resolved by the substring tier, not by the
    letter tier; and a letter beyond D is not mapped at all: with five
    options, "E) none" finds no option although position 4 exists. *)
Lemma C5_counterexample :
  Highlighter.resolve
    [page_option 0 "Paris"; page_option 1 "Berlin"; page_option 2 "Rome"]
    "B) Berlin"
  = Some (Substring, page_option 1 "Berlin")
  /\ Substring <> Letter
  /\ Regex.test (MCQParser.opt_letter) "E) none" = true
  /\ [page_option 0 "v"; page_option 1 "w"; page_option 2 "x";
      page_option 3 "y"; page_option 4 "z"] !! letter_number "E"
     = Some (page_option 4 "z")
  /\ Highlighter.resolve
       [page_option 0 "v"; page_option 1 "w"; page_option 2 "x";
        page_option 3 "y"; page_option 4 "z"] "E) none" = None
  /\ AIService.resolve "E) none" ["v"; "w"; "x"; "y"; "z"] = None.
Proof. repeat split; try (vm_compute; reflexivity); discriminate. Qed.

(** * The empty option list *)

Lemma option_at_nil {A} (index : Z) : Highlighter.option_at (@nil A) index = None.
Proof.
  unfold Highlighter.option_at.
  destruct (0 <=? index)%Z eqn:H0; [|done].
  destruct (index <? Z.of_nat (length (@nil A)))%Z eqn:H1; [|done].
  apply Z.leb_le in H0. apply Z.ltb_lt in H1. simpl in H1. lia.
Qed.

(** C7, as the code has it.  On an empty option list both resolvers return
    the no-match value ([null]) and raise nothing; the loud failure is that
    of the service entry point [answerMCQ], which throws "Invalid question
    or options" for an empty option list before the model is asked. *)
Theorem C7_empty_option_list :
  (forall answer : str,
     Highlighter.resolve [] answer = None
     /\ Highlighter.findMatchingOption [] answer = None
     /\ AIService.resolve answer [] = None
     /\ AIService._matchAnswerToOption answer [] = None)
  /\ (forall p respond parseAIResponse question,
        AIService.answerMCQ p respond parseAIResponse question []
        = Thrown (Error "Invalid question or options")).
Proof.
  split.
  - intros answer.
    assert (Highlighter.resolve [] answer = None) as H1.
    { unfold Highlighter.resolve. simpl.
      destruct (Regex.exec _ answer); simpl; [|done].
      by rewrite option_at_nil. }
    assert (AIService.resolve answer [] = None) as H2.
    { unfold AIService.resolve. simpl.
      destruct (Regex.exec _ answer); simpl; [|done].
      change (@AIService.option_at) with (@Highlighter.option_at).
      by rewrite option_at_nil. }
    unfold Highlighter.findMatchingOption, AIService._matchAnswerToOption.
    by rewrite H1, H2.
  - intros p respond parseAIResponse question.
    unfold AIService.answerMCQ. simpl. by rewrite orb_true_r.
Qed.

(** Called with no options, the resolvers quietly return the no-match
    value. *)
Lemma C7_counterexample :
  Highlighter.findMatchingOption [] "Paris" = None
  /\ AIService._matchAnswerToOption "Paris" [] = None.
Proof. split; vm_compute; reflexivity. Qed.

(** * The fallback parser *)

Lemma option_at_elem {A} (options : list A) (index : Z) (o : A) :
  AIService.option_at options index = Some o -> o ∈ options.
Proof.
  unfold AIService.option_at. destruct (_ && _); [|done].
  intros H. by apply list_elem_of_lookup_2 in H.
Qed.

(** C10. For a non-empty list of options [_fallbackParse] returns, for every
    response text, an answer that is one of the options, with confidence 50
    (letter found), 40 (option text found in the response) or 20; when
    neither a letter in range nor an option text is found the answer is the
    first option, with confidence 20.  The function is total: it raises
    nothing and has no no-match outcome. *)
Theorem C10_fallback_parse_total :
  forall (text : str) (options : list str),
    options <> [] ->
    let r := AIService._fallbackParse text options in
    (exists o, AIService.answer r = Some o /\ o ∈ options)
    /\ (AIService.confidence r = 50 \/ AIService.confidence r = 40
        \/ AIService.confidence r = 20)
    /\ ((Regex.exec AIService.letterAnywhere text
           ≫= fun m => AIService.option_at options (AIService.letter_index m))
        = None ->
        (forall o, o ∈ options ->
           JS.includes (JS.toLowerCase text) (JS.toLowerCase o) = false) ->
        AIService.answer r = head options /\ AIService.confidence r = 20).
Proof.
  intros text options Hne r. subst r. unfold AIService._fallbackParse.
  destruct (Regex.exec _ text ≫= _) as [o|] eqn:Hletter.
  - simpl. split; [|split; [by left|done]].
    exists o. split; [done|].
    destruct (Regex.exec _ text) as [m|]; simpl in Hletter; [|done].
    by apply option_at_elem in Hletter.
  - destruct (List.find _ options) as [o|] eqn:Hfind.
    + simpl. split; [|split; [by right; left|]].
      * exists o. split; [done|]. by apply find_some_elem in Hfind as [? _].
      * intros _ Hnone. apply find_some_elem in Hfind as [Hin Ho].
        rewrite (Hnone o Hin) in Ho. done.
    + simpl. destruct options as [|o0 rest]; [done|]. simpl.
      split; [|split; [by right; right|done]].
      exists o0. split; [done|]. by left.
Qed.

Lemma C10_witness :
  let r := AIService._fallbackParse "no idea" ["Paris"; "Berlin"] in
  (exists o, AIService.answer r = Some o /\ o ∈ ["Paris"; "Berlin"])
  /\ (AIService.confidence r = 50 \/ AIService.confidence r = 40
      \/ AIService.confidence r = 20)
  /\ ((Regex.exec AIService.letterAnywhere "no idea"
         ≫= fun m => AIService.option_at ["Paris"; "Berlin"]
                       (AIService.letter_index m))
      = None ->
      (forall o, o ∈ ["Paris"; "Berlin"] ->
         JS.includes (JS.toLowerCase "no idea") (JS.toLowerCase o) = false) ->
      AIService.answer r = head ["Paris"; "Berlin"]
      /\ AIService.confidence r = 20).
Proof.
  apply (C10_fallback_parse_total "no idea" ["Paris"; "Berlin"]).
  discriminate.
Defined.

(** * Facts about the matcher *)

Section MatcherFacts.
Import JS Regex.

Lemma rx_star greedy r1 k s c :
  rx (Star greedy r1) k s c
  = star_loop greedy r1 k (S (length (after s))) s c.
Proof. reflexivity. Qed.

Lemma skip_length p s : length (Marker.skip p s) <= length s.
Proof.
  induction s as [|a s IH]; simpl; [lia|]. destruct (p a); simpl; lia.
Qed.

Lemma after_run_cons_true p bef a aft :
  p a = true -> after_run p bef (a :: aft) = after_run p (a :: bef) aft.
Proof.
  intros Ha. unfold after_run. simpl. rewrite Ha.
  pose proof (skip_length p aft).
  replace (S (length aft) - length (Marker.skip p aft))
    with (S (length aft - length (Marker.skip p aft))) by lia.
  simpl. by rewrite <- app_assoc.
Qed.

Lemma after_run_stop p bef aft :
  match aft with a :: _ => p a = false | [] => True end ->
  after_run p bef aft = Pos bef aft.
Proof.
  intros H. unfold after_run. destruct aft as [|a aft]; simpl; [done|].
  rewrite H. simpl. by rewrite Nat.sub_diag.
Qed.

(** A greedy run of one class takes the longest run whenever the rest of
    the pattern succeeds after it. *)
Lemma star_class_longest p k fuel bef aft c x :
  length aft < fuel ->
  k (after_run p bef aft) c = Some x ->
  star_loop true (Chr p) k fuel (Pos bef aft) c = Some x.
Proof.
  revert fuel bef. induction aft as [|a aft IH]; intros fuel bef Hf Hk.
  - destruct fuel; [simpl in Hf; lia|]. simpl.
    by rewrite after_run_stop in Hk.
  - destruct fuel as [|fuel]; [simpl in Hf; lia|]. simpl in *.
    destruct (p a) eqn:Ha.
    + rewrite after_run_cons_true in Hk by done.
      replace (length aft <? S (length aft)) with true
        by (symmetry; apply Nat.ltb_lt; lia).
      rewrite (IH fuel (a :: bef)); [done|lia|done].
    + simpl. by rewrite after_run_stop in Hk by done.
Qed.

(** ... and fails when the rest of the pattern fails after the longest run
    and cannot start with a code unit of the class. *)
Lemma star_class_fails p k fuel bef aft c :
  length aft < fuel ->
  (forall bef' a aft' c', p a = true -> k (Pos bef' (a :: aft')) c' = None) ->
  k (after_run p bef aft) c = None ->
  star_loop true (Chr p) k fuel (Pos bef aft) c = None.
Proof.
  revert fuel bef. induction aft as [|a aft IH]; intros fuel bef Hf Hp Hk.
  - destruct fuel; [simpl in Hf; lia|]. simpl.
    by rewrite after_run_stop in Hk.
  - destruct fuel as [|fuel]; [simpl in Hf; lia|]. simpl in *.
    destruct (p a) eqn:Ha.
    + rewrite after_run_cons_true in Hk by done.
      replace (length aft <? S (length aft)) with true
        by (symmetry; apply Nat.ltb_lt; lia).
      rewrite (IH fuel (a :: bef)); [|lia|done|done].
      simpl. by apply Hp.
    + simpl. by rewrite after_run_stop in Hk by done.
Qed.

Lemma remove_first_anchored r s :
  remove_first (Seq Bol r) s =
  match rx r accept (start_of s) ∅ with
  | Some (e, _) => after e
  | None => s
  end.
Proof.
  unfold remove_first. rewrite exec_anchored.
  by destruct (rx r accept _ _) as [[e c]|].
Qed.

End MatcherFacts.

(** * What the option cleaners remove *)

Section Cleaners.
Import JS Regex.

Lemma rx_seq r1 r2 k s c : rx (Seq r1 r2) k s c = rx r1 (rx r2 k) s c.
Proof. reflexivity. Qed.

Lemma rx_class_cons p k bef a aft c :
  rx (Chr p) k (Pos bef (a :: aft)) c
  = if p a then k (Pos (a :: bef) aft) c else None.
Proof. reflexivity. Qed.

Lemma rx_class_nil p k bef c : rx (Chr p) k (Pos bef []) c = None.
Proof. reflexivity. Qed.

Ltac rx_steps :=
  repeat first [rewrite rx_seq | rewrite rx_class_cons | rewrite rx_class_nil].

Lemma run_after_class p bef aft :
  rx (Star true (Chr p)) accept (Pos bef aft) ∅
  = Some (after_run p bef aft, ∅).
Proof.
  rewrite rx_star. apply star_class_longest; [simpl; lia|done].
Qed.

Lemma remove_letter_marker s :
  remove_first MCQParser.strip_letter s = Marker.drop_letter s.
Proof.
  unfold MCQParser.strip_letter. cbn [MCQParser.Seqs].
  rewrite remove_first_anchored. unfold Plus, start_of, Marker.drop_letter.
  destruct s as [|c [|sep rest]]; rx_steps.
  - done.
  - by destruct (is_letter c).
  - rewrite run_after_class.
    change (MCQParser.marker_end) with (Marker.marker_end).
    destruct (is_letter c), (Marker.marker_end sep); done.
Qed.

(** [\d+] followed by a pattern that cannot start with a digit *)
Lemma digits_then k bef aft :
  (forall bef' a aft' c',
     is_digit a = true -> k (Pos bef' (a :: aft')) c' = None) ->
  rx MCQParser.digits k (Pos bef aft) ∅
  = match aft with
    | a :: aft' =>
        if is_digit a then k (after_run is_digit (a :: bef) aft') ∅ else None
    | [] => None
    end.
Proof.
  intros Hk. unfold MCQParser.digits, Plus. rewrite rx_seq.
  destruct aft as [|a aft']; [by rewrite rx_class_nil|].
  rewrite rx_class_cons. destruct (is_digit a); [|done].
  rewrite rx_star.
  destruct (k (after_run is_digit (a :: bef) aft') ∅) eqn:Hend.
  - apply star_class_longest; [simpl; lia|done].
  - apply star_class_fails; [simpl; lia|done|done].
Qed.

Lemma digit_not_marker_end a :
  is_digit a = true -> MCQParser.marker_end a = false.
Proof. destruct a as [[] [] [] [] [] [] [] []]; by vm_compute. Qed.

Lemma digit_not_close a : is_digit a = true -> char_eqb ")" a = false.
Proof. destruct a as [[] [] [] [] [] [] [] []]; by vm_compute. Qed.

Lemma skip_cons_true p a s :
  p a = true -> Marker.skip p (a :: s) = Marker.skip p s.
Proof. intros H. simpl. by rewrite H. Qed.

Lemma remove_number_marker s :
  remove_first MCQParser.strip_number s = Marker.drop_number s.
Proof.
  unfold MCQParser.strip_number. cbn [MCQParser.Seqs].
  rewrite remove_first_anchored. unfold Plus at 1, start_of.
  rewrite rx_seq, digits_then.
  2:{ intros bef' a aft' c' Ha. rx_steps.
      by rewrite digit_not_marker_end. }
  unfold Marker.drop_number.
  destruct s as [|a s]; [done|].
  destruct (is_digit a) eqn:Ha; [|done].
  rewrite skip_cons_true by done.
  unfold after_run at 1.
  destruct (Marker.skip is_digit s) as [|sep rest].
  - by rx_steps.
  - rx_steps. rewrite run_after_class.
    change (MCQParser.marker_end) with (Marker.marker_end).
    by destruct (Marker.marker_end sep).
Qed.

Lemma remove_paren_letter_marker s :
  remove_first MCQParser.strip_paren_letter s = Marker.drop_paren_letter s.
Proof.
  unfold MCQParser.strip_paren_letter. cbn [MCQParser.Seqs].
  rewrite remove_first_anchored. unfold Lit, start_of, Marker.drop_paren_letter.
  destruct s as [|open [|c [|close rest]]]; rx_steps.
  - done.
  - by destruct (char_eqb "(" open).
  - by destruct (char_eqb "(" open), (is_letter c).
  - rewrite run_after_class.
    by destruct (char_eqb "(" open), (is_letter c), (char_eqb ")" close).
Qed.

Lemma remove_paren_number_marker s :
  remove_first MCQParser.strip_paren_number s = Marker.drop_paren_number s.
Proof.
  unfold MCQParser.strip_paren_number. cbn [MCQParser.Seqs].
  rewrite remove_first_anchored. unfold Lit, start_of, Marker.drop_paren_number.
  rewrite rx_seq.
  destruct s as [|open s]; [by rewrite rx_class_nil|].
  rewrite rx_class_cons.
  destruct (char_eqb "(" open); cbn [andb].
  2:{ by destruct s. }
  rewrite rx_seq, digits_then.
  2:{ intros bef' a aft' c' Ha. rx_steps. by rewrite digit_not_close. }
  destruct s as [|c rest]; [done|].
  destruct (is_digit c); [|done].
  unfold after_run at 1.
  destruct (Marker.skip is_digit rest) as [|close rest'].
  - by rx_steps.
  - rx_steps. rewrite run_after_class.
    by destruct (char_eqb ")" close).
Qed.

Lemma test_anchored r s :
  test (Seq Bol r) s = bool_decide (is_Some (rx r accept (start_of s) ∅)).
Proof.
  unfold test. rewrite exec_anchored.
  by destruct (rx r accept _ _) as [[e c]|].
Qed.

Lemma no_letter_marker s :
  test MCQParser.opt_letter s = false -> Marker.drop_letter s = s.
Proof.
  unfold MCQParser.opt_letter. cbn [MCQParser.Seqs].
  rewrite test_anchored. unfold start_of, Marker.drop_letter.
  destruct s as [|c [|sep rest]]; [done..|]. rx_steps.
  change (MCQParser.marker_end) with (Marker.marker_end).
  by destruct (is_letter c), (Marker.marker_end sep).
Qed.

Lemma no_number_marker s :
  test MCQParser.opt_number s = false -> Marker.drop_number s = s.
Proof.
  unfold MCQParser.opt_number. cbn [MCQParser.Seqs].
  rewrite test_anchored. unfold start_of, Marker.drop_number.
  rewrite rx_seq, digits_then.
  2:{ intros bef' a aft' c' Ha. rx_steps.
      by rewrite digit_not_marker_end. }
  destruct s as [|a s]; [done|].
  destruct (is_digit a) eqn:Ha; [|done].
  rewrite skip_cons_true by done. unfold after_run.
  destruct (Marker.skip is_digit s) as [|sep rest]; [done|]. rx_steps.
  change (MCQParser.marker_end) with (Marker.marker_end).
  by destruct (Marker.marker_end sep).
Qed.

Lemma no_paren_letter_marker s :
  test MCQParser.opt_paren_letter s = false -> Marker.drop_paren_letter s = s.
Proof.
  unfold MCQParser.opt_paren_letter. cbn [MCQParser.Seqs].
  rewrite test_anchored. unfold Lit, start_of, Marker.drop_paren_letter.
  destruct s as [|open [|c [|close rest]]]; [done..|]. rx_steps.
  by destruct (char_eqb "(" open), (is_letter c), (char_eqb ")" close).
Qed.

Lemma no_paren_number_marker s :
  test MCQParser.opt_paren_number s = false ->
  Marker.drop_paren_number s = s.
Proof.
  unfold MCQParser.opt_paren_number. cbn [MCQParser.Seqs].
  rewrite test_anchored. unfold Lit, start_of, Marker.drop_paren_number.
  rewrite rx_seq.
  destruct s as [|open s]; [done|].
  rewrite rx_class_cons.
  destruct (char_eqb "(" open); cbn [andb].
  2:{ by destruct s. }
  rewrite rx_seq, digits_then.
  2:{ intros bef' a aft' c' Ha. rx_steps. by rewrite digit_not_close. }
  destruct s as [|c rest]; [done|].
  destruct (is_digit c); [|done].
  unfold after_run.
  destruct (Marker.skip is_digit rest) as [|close rest']; [done|]. rx_steps.
  by destruct (char_eqb ")" close).
Qed.

End Cleaners.

(** C6, as the code has it.  [cleanOption] applies four removals in a fixed
    order, each at most once, each at the start of what the previous one
    left: a letter with the run of '.', ')', ':' and white space after it; a
    digit sequence with such a run; a letter in parentheses with the white
    space after it; a digit sequence in parentheses with the white space
    after it; the result is trimmed.  Up to four markers, one of each kind
    in this order, are removed.  [cleanOptionText] applies the first two
    only.  When the line does not look like an option nothing is removed and
    the line is returned trimmed. *)
Theorem C6_marker_removal :
  (forall line : str,
     MCQParser.cleanOption line
     = JS.trim (Marker.drop_paren_number
                  (Marker.drop_paren_letter
                     (Marker.drop_number (Marker.drop_letter line)))))
  /\ (forall text : str,
        MCQExtractor.cleanOptionText text
        = JS.trim (Marker.drop_number (Marker.drop_letter text)))
  /\ (forall line : str,
        MCQParser.looksLikeOption line = false ->
        MCQParser.cleanOption line = JS.trim line
        /\ MCQExtractor.cleanOptionText line = JS.trim line).
Proof.
  assert (forall line : str,
            MCQParser.cleanOption line
            = JS.trim (Marker.drop_paren_number
                         (Marker.drop_paren_letter
                            (Marker.drop_number (Marker.drop_letter line)))))
    as Hclean.
  { intros line. unfold MCQParser.cleanOption.
    by rewrite remove_letter_marker, remove_number_marker,
      remove_paren_letter_marker, remove_paren_number_marker. }
  assert (forall text : str,
            MCQExtractor.cleanOptionText text
            = JS.trim (Marker.drop_number (Marker.drop_letter text)))
    as Htext.
  { intros text. unfold MCQExtractor.cleanOptionText.
    change MCQExtractor.strip_letter with MCQParser.strip_letter.
    change MCQExtractor.strip_number with MCQParser.strip_number.
    by rewrite remove_letter_marker, remove_number_marker. }
  split; [done|split; [done|]].
  intros line Hno. rewrite Hclean, Htext.
  unfold MCQParser.looksLikeOption in Hno.
  destruct line as [|a line]; [done|].
  cbn [JS.truthy andb existsb] in Hno.
  rewrite !orb_false_iff in Hno. destruct Hno as (H1 & H2 & H3 & H4 & _).
  rewrite (no_letter_marker _ H1), (no_number_marker _ H2),
    (no_paren_letter_marker _ H3), (no_paren_number_marker _ H4).
  done.
Qed.

Lemma C6_witness :
  MCQParser.cleanOption "Paris is a city" = JS.trim "Paris is a city"
  /\ MCQExtractor.cleanOptionText "Paris is a city"
     = JS.trim "Paris is a city".
Proof.
  apply (proj2 (proj2 C6_marker_removal) "Paris is a city").
  vm_compute. reflexivity.
Defined.

(** one marker of each kind, all four removed *)
Example cleanOption_removes_four_markers :
  MCQParser.cleanOption "A. 1. (b) (2) Paris" = "Paris".
Proof. vm_compute. reflexivity. Qed.

(** Two markers are removed from "A. 1) Paris", and a line without a marker
    comes back trimmed, not unchanged. *)
Lemma C6_counterexample :
  MCQParser.cleanOption "A. 1) Paris" = "Paris"
  /\ MCQExtractor.cleanOptionText "A. 1) Paris" = "Paris"
  /\ Marker.drop_letter "A. 1) Paris" = "1) Paris"
  /\ MCQParser.looksLikeOption " Paris " = false
  /\ MCQParser.cleanOption " Paris " = "Paris"
  /\ " Paris " <> "Paris".
Proof. repeat split; try (vm_compute; reflexivity); discriminate. Qed.

(** * The recurrence computes the edit distance *)

Section EditDistance.
Import Edit.

Lemma lev_nil_r s : lev s [] = length s.
Proof. by destruct s. Qed.

Lemma lev_cons x s y t :
  lev (x :: s) (y :: t)
  = if decide (x = y) then lev s t
    else Nat.min (lev s t + 1)
           (Nat.min (lev (x :: s) t + 1) (lev s (y :: t) + 1)).
Proof. reflexivity. Qed.

Lemma lev_nil_l t : lev [] t = length t.
Proof. reflexivity. Qed.

(** dropping the first character of either string changes the value by at
    most one *)
Lemma lev_step n :
  forall s t, length s + length t <= n ->
    (forall x, lev (x :: s) t <= S (lev s t))
    /\ (forall y, lev s (y :: t) <= S (lev s t))
    /\ (forall x, lev s t <= S (lev (x :: s) t))
    /\ (forall y, lev s t <= S (lev s (y :: t))).
Proof.
  induction n as [|n IH]; intros s t Hn.
  { destruct s, t; simpl in Hn; try lia.
    repeat split; intros; rewrite ?lev_nil_l, ?lev_nil_r; simpl; lia. }
  split; [|split; [|split]].
  - intros x. destruct t as [|b t'].
    + rewrite !lev_nil_r. simpl. lia.
    + rewrite lev_cons. destruct (decide (x = b)); [|lia].
      simpl in Hn. destruct (IH s t' ltac:(lia)) as (_ & _ & _ & D).
      apply D.
  - intros y. destruct s as [|a s'].
    + rewrite !lev_nil_l. simpl. lia.
    + rewrite lev_cons. destruct (decide (a = y)); [|lia].
      simpl in Hn. destruct (IH s' t ltac:(lia)) as (_ & _ & C & _).
      apply C.
  - intros x. destruct t as [|b t'].
    + rewrite !lev_nil_r. simpl. lia.
    + simpl in Hn. destruct (IH s t' ltac:(lia)) as (_ & B & C & _).
      pose proof (B b). pose proof (C x).
      rewrite (lev_cons x s b t'). destruct (decide (x = b)); lia.
  - intros y. destruct s as [|a s'].
    + rewrite !lev_nil_l. simpl. lia.
    + simpl in Hn. destruct (IH s' t ltac:(lia)) as (A & _ & _ & D).
      pose proof (A a). pose proof (D y).
      rewrite (lev_cons a s' y t). destruct (decide (a = y)); lia.
Qed.

Lemma lev_delete x s t : lev (x :: s) t <= S (lev s t).
Proof. by apply (lev_step (length s + length t) s t). Qed.

Lemma lev_insert y s t : lev s (y :: t) <= S (lev s t).
Proof. by apply (lev_step (length s + length t) s t). Qed.

(** every script costs at least the value of the recurrence ... *)
Lemma lev_least s t n : edits s t n -> lev s t <= n.
Proof.
  induction 1 as [|x s t n _ IH|x y s t n _ IH|x s t n _ IH|y s t n _ IH].
  - done.
  - rewrite lev_cons. by rewrite decide_True.
  - rewrite lev_cons. destruct (decide (x = y)); lia.
  - pose proof (lev_delete x s t). lia.
  - pose proof (lev_insert y s t). lia.
Qed.

Lemma edits_insert_all t : edits [] t (length t).
Proof. induction t; simpl; by constructor. Qed.

Lemma edits_delete_all s : edits s [] (length s).
Proof. induction s; simpl; by constructor. Qed.

(** ... and some script costs exactly that *)
Lemma lev_reached s t : edits s t (lev s t).
Proof.
  revert t. induction s as [|x s IHs]; intros t.
  - apply edits_insert_all.
  - induction t as [|y t IHt].
    + rewrite lev_nil_r. apply edits_delete_all.
    + rewrite lev_cons. destruct (decide (x = y)) as [->|Hne].
      * apply edits_keep, IHs.
      * destruct (Nat.min_spec (lev s t + 1)
                    (Nat.min (lev (x :: s) t + 1) (lev s (y :: t) + 1)))
          as [[_ ->]|[_ ->]].
        { rewrite Nat.add_1_r. apply edits_substitute, IHs. }
        destruct (Nat.min_spec (lev (x :: s) t + 1) (lev s (y :: t) + 1))
          as [[_ ->]|[_ ->]]; rewrite Nat.add_1_r.
        -- apply edits_insert, IHt.
        -- apply edits_delete, IHs.
Qed.

Lemma lev_is_distance s t : is_distance s t (lev s t).
Proof. split; [apply lev_reached|apply lev_least]. Qed.

(** the distance is unchanged by reading both strings backwards, and by
    exchanging them *)
Lemma edits_snoc_keep x s t n : edits s t n -> edits (s ++ [x]) (t ++ [x]) n.
Proof.
  induction 1; simpl; try by constructor.
  apply edits_keep, edits_nil.
Qed.

Lemma edits_snoc_substitute x y s t n :
  edits s t n -> edits (s ++ [x]) (t ++ [y]) (S n).
Proof.
  induction 1; simpl; try by constructor.
  apply edits_substitute, edits_nil.
Qed.

Lemma edits_snoc_delete x s t n : edits s t n -> edits (s ++ [x]) t (S n).
Proof.
  induction 1; simpl; try by constructor.
  apply edits_delete, edits_nil.
Qed.

Lemma edits_snoc_insert y s t n : edits s t n -> edits s (t ++ [y]) (S n).
Proof.
  induction 1; simpl; try by constructor.
  apply edits_insert, edits_nil.
Qed.

Lemma edits_rev s t n : edits s t n -> edits (rev s) (rev t) n.
Proof.
  induction 1; simpl.
  - constructor.
  - by apply edits_snoc_keep.
  - by apply edits_snoc_substitute.
  - by apply edits_snoc_delete.
  - by apply edits_snoc_insert.
Qed.

Lemma edits_sym s t n : edits s t n -> edits t s n.
Proof. induction 1; by constructor. Qed.

Lemma is_distance_rev_sym s t d :
  is_distance (rev t) (rev s) d -> is_distance s t d.
Proof.
  intros [Hd Hmin]. split.
  - apply edits_sym, edits_rev in Hd. by rewrite !rev_involutive in Hd.
  - intros n Hn. apply Hmin. by apply edits_sym, edits_rev.
Qed.

End EditDistance.

(** * The matrix of [levenshteinDistance] *)

Section Matrix.
Import Edit Highlighter.
Context (a b : str).

Lemma prefix_lev_row0 j : j <= length a -> prefix_lev a b 0 j = j.
Proof.
  intros Hj. unfold prefix_lev. rewrite take_0. simpl.
  rewrite length_rev, length_take. lia.
Qed.

Lemma prefix_lev_col0 i : i <= length b -> prefix_lev a b i 0 = i.
Proof.
  intros Hi. unfold prefix_lev. rewrite take_0. simpl.
  rewrite lev_nil_r, length_rev, length_take. lia.
Qed.

Lemma rev_take_S (l : str) n x :
  l !! n = Some x -> rev (take (S n) l) = x :: rev (take n l).
Proof.
  intros H. rewrite (take_S_r _ _ _ H), rev_app_distr. reflexivity.
Qed.

Lemma prefix_lev_step i j :
  1 <= i <= length b -> 1 <= j <= length a ->
  prefix_lev a b i j
  = if same_char a b i j then prefix_lev a b (i - 1) (j - 1)
    else Nat.min (prefix_lev a b (i - 1) (j - 1) + 1)
           (Nat.min (prefix_lev a b i (j - 1) + 1)
              (prefix_lev a b (i - 1) j + 1)).
Proof.
  intros Hi Hj. unfold prefix_lev, same_char.
  destruct i as [|i]; [lia|]. destruct j as [|j]; [lia|].
  replace (S i - 1) with i by lia. replace (S j - 1) with j by lia.
  destruct (lookup_lt_is_Some_2 b i ltac:(lia)) as [x Hx].
  destruct (lookup_lt_is_Some_2 a j ltac:(lia)) as [y Hy].
  rewrite (rev_take_S b i x Hx), (rev_take_S a j y Hy), lev_cons, Hx, Hy.
  destruct (decide (x = y)) as [->|Hne].
  - by rewrite bool_decide_eq_true_2.
  - rewrite bool_decide_eq_false_2; [done|]. by intros [= ->].
Qed.

Lemma state_lookup i j k :
  k <= length b -> state a b i j !! k = Some (row_of a b i j k).
Proof.
  intros Hk. unfold state. rewrite list_lookup_fmap.
  rewrite lookup_seq_lt by lia. reflexivity.
Qed.

Lemma state_length i j : length (state a b i j) = S (length b).
Proof. unfold state. by rewrite length_fmap, length_seq. Qed.

Lemma cell_above i j r c :
  r < i -> r <= length b -> c <= length a ->
  cell (state a b i j) r c = prefix_lev a b r c.
Proof.
  intros Hr Hrb Hc. unfold cell. rewrite state_lookup by done. simpl.
  unfold row_of. replace (r <? i) with true by (symmetry; apply Nat.ltb_lt; lia).
  rewrite list_lookup_fmap, lookup_seq_lt by lia. reflexivity.
Qed.

Lemma cell_current i j c :
  i <= length b -> c < j ->
  cell (state a b i j) i c = prefix_lev a b i c.
Proof.
  intros Hi Hc. unfold cell. rewrite state_lookup by done. simpl.
  unfold row_of. rewrite Nat.ltb_irrefl, Nat.eqb_refl.
  rewrite list_lookup_fmap, lookup_seq_lt by lia. reflexivity.
Qed.

(** writing the next cell of the current row *)
Lemma set_cell_next i j :
  i <= length b ->
  set_cell (state a b i j) i j (prefix_lev a b i j) = state a b i (S j).
Proof.
  intros Hi. unfold set_cell. rewrite state_lookup by done.
  cbv beta iota. apply list_eq. intros k.
  destruct (decide (k = i)) as [->|Hne].
  - rewrite list_lookup_insert_eq by (rewrite state_length; lia).
    rewrite state_lookup by done. f_equal.
    unfold row_of. rewrite Nat.ltb_irrefl, Nat.eqb_refl.
    unfold array_set. rewrite length_fmap, length_seq, Nat.ltb_irrefl.
    rewrite Nat.sub_diag. simpl replicate. simpl app at 2.
    by rewrite seq_S, fmap_app.
  - rewrite list_lookup_insert_ne by done.
    destruct (decide (k <= length b)) as [Hk|Hk].
    + rewrite !state_lookup by done. f_equal. unfold row_of.
      destruct (k <? i); [done|].
      by replace (k =? i) with false by (symmetry; apply Nat.eqb_neq; lia).
    + rewrite !lookup_ge_None_2; [done|rewrite state_length; lia..].
Qed.

Lemma fill_cell_state i j :
  1 <= i <= length b -> 1 <= j <= length a ->
  fill_cell a b i (state a b i j) j = state a b i (S j).
Proof.
  intros Hi Hj. unfold fill_cell.
  rewrite (cell_above i j (i - 1) (j - 1)), (cell_above i j (i - 1) j),
    (cell_current i j (j - 1)) by lia.
  rewrite <- set_cell_next by lia.
  rewrite (prefix_lev_step i j) by done.
  by destruct (same_char a b i j).
Qed.

Lemma fill_cells_state i j n :
  1 <= i <= length b -> 1 <= j -> j + n <= S (length a) ->
  fold_left (fill_cell a b i) (seq j n) (state a b i j)
  = state a b i (j + n).
Proof.
  intros Hi. revert j. induction n as [|n IH]; intros j Hj Hn; simpl.
  - by rewrite Nat.add_0_r.
  - rewrite fill_cell_state by lia. rewrite IH by lia. f_equal. lia.
Qed.

(** a complete row above is the same as the first cell of the next row *)
Lemma state_next_row i :
  i < length b -> state a b i (S (length a)) = state a b (S i) 1.
Proof.
  intros Hi. unfold state. apply list_fmap_ext. intros idx k Hk.
  apply lookup_seq in Hk as [-> Hk]. simpl. set (k := idx) in *.
  unfold row_of.
  destruct (decide (k < i)); [|destruct (decide (k = i)) as [->|]].
  - replace (k <? i) with true by (symmetry; apply Nat.ltb_lt; lia).
    by replace (k <? S i) with true by (symmetry; apply Nat.ltb_lt; lia).
  - rewrite Nat.ltb_irrefl, Nat.eqb_refl.
    by replace (i <? S i) with true by (symmetry; apply Nat.ltb_lt; lia).
  - replace (k <? i) with false by (symmetry; apply Nat.ltb_ge; lia).
    replace (k =? i) with false by (symmetry; apply Nat.eqb_neq; lia).
    destruct (decide (k = S i)) as [->|].
    + rewrite Nat.ltb_irrefl, Nat.eqb_refl. simpl.
      by rewrite prefix_lev_col0 by lia.
    + replace (k <? S i) with false by (symmetry; apply Nat.ltb_ge; lia).
      by replace (k =? S i) with false by (symmetry; apply Nat.eqb_neq; lia).
Qed.

Lemma fill_row_state i :
  1 <= i <= length b ->
  fill_row a b (state a b (i - 1) (S (length a))) i
  = state a b i (S (length a)).
Proof.
  intros Hi. unfold fill_row.
  replace (state a b (i - 1) (S (length a))) with (state a b i 1).
  - rewrite fill_cells_state by lia. f_equal.
  - destruct i as [|i]; [lia|]. replace (S i - 1) with i by lia.
    symmetry. apply state_next_row. lia.
Qed.

Lemma fill_rows_state i n :
  i + n <= length b ->
  fold_left (fill_row a b) (seq (S i) n) (state a b i (S (length a)))
  = state a b (i + n) (S (length a)).
Proof.
  revert i. induction n as [|n IH]; intros i Hn; simpl.
  - by rewrite Nat.add_0_r.
  - pose proof (fill_row_state (S i) ltac:(lia)) as H.
    replace (S i - 1) with i in H by lia. rewrite H.
    rewrite IH by lia. f_equal. lia.
Qed.

Lemma init_rows_from k n (m : list (list nat)) :
  length m = k ->
  fold_left (fun m i => array_set [] m i [i]) (seq k n) m
  = m ++ ((fun i => [i]) <$> seq k n).
Proof.
  revert k m. induction n as [|n IH]; intros k m Hk; simpl.
  - by rewrite app_nil_r.
  - rewrite IH.
    + unfold array_set. rewrite Hk, Nat.ltb_irrefl, Nat.sub_diag. simpl.
      by rewrite <- app_assoc.
    + unfold array_set. rewrite Hk, Nat.ltb_irrefl, Nat.sub_diag. simpl.
      rewrite length_app. simpl. lia.
Qed.

Lemma init_rows_rows : init_rows b = (fun i => [i]) <$> seq 0 (S (length b)).
Proof. unfold init_rows. by rewrite init_rows_from. Qed.

(** the first row while its cells [0 .. j-1] are written *)
Lemma init_columns_from j n rest :
  1 <= j ->
  fold_left (fun m j => set_cell m 0 j j) (seq j n) (seq 0 j :: rest)
  = seq 0 (j + n) :: rest.
Proof.
  revert j. induction n as [|n IH]; intros j Hj; simpl.
  - by rewrite Nat.add_0_r.
  - unfold set_cell at 2. simpl. unfold array_set.
    rewrite length_seq, Nat.ltb_irrefl, Nat.sub_diag. simpl.
    replace (seq 0 j ++ [j]) with (seq 0 (S j)) by (by rewrite seq_S).
    rewrite (IH (S j)) by lia. f_equal. f_equal. lia.
Qed.

Lemma init_state : init_columns a (init_rows b) = state a b 0 (S (length a)).
Proof.
  unfold init_columns. rewrite init_rows_rows.
  rewrite <- (cons_seq (length b) 0), fmap_cons.
  rewrite <- (cons_seq (length a) 0). cbn [fold_left].
  replace (set_cell ([0] :: ((fun i => [i]) <$> seq 1 (length b))) 0 0 0)
    with (seq 0 1 :: ((fun i => [i]) <$> seq 1 (length b))) by reflexivity.
  rewrite init_columns_from by lia.
  unfold state. rewrite <- (cons_seq (length b) 0), fmap_cons. f_equal.
  - unfold row_of. simpl "<?". simpl "=?". cbv iota.
    apply list_eq. intros k. destruct (0 <? 0).
    all: rewrite list_lookup_fmap.
    all: destruct (decide (k < 1 + length a));
      [rewrite !lookup_seq_lt by lia; simpl;
       by rewrite prefix_lev_row0 by lia
      |by rewrite !lookup_seq_ge by lia].
  - apply list_fmap_ext. intros idx k Hk.
    apply lookup_seq in Hk as [-> Hk]. unfold row_of. reflexivity.
Qed.

Lemma levenshtein_recurrence :
  levenshteinDistance a b = lev (rev b) (rev a).
Proof.
  unfold levenshteinDistance. rewrite init_state.
  pose proof (fill_rows_state 0 (length b) ltac:(lia)) as H.
  simpl in H. rewrite H.
  rewrite cell_current by lia.
  unfold prefix_lev. by rewrite !firstn_all.
Qed.

End Matrix.

(** [levenshteinDistance] is the edit distance *)
Lemma levenshtein_is_distance a b :
  Edit.is_distance a b (Highlighter.levenshteinDistance a b).
Proof.
  rewrite levenshtein_recurrence.
  apply is_distance_rev_sym, lev_is_distance.
Qed.

(** * The fuzzy tier *)

Section FuzzyTier.
Import Highlighter.
Context (cleanAnswer : str).


(** the loop keeps the first option of least distance *)
Lemma fuzzy_loop_from (rest pre : list PageOption) (b0 : PageOption) (i0 : nat) :
  pre !! i0 = Some b0 ->
  (forall x, x ∈ pre -> distance_to cleanAnswer b0 <= distance_to cleanAnswer x) ->
  (forall j x, j < i0 -> pre !! j = Some x -> distance_to cleanAnswer b0 < distance_to cleanAnswer x) ->
  exists i best,
    (pre ++ rest) !! i = Some best
    /\ (forall x, x ∈ pre ++ rest -> distance_to cleanAnswer best <= distance_to cleanAnswer x)
    /\ (forall j x, j < i -> (pre ++ rest) !! j = Some x ->
          distance_to cleanAnswer best < distance_to cleanAnswer x)
    /\ fold_left (fuzzy_step cleanAnswer) rest (Some b0, Some (distance_to cleanAnswer b0))
       = (Some best, Some (distance_to cleanAnswer best)).
Proof.
  revert pre b0 i0. induction rest as [|x rest IH]; intros pre b0 i0 Hb Hmin Hfirst.
  - exists i0, b0. rewrite app_nil_r. by repeat split.
  - simpl. unfold fuzzy_step at 2. simpl.
    fold (distance_to cleanAnswer x).
    replace (pre ++ x :: rest) with ((pre ++ [x]) ++ rest)
      by (by rewrite <- app_assoc).
    destruct (distance_to cleanAnswer x <? distance_to cleanAnswer b0) eqn:Hlt.
    + apply Nat.ltb_lt in Hlt.
      apply (IH (pre ++ [x]) x (length pre)).
      * by rewrite lookup_app_r, Nat.sub_diag by lia.
      * intros y [Hy|Hy]%elem_of_app.
        -- specialize (Hmin y Hy). lia.
        -- apply list_elem_of_singleton in Hy as ->. lia.
      * intros j y Hj Hy. rewrite lookup_app_l in Hy by lia.
        apply list_elem_of_lookup_2 in Hy. specialize (Hmin y Hy). lia.
    + apply Nat.ltb_ge in Hlt.
      apply (IH (pre ++ [x]) b0 i0).
      * apply lookup_app_l_Some. done.
      * intros y [Hy|Hy]%elem_of_app.
        -- by apply Hmin.
        -- by apply list_elem_of_singleton in Hy as ->.
      * intros j y Hj Hy. apply (Hfirst j y Hj).
        apply lookup_lt_Some in Hb.
        by rewrite lookup_app_l in Hy by lia.
Qed.

Lemma fuzzy_loop_best (options : list PageOption) :
  options <> [] ->
  exists i best,
    options !! i = Some best
    /\ (forall x, x ∈ options -> distance_to cleanAnswer best <= distance_to cleanAnswer x)
    /\ (forall j x, j < i -> options !! j = Some x ->
          distance_to cleanAnswer best < distance_to cleanAnswer x)
    /\ fold_left (fuzzy_step cleanAnswer) options (None, None)
       = (Some best, Some (distance_to cleanAnswer best)).
Proof.
  destruct options as [|o rest]; [done|]. intros _.
  simpl. unfold fuzzy_step at 2. simpl. fold (distance_to cleanAnswer o).
  apply (fuzzy_loop_from rest [o] o 0).
  - done.
  - intros x Hx. by apply list_elem_of_singleton in Hx as ->.
  - intros j x Hj. lia.
Qed.

End FuzzyTier.


(** On doubles the test gives the same answers: checked here for every
    length up to 300 and every distance up to the length. *)
Lemma below_40_percent_on_doubles :
  forallb (fun m =>
             forallb (fun x =>
                        Bool.eqb (double_below_40_percent x m)
                          (Highlighter.below_40_percent x m))
               (seq 0 (S m)))
    (seq 0 301) = true.
Proof. vm_compute. reflexivity. Qed.





(** the examples of the specification for the threshold *)
Example fuzzy_threshold_examples :
  Highlighter.levenshteinDistance "fotosynthesis" "photosynthesis" = 2
  /\ Highlighter.resolve [page_option 0 "Photosynthesis"] "Fotosynthesis"
     = Some (Fuzzy, page_option 0 "Photosynthesis")
  /\ Highlighter.resolve [page_option 0 "Photosynthesis"] "Cats" = None.
Proof. repeat split; vm_compute; reflexivity. Qed.

(** * The matcher stays inside its subject *)

Section MatcherSubject.
Import JS Regex.

Lemma reaches_refl s : reaches s s.
Proof. exists []. by split. Qed.

Lemma reaches_trans s1 s2 s3 : reaches s1 s2 -> reaches s2 s3 -> reaches s1 s3.
Proof.
  intros (m1 & A1 & B1) (m2 & A2 & B2). exists (m1 ++ m2). split.
  - by rewrite A1, A2, app_assoc.
  - by rewrite B2, B1, rev_app_distr, app_assoc.
Qed.

Lemma reaches_length s s' : reaches s s' -> length (after s') <= length (after s).
Proof. intros (m & A & _). rewrite A, length_app. lia. Qed.

Lemma reaches_position t s s' :
  position_of t s -> reaches s s' -> position_of t s'.
Proof.
  unfold position_of. intros <- (m & A & B).
  by rewrite B, A, rev_app_distr, rev_involutive, <- app_assoc.
Qed.

Lemma reaches_captured t s s' :
  position_of t s -> reaches s s' -> infix_of (captured s s') t.
Proof.
  unfold position_of. intros <- (m & A & B). unfold captured.
  rewrite A, length_app.
  replace (length m + length (after s') - length (after s')) with (length m)
    by lia.
  rewrite take_app_length. by exists (rev (before s)), (after s').
Qed.

Lemma reaches_step bef a rest : reaches (Pos bef (a :: rest)) (Pos (a :: bef) rest).
Proof. exists [a]. by split. Qed.

(** Whatever a pattern does, the continuation is entered at a position
    reached from the start, with groups that are pieces of the subject. *)
Lemma rx_sound t r :
  forall k s c res,
    position_of t s -> captures_of t c ->
    rx r k s c = Some res ->
    exists s' c', reaches s s' /\ captures_of t c' /\ k s' c' = Some res.
Proof.
  induction r as [|p|r1 IH1 r2 IH2|r1 IH1 r2 IH2|greedy r1 IH1|i r1 IH1| | |
                  |r1 IH1]; intros k s c res Hs Hc H.
  - exists s, c. split; [apply reaches_refl|done].
  - simpl in H. destruct s as [bef [|a rest]]; simpl in H; [done|].
    destruct (p a); [|done].
    eexists _, c. split; [apply reaches_step|done].
  - simpl in H. apply IH1 in H as (s1 & c1 & R1 & C1 & H); [|done..].
    apply IH2 in H as (s2 & c2 & R2 & C2 & H);
      [|by eapply reaches_position|done].
    exists s2, c2. split; [by eapply reaches_trans|done].
  - simpl in H. unfold orElse in H.
    destruct (rx r1 k s c) eqn:E1.
    + rewrite H in E1. by apply IH1 in E1.
    + by apply IH2 in H.
  - rewrite rx_star in H.
    remember (S (length (after s))) as fuel eqn:Hfuel. clear Hfuel.
    revert s c res Hs Hc H.
    induction fuel as [|fuel IHf]; intros s c res Hs Hc H.
    { simpl in H. exists s, c. split; [apply reaches_refl|done]. }
    simpl in H.
    assert (forall x,
              rx r1 (fun s' c' =>
                       if length (after s') <? length (after s)
                       then star_loop greedy r1 k fuel s' c' else None) s c
              = Some x ->
              exists s' c', reaches s s' /\ captures_of t c'
                            /\ k s' c' = Some x) as Hagain.
    { intros x Hx. apply IH1 in Hx as (s1 & c1 & R1 & C1 & Hx); [|done..].
      destruct (length (after s1) <? length (after s)); [|done].
      apply IHf in Hx as (s2 & c2 & R2 & C2 & Hx);
        [|by eapply reaches_position|done].
      exists s2, c2. split; [by eapply reaches_trans|done]. }
    assert (forall x, k s c = Some x ->
              exists s' c', reaches s s' /\ captures_of t c'
                            /\ k s' c' = Some x) as Hstop.
    { intros x Hx. exists s, c. split; [apply reaches_refl|done]. }
    unfold orElse in H. destruct greedy.
    + destruct (rx r1 _ s c) eqn:E1.
      * rewrite H in E1. by apply Hagain.
      * by apply Hstop.
    + destruct (k s c) eqn:E1.
      * rewrite H in E1. by apply Hstop.
      * by apply Hagain.
  - simpl in H. apply IH1 in H as (s1 & c1 & R1 & C1 & H); [|done..].
    eexists s1, _. split; [done|]. split; [|exact H].
    apply map_Forall_insert_2; [|done].
    by apply reaches_captured.
  - simpl in H. destruct (before s); [|done].
    exists s, c. split; [apply reaches_refl|done].
  - simpl in H. destruct (after s); [|done].
    exists s, c. split; [apply reaches_refl|done].
  - simpl in H. destruct (at_word_boundary s); [|done].
    exists s, c. split; [apply reaches_refl|done].
  - simpl in H.
    destruct (rx r1 (fun s' c' => Some (s', c')) s c) as [[s1 c1]|] eqn:E1;
      [|done].
    apply IH1 in E1 as (s2 & c2 & R2 & C2 & [= <- <-]); [|done..].
    exists s, c2. split; [apply reaches_refl|done].
Qed.

Lemma match_at_sound t r s e c :
  position_of t s -> match_at r s = Some (e, c) ->
  reaches s e /\ captures_of t c.
Proof.
  intros Hs H. unfold match_at in H.
  apply (rx_sound t) in H as (s' & c' & R & C & [= <- <-]); [done|done|].
  apply map_Forall_empty.
Qed.

(** a match found by a search: where it ends, and what it holds *)
Lemma search_from_sound t r bef aft m :
  position_of t (Pos bef aft) ->
  search_from r bef aft = Some m ->
  position_of t (m_end m)
  /\ length (after (m_end m)) <= length aft
  /\ captures_of t (m_groups m)
  /\ infix_of (m_text m) t.
Proof.
  revert bef. induction aft as [|a aft IH]; intros bef Hs; simpl.
  - destruct (match_at r (Pos bef [])) as [[e c]|] eqn:E; [|done].
    intros [= <-]. simpl.
    destruct (match_at_sound t r _ e c Hs E) as [R C].
    repeat split; try done.
    + by eapply reaches_position.
    + by apply reaches_length in R.
    + by apply reaches_captured.
  - destruct (match_at r (Pos bef (a :: aft))) as [[e c]|] eqn:E.
    + intros [= <-]. simpl.
      destruct (match_at_sound t r _ e c Hs E) as [R C].
      repeat split; try done.
      * by eapply reaches_position.
      * by apply reaches_length in R.
      * by apply reaches_captured.
    + intros H. apply IH in H as (H1 & H2 & H3 & H4).
      * repeat split; try done. lia.
      * eapply reaches_position; [exact Hs|apply reaches_step].
Qed.

End MatcherSubject.

(** * A question block needs three lines *)

Section ThreeLines.
Import JS Regex MCQParser.

Lemma infix_of_refl t : infix_of t t.
Proof. exists [], []. by rewrite app_nil_r. Qed.

Lemma infix_of_nil t : infix_of [] t.
Proof. by exists [], t. Qed.

Lemma infix_of_trans x y t : infix_of x y -> infix_of y t -> infix_of x t.
Proof.
  intros (l1 & r1 & ->) (l2 & r2 & ->). exists (l2 ++ l1), (r1 ++ r2).
  by rewrite <- !app_assoc.
Qed.

Lemma line_breaks_app a b : line_breaks (a ++ b) = line_breaks a + line_breaks b.
Proof. unfold line_breaks. by rewrite List.filter_app, length_app. Qed.

Lemma line_breaks_infix x t : infix_of x t -> line_breaks x <= line_breaks t.
Proof. intros (l & r & ->). rewrite !line_breaks_app. lia. Qed.

Lemma split_char_length s : length (split_char nl s) = S (line_breaks s).
Proof.
  induction s as [|c s IH]; [done|]. simpl. unfold line_breaks. simpl.
  destruct (char_eqb c nl); simpl; [by rewrite IH|].
  destruct (split_char nl s); simpl in *; [done|]. exact IH.
Qed.

Lemma parseQuestionBlock_three_lines block :
  line_breaks block < 2 -> parseQuestionBlock block = None.
Proof.
  intros H. unfold parseQuestionBlock.
  set (lines := List.filter _ _).
  assert (length lines <= S (line_breaks block)) as Hlen.
  { subst lines. etransitivity; [apply List.filter_length_le|].
    by rewrite length_map, split_char_length. }
  destruct (length lines <? 3) eqn:E; [done|].
  apply Nat.ltb_ge in E. lia.
Qed.

Lemma matchAll_from_sound t r fuel s :
  position_of t s ->
  Forall (fun m => captures_of t (m_groups m)) (matchAll_from fuel r s).
Proof.
  revert s. induction fuel as [|fuel IH]; intros s Hs; simpl; [constructor|].
  destruct (search_from r (before s) (after s)) as [m|] eqn:E; [|constructor].
  destruct s as [bef aft]. simpl in E.
  destruct (search_from_sound t r bef aft m Hs E) as (He & _ & Hc & _).
  destruct (index (m_end m) =? m_index m).
  - unfold step. destruct (m_end m) as [eb [|a rest]] eqn:Ee; simpl.
    + by repeat constructor.
    + constructor; [done|]. apply IH.
      eapply reaches_position; [exact He|apply reaches_step].
  - constructor; [done|]. by apply IH.
Qed.

Lemma group_infix t m i : captures_of t (m_groups m) -> infix_of (group m i) t.
Proof.
  intros H. unfold group. destruct (m_groups m !! i) as [x|] eqn:E; simpl.
  - exact (H i x E).
  - apply infix_of_nil.
Qed.

Lemma matchAll_groups t r i :
  Forall (fun m => infix_of (group m i) t) (matchAll r t).
Proof.
  eapply Forall_impl; [apply (matchAll_from_sound t)|].
  - done.
  - intros m. apply group_infix.
Qed.

Lemma split_loop_pieces t r fuel piece s :
  position_of t s -> (exists l, t = l ++ rev piece ++ after s) ->
  Forall (fun x => infix_of x t) (split_loop fuel r piece s).
Proof.
  revert piece s.
  induction fuel as [|fuel IH]; intros piece s Hs [l Hl]; simpl.
  - repeat constructor. exists l, []. by rewrite app_nil_r.
  - destruct s as [bef [|a rest]]; simpl in *.
    + repeat constructor. exists l, []. by rewrite Hl.
    + assert (Forall (fun x => infix_of x t)
                (split_loop fuel r (a :: piece) (Pos (a :: bef) rest)))
        as Hadv.
      { apply IH.
        - eapply reaches_position; [exact Hs|apply reaches_step].
        - exists l. simpl. by rewrite <- !app_assoc. }
      destruct (match_at r (Pos bef (a :: rest))) as [[e c]|] eqn:E; [|done].
      destruct (index e =? index (Pos bef (a :: rest)) - length piece);
        [done|].
      destruct (match_at_sound t r _ e c Hs E) as [R _].
      constructor.
      * exists l, (a :: rest). by rewrite Hl.
      * apply IH; [by eapply reaches_position|].
        exists (rev (before e)). simpl.
        symmetry. by eapply reaches_position.
Qed.

Lemma split_pieces t r : Forall (fun x => infix_of x t) (split r t).
Proof.
  unfold split. destruct t as [|a t'].
  - destruct (match_at r (start_of [])); repeat constructor.
    apply infix_of_refl.
  - apply split_loop_pieces; [done|]. by exists [].
Qed.

Lemma flat_map_nil {A B} (f : A -> list B) (l : list A) :
  Forall (fun a => f a = []) l -> flat_map f l = [].
Proof. induction 1 as [|a l Ha _ IH]; simpl; [done|]. by rewrite Ha, IH. Qed.

Lemma parse_short_text (text : str) :
  line_breaks text < 2 -> parse text = Returned [].
Proof.
  intros H. unfold parse. destruct (_ || _); [done|].
  rewrite run_strategies_candidates. simpl. unfold candidates. simpl.
  assert (forall r, flat_map block_of_match (matchAll r text) = []) as Hm.
  { intros r. apply flat_map_nil.
    eapply Forall_impl; [apply (matchAll_groups text r 2)|].
    intros m Hi. unfold block_of_match.
    rewrite parseQuestionBlock_three_lines; [done|].
    apply line_breaks_infix in Hi. lia. }
  unfold parseNumberedQuestions, parseQPrefixedQuestions. rewrite !Hm.
  unfold parseBlockQuestions. rewrite flat_map_nil; [done|].
  eapply Forall_impl; [apply split_pieces|].
  intros x Hi. simpl. destruct (looksLikeQuestion x); [|done].
  rewrite parseQuestionBlock_three_lines; [done|].
  apply line_breaks_infix in Hi. lia.
Qed.

(** X1. A text with fewer than two line feeds holds no question block of
    three lines: [parse] returns the empty list for it, whatever else the
    text contains. *)
Theorem parse_needs_three_lines (text : str) :
  line_breaks text < 2 -> parse text = Returned [].
Proof. apply parse_short_text. Qed.

(** a question and its options on two lines *)
Lemma parse_needs_three_lines_witness :
  parse ("1. What is 2+2?" ++ [nl] ++ "A. 3 B. 4 C. 5") = Returned [].
Proof. apply parse_needs_three_lines. vm_compute. lia. Defined.

End ThreeLines.

(** * Global replacement *)

Section GlobalReplace.
Import JS Regex.

Lemma search_from_suffix r bef aft m :
  search_from r bef aft = Some m ->
  exists mid, aft = mid ++ after (m_end m).
Proof.
  revert bef. induction aft as [|a aft IH]; intros bef; simpl.
  - destruct (match_at r (Pos bef [])) as [[e c]|] eqn:E; [|done].
    intros [= <-]. simpl.
    destruct (match_at_sound (rev bef) r (Pos bef []) e c)
      as [(mid & A & _) _];
      [by unfold position_of; simpl; rewrite app_nil_r|done|].
    by exists mid.
  - destruct (match_at r (Pos bef (a :: aft))) as [[e c]|] eqn:E.
    + intros [= <-]. simpl.
      destruct (match_at_sound (rev bef ++ a :: aft) r (Pos bef (a :: aft)) e c)
        as [(mid & A & _) _]; [done|done|].
      by exists mid.
    + intros H. apply IH in H as [mid ->]. by exists (a :: mid).
Qed.

(** Global replacement keeps every property of single code units that the
    subject and the replacement share. *)
Lemma replace_from_Forall (P : ascii -> Prop) r rep fuel s :
  Forall P (after s) -> Forall P rep ->
  Forall P (replace_from fuel r rep s).
Proof.
  revert s. induction fuel as [|fuel IH]; intros s Hs Hrep; simpl; [done|].
  destruct (search_from r (before s) (after s)) as [m|] eqn:E; [|done].
  apply search_from_suffix in E as [mid E].
  assert (Forall P (after (m_end m))) as He.
  { rewrite E in Hs. by apply Forall_app in Hs as [_ ?]. }
  assert (Forall P (take (m_index m - index s) (after s))) as Hskip
    by by apply Forall_take.
  destruct (index (m_end m) =? m_index m).
  - destruct (after (m_end m)) as [|a rest] eqn:Ea.
    + by apply Forall_app.
    + apply Forall_app; split; [done|]. apply Forall_app; split; [done|].
      inversion He; subst. constructor; [done|]. by apply IH.
  - apply Forall_app; split; [done|]. apply Forall_app; split; [done|].
    by apply IH.
Qed.

Lemma replaceAll_Forall (P : ascii -> Prop) r rep s :
  Forall P s -> Forall P rep -> Forall P (replaceAll r rep s).
Proof. intros. by apply replace_from_Forall. Qed.

Lemma search_from_skip p r bef pre aft :
  starts_in p r -> Forall (fun x => p x = false) pre ->
  search_from r bef (pre ++ aft) = search_from r (rev pre ++ bef) aft.
Proof.
  intros [_ Hr] Hpre. revert bef.
  induction Hpre as [|a pre Ha _ IH]; intros bef; [done|].
  simpl. rewrite Hr by done. rewrite IH. by rewrite <- app_assoc.
Qed.

Lemma search_from_none p r bef aft :
  starts_in p r -> Forall (fun x => p x = false) aft ->
  search_from r bef aft = None.
Proof.
  intros Hr Haft.
  rewrite <- (app_nil_r aft), (search_from_skip p) by done.
  simpl. by rewrite (proj1 Hr).
Qed.

Lemma replaceAll_none p r rep s :
  starts_in p r -> Forall (fun x => p x = false) s ->
  replaceAll r rep s = s.
Proof.
  intros Hr Hs. unfold replaceAll. simpl.
  by rewrite (search_from_none p).
Qed.

Lemma first_in p (s : str) :
  Forall (fun x => p x = false) s
  \/ exists pre c rest,
       s = pre ++ c :: rest /\ Forall (fun x => p x = false) pre
       /\ p c = true.
Proof.
  induction s as [|a s IH]; [by left|].
  destruct (p a) eqn:Ha.
  - right. by exists [], a, s.
  - destruct IH as [IH|(pre & c & rest & -> & Hpre & Hc)].
    + left. by constructor.
    + right. exists (a :: pre), c, rest. repeat split; [|done].
      by constructor.
Qed.

Lemma squeeze_false_skip p rep pre s :
  Forall (fun x => p x = false) pre ->
  squeeze p rep false (pre ++ s) = pre ++ squeeze p rep false s.
Proof.
  induction 1 as [|a pre Ha _ IH]; [done|]. simpl. by rewrite Ha, IH.
Qed.

Lemma squeeze_true_skip p rep s :
  squeeze p rep true s = squeeze p rep false (Marker.skip p s).
Proof.
  induction s as [|a s IH]; [done|]. simpl.
  destruct (p a) eqn:Ha; [done|]. simpl. by rewrite Ha.
Qed.

Lemma squeeze_all_false p rep b s :
  Forall (fun x => p x = false) s -> squeeze p rep b s = s.
Proof.
  intros H. revert b. induction H as [|a s Ha _ IH]; intros b; [done|].
  simpl. by rewrite Ha, IH.
Qed.

Lemma plus_class_starts p : starts_in p (Plus true (Chr p)).
Proof.
  split; [done|]. intros bef a aft Ha. unfold match_at, Plus. simpl.
  by rewrite Ha.
Qed.

Lemma plus_class_match p bef a aft :
  p a = true ->
  match_at (Plus true (Chr p)) (Pos bef (a :: aft))
  = Some (after_run p (a :: bef) aft, ∅).
Proof.
  intros Ha. unfold match_at, Plus.
  rewrite rx_seq, rx_class_cons, Ha, rx_star. by apply star_class_longest; [simpl; lia|].
Qed.

(** [s.replace(/[p]+/g, rep)] replaces every maximal run. *)
Lemma replace_from_runs p rep fuel bef aft :
  length aft < fuel ->
  replace_from fuel (Plus true (Chr p)) rep (Pos bef aft)
  = squeeze p rep false aft.
Proof.
  revert bef aft. induction fuel as [|fuel IH]; intros bef aft Hf; [lia|].
  simpl.
  destruct (first_in p aft) as [Hall|(pre & c & rest & -> & Hpre & Hc)].
  - rewrite (search_from_none p) by (done || apply plus_class_starts).
    by rewrite squeeze_all_false.
  - rewrite (search_from_skip p) by (done || apply plus_class_starts).
    simpl search_from. rewrite plus_class_match by done.
    cbn [m_end m_index index before after].
    pose proof (skip_length p rest) as Hskip.
    assert ((index (after_run p (c :: rev pre ++ bef) rest)
             =? length (rev pre ++ bef)) = false) as ->.
    { apply Nat.eqb_neq. unfold after_run, index. simpl.
      rewrite !length_app. simpl. rewrite !length_app. lia. }
    unfold index at 1. simpl before.
    rewrite length_app, length_rev.
    replace (length pre + length bef - length bef) with (length pre) by lia.
    rewrite take_app_length.
    rewrite squeeze_false_skip by done. simpl. rewrite Hc.
    rewrite squeeze_true_skip. f_equal. f_equal.
    unfold after_run at 1. apply IH.
    rewrite length_app in Hf. simpl in Hf. lia.
Qed.

Lemma replaceAll_runs p rep s :
  replaceAll (Plus true (Chr p)) rep s = squeeze p rep false s.
Proof. unfold replaceAll. apply replace_from_runs. lia. Qed.

Lemma class_starts p : starts_in p (Chr p).
Proof.
  split; [done|]. intros bef a aft Ha. unfold match_at. simpl.
  by rewrite Ha.
Qed.

(** [s.replace(/[p]/g, '')] deletes the code units in [p]. *)
Lemma replace_from_class p fuel bef aft :
  length aft < fuel ->
  replace_from fuel (Chr p) [] (Pos bef aft)
  = List.filter (fun c => negb (p c)) aft.
Proof.
  revert bef aft. induction fuel as [|fuel IH]; intros bef aft Hf; [lia|].
  simpl.
  destruct (first_in p aft) as [Hall|(pre & c & rest & -> & Hpre & Hc)].
  - rewrite (search_from_none p) by (done || apply class_starts).
    symmetry. apply forallb_filter_id, forallb_forall.
    intros x Hx. rewrite Forall_forall in Hall.
    rewrite Hall; [done|]. by apply list_elem_of_In.
  - rewrite (search_from_skip p) by (done || apply class_starts).
    simpl search_from. unfold match_at. simpl rx. rewrite Hc.
    cbn [accept m_end m_index index before after length].
    assert ((S (length (rev pre ++ bef)) =? length (rev pre ++ bef)) = false)
      as -> by (apply Nat.eqb_neq; lia).
    rewrite length_app, length_rev.
    replace (length pre + length bef - length bef) with (length pre) by lia.
    rewrite take_app_length. simpl.
    rewrite List.filter_app. simpl. rewrite Hc. simpl.
    rewrite IH by (rewrite length_app in Hf; simpl in Hf; lia).
    f_equal. symmetry. apply forallb_filter_id, forallb_forall.
    intros x Hx. rewrite Forall_forall in Hpre.
    rewrite Hpre; [done|]. by apply list_elem_of_In.
Qed.

Lemma replaceAll_class p s :
  replaceAll (Chr p) [] s = List.filter (fun c => negb (p c)) s.
Proof. unfold replaceAll. apply replace_from_class. lia. Qed.

End GlobalReplace.

(** * Texts with single spaces *)

Section SingleSpaces.
Import JS Regex.

Lemma trimStart_Forall (P : ascii -> Prop) s :
  Forall P s -> Forall P (trimStart s).
Proof.
  induction 1 as [|a s Ha Hs IH]; simpl; [done|].
  destruct (is_space a); [done|]. by constructor.
Qed.

Lemma trim_Forall (P : ascii -> Prop) s : Forall P s -> Forall P (trim s).
Proof.
  intros H. unfold trim, trimEnd.
  apply Forall_rev, trimStart_Forall, Forall_rev. by apply trimStart_Forall.
Qed.

Lemma trimStart_head s c : head (trimStart s) = Some c -> is_space c = false.
Proof.
  induction s as [|a s IH]; simpl; [done|].
  destruct (is_space a) eqn:Ha; [done|]. by intros [= <-].
Qed.

Lemma trimStart_snoc s c :
  is_space c = false -> trimStart (s ++ [c]) = trimStart s ++ [c].
Proof.
  intros Hc. induction s as [|a s IH]; simpl; [by rewrite Hc|].
  by destruct (is_space a).
Qed.

Lemma trimEnd_cons c s : is_space c = false -> trimEnd (c :: s) = c :: trimEnd s.
Proof.
  intros Hc. unfold trimEnd. simpl. rewrite trimStart_snoc by done.
  by rewrite rev_app_distr.
Qed.

Lemma last_rev_head {A} (l : list A) : last (rev l) = head l.
Proof. destruct l as [|a l]; [done|]. simpl. by rewrite last_snoc. Qed.

Lemma trim_trimmed s : trimmed (trim s).
Proof.
  unfold trim. split.
  - intros c. destruct (trimStart s) as [|a s'] eqn:E; [done|].
    assert (is_space a = false) as Ha
      by (apply (trimStart_head s); by rewrite E).
    rewrite trimEnd_cons by done. by intros [= <-].
  - intros c. unfold trimEnd. rewrite last_rev_head. apply trimStart_head.
Qed.

Lemma squeeze_only_blanks b s : only_blanks (squeeze is_space " " b s).
Proof.
  unfold only_blanks. revert b.
  induction s as [|a s IH]; intros b; simpl; [constructor|].
  destruct (is_space a) eqn:Ha.
  - destruct b; [apply IH|]. constructor; [done|apply IH].
  - constructor; [by rewrite Ha|apply IH].
Qed.

Lemma squeeze_true_head s :
  head (squeeze is_space " " true s) <> Some " "%char.
Proof.
  induction s as [|a s IH]; simpl; [done|].
  destruct (is_space a) eqn:Ha; [done|]. simpl. intros [= ->]. done.
Qed.

Lemma squeeze_no_double_blank b s :
  no_double_blank (squeeze is_space " " b s).
Proof.
  unfold no_double_blank. revert b.
  induction s as [|a s IH]; intros b i; simpl; [done|].
  assert (forall t, (forall j, t !! j = Some " "%char -> t !! S j <> Some " "%char) ->
                    head t <> Some " "%char ->
                    forall j, (" "%char :: t) !! j = Some " "%char ->
                              (" "%char :: t) !! S j <> Some " "%char) as Hcons.
  { intros t Ht Hh [|j]; simpl.
    - intros _. by destruct t.
    - apply Ht. }
  destruct (is_space a) eqn:Ha.
  - destruct b; [apply IH|].
    apply (Hcons _ (IH true)), squeeze_true_head.
  - destruct i as [|i]; simpl.
    + intros [= ->]. done.
    + apply IH.
Qed.

Lemma squeeze_Forall (P : ascii -> Prop) p rep b s :
  Forall P rep -> Forall P s -> Forall P (squeeze p rep b s).
Proof.
  intros Hrep Hs. revert b.
  induction Hs as [|a s Ha _ IH]; intros b; simpl; [done|].
  destruct (p a).
  - destruct b; [apply IH|]. apply Forall_app. split; [done|apply IH].
  - constructor; [done|apply IH].
Qed.

Lemma squeeze_last p rep b s c :
  last s = Some c -> p c = false -> last (squeeze p rep b s) = Some c.
Proof.
  intros Hl Hc. revert b Hl.
  induction s as [|a s IH]; intros b Hl; [done|].
  rewrite last_cons in Hl. destruct (last s) as [x|] eqn:E.
  - injection Hl as ->. simpl. destruct (p a).
    + destruct b; [by apply IH|]. by rewrite last_app, IH.
    + by rewrite last_cons, IH.
  - injection Hl as ->. apply last_None in E as ->. simpl. by rewrite Hc.
Qed.

Lemma squeeze_trimmed s :
  trimmed s -> trimmed (squeeze is_space " " false s).
Proof.
  intros [Hh Hl]. split.
  - intros c. destruct s as [|a s]; simpl; [done|].
    rewrite (Hh a) by done. simpl. intros [= <-]. by apply Hh.
  - intros c Hc. destruct (last s) as [x|] eqn:E.
    + rewrite (squeeze_last _ _ _ _ x) in Hc by (done || by apply Hl).
      injection Hc as <-. by apply Hl.
    + apply last_None in E as ->. done.
Qed.

Lemma squeeze_length p c b s : length (squeeze p [c] b s) <= length s.
Proof.
  revert b. induction s as [|a s IH]; intros b; simpl; [done|].
  destruct (p a).
  - destruct b; simpl; [specialize (IH true)|specialize (IH true)]; lia.
  - simpl. specialize (IH false). lia.
Qed.

Lemma trimStart_length s : length (trimStart s) <= length s.
Proof.
  induction s as [|a s IH]; simpl; [done|]. destruct (is_space a); simpl; lia.
Qed.

Lemma trim_length s : length (trim s) <= length s.
Proof.
  unfold trim, trimEnd. rewrite length_rev.
  etransitivity; [apply trimStart_length|]. rewrite length_rev.
  apply trimStart_length.
Qed.

End SingleSpaces.

(** * What the cleaners of the server leave *)

Section ServerCleaners.
Import JS Regex.

Lemma blank_not_nl c :
  (is_space c = true -> c = " "%char) -> char_eqb OCRService.nl c = false.
Proof.
  intros H. destruct (char_eqb OCRService.nl c) eqn:E; [|done].
  apply char_eqb_eq in E as <-. by specialize (H eq_refl).
Qed.

Lemma newlines3_starts : starts_in (char_eqb OCRService.nl) OCRService.newlines3.
Proof.
  split; [done|]. intros bef a aft Ha. unfold match_at, OCRService.newlines3.
  rewrite rx_seq. unfold Lit at 1. by rewrite rx_class_cons, Ha.
Qed.

Lemma cleanText_shape text :
  Forall printable (OCRService.cleanText text)
  /\ trimmed (OCRService.cleanText text).
Proof.
  unfold OCRService.cleanText. destruct (negb (truthy text)).
  { split; [constructor|]. by split. }
  split; [|apply trim_trimmed].
  unfold OCRService.spaces. rewrite replaceAll_runs.
  pose proof (squeeze_only_blanks false text) as H1. unfold only_blanks in H1.
  rewrite (replaceAll_none (char_eqb OCRService.nl) OCRService.newlines3);
    cycle 1.
  { apply newlines3_starts. }
  { eapply Forall_impl; [exact H1|]. intros c. apply blank_not_nl. }
  set (s1 := squeeze is_space " " false text) in *.
  set (P := fun c : ascii => is_space c = true -> c = " "%char) in *.
  assert (Forall P (replaceAll (OCRService.lone "O") "0"
                      (replaceAll (OCRService.lone "l") "1" s1))) as H4.
  { apply replaceAll_Forall; [apply replaceAll_Forall; [done|]|];
      by repeat constructor. }
  apply trim_Forall. rewrite replaceAll_class.
  apply Forall_forall. intros c Hc.
  apply list_elem_of_In, List.filter_In in Hc as [Hc Hart].
  apply list_elem_of_In in Hc.
  rewrite Forall_forall in H4. specialize (H4 c Hc).
  unfold OCRService.artifact in Hart. rewrite negb_involutive in Hart.
  apply orb_true_iff in Hart as [Hr|Hnl].
  - unfold in_range in Hr. apply andb_true_iff in Hr as [Hlo Hhi].
    apply Nat.leb_le in Hlo, Hhi. by split.
  - apply char_eqb_eq in Hnl as ->. by specialize (H4 eq_refl).
Qed.

Lemma printable_one_line s : Forall printable s -> line_breaks s = 0.
Proof.
  unfold line_breaks. induction 1 as [|c s Hc _ IH]; [done|].
  cbn [List.filter]. destruct (char_eqb c MCQParser.nl) eqn:E; [|exact IH].
  apply char_eqb_eq in E as ->. vm_compute in Hc. lia.
Qed.

(** X2. Whatever text is recognised, [cleanText] returns printable ASCII
    only (code units 0x20 to 0x7E, so no line feed is left) without white
    space at either end. *)
Theorem cleanText_printable_one_line (text : str) :
  Forall printable (OCRService.cleanText text)
  /\ trimmed (OCRService.cleanText text)
  /\ line_breaks (OCRService.cleanText text) = 0.
Proof.
  destruct (cleanText_shape text) as [Hp Ht].
  split; [done|]. split; [done|]. by apply printable_one_line.
Qed.

(** X3. The route [POST /api/ocr/parse] parses the cleaned text; since the
    cleaner has turned every line feed into a space, no question block of
    three lines is left and the route reports no MCQ, whatever was
    recognised. *)
Theorem ocr_parse_route_finds_nothing (text : str) :
  OCRRoute.validatedMCQs text = Returned [].
Proof.
  unfold OCRRoute.validatedMCQs. rewrite parse_short_text; [done|].
  destruct (cleanText_shape text) as [Hp _].
  rewrite printable_one_line by done. lia.
Qed.

(** X4. [sanitizeText] leaves no angle bracket, no white space other than
    single spaces, and never lengthens the text. *)
Theorem sanitizeText_shape (text : str) :
  let r := Validator.sanitized text in
  Validator.sanitizeText (Validator.VString text) = Validator.VString r
  /\ Forall (fun c => c <> "<"%char /\ c <> ">"%char) r
  /\ only_blanks r
  /\ no_double_blank r
  /\ length r <= length text.
Proof.
  intros r. subst r. split; [done|]. unfold Validator.sanitized.
  rewrite replaceAll_runs, replaceAll_class.
  split; [|split; [|split]].
  - apply squeeze_Forall; [by repeat constructor|].
    apply Forall_forall. intros c Hc.
    apply list_elem_of_In, List.filter_In in Hc as [_ Hc].
    split; intros ->; vm_compute in Hc; done.
  - apply squeeze_only_blanks.
  - apply squeeze_no_double_blank.
  - etransitivity; [apply squeeze_length|].
    etransitivity; [apply List.filter_length_le|]. apply trim_length.
Qed.


End ServerCleaners.

(** * The answer route *)

Section RequestValidation.
Import JS Validator.

Lemma acceptable_question_truthy q : acceptable_question q -> truthy q = true.
Proof. intros [H _]. destruct q; [simpl in H; lia|done]. Qed.

Lemma acceptable_option_truthy o : acceptable_option o -> truthy o = true.
Proof. intros [H _]. by destruct o. Qed.

Lemma question_errors_nil v :
  question_errors v = [] <-> exists q, v = VString q /\ acceptable_question q.
Proof.
  unfold question_errors, acceptable_question. split.
  - destruct (truthy_value v) eqn:T; simpl; [|done].
    destruct v as [| | | |q| |]; try done.
    destruct (length (trim q) <? 10) eqn:E1; [done|].
    destruct (1000 <? length q) eqn:E2; [done|].
    intros _. exists q. apply Nat.ltb_ge in E1, E2. done.
  - intros (q & -> & H1 & H2). simpl.
    rewrite (acceptable_question_truthy q) by done. simpl.
    apply Nat.ltb_ge in H1, H2. by rewrite H1, H2.
Qed.

Lemma option_errors_nil i v :
  option_errors i v = [] <-> exists o, v = VString o /\ acceptable_option o.
Proof.
  unfold option_errors, acceptable_option. split.
  - destruct v as [| | | |o| |]; try done.
    destruct (length (trim o) =? 0) eqn:E1; [done|].
    destruct (500 <? length o) eqn:E2; [done|].
    intros _. exists o. apply Nat.eqb_neq in E1. apply Nat.ltb_ge in E2.
    split; [done|]. split; [|done]. intros E. by rewrite E in E1.
  - intros (o & -> & H1 & H2).
    destruct (length (trim o) =? 0) eqn:E1.
    + apply Nat.eqb_eq in E1. by destruct (trim o).
    + apply Nat.ltb_ge in H2. by rewrite H2.
Qed.

Lemma imap_errors_nil (f : nat -> value -> list str) items :
  (forall i v, f i v = [] <-> exists o, v = VString o /\ acceptable_option o) ->
  concat (imap f items) = []
  <-> exists opts, items = VString <$> opts /\ Forall acceptable_option opts.
Proof.
  revert f. induction items as [|v items IH]; intros f Hf.
  - split; [|done]. intros _. by exists [].
  - rewrite imap_cons. simpl. split.
    + intros H. apply app_eq_nil in H as [Hv Hrest].
      apply Hf in Hv as (o & -> & Ho).
      apply IH in Hrest as (opts & -> & Hopts); [|intros i v; apply Hf].
      exists (o :: opts). split; [done|]. by constructor.
    + intros (opts & E & Hopts). destruct opts as [|o opts]; [done|].
      injection E as -> ->. inversion Hopts; subst.
      assert (f 0 (VString o) = []) as -> by (apply Hf; by exists o).
      simpl. apply IH; [intros i v; apply Hf|]. by exists opts.
Qed.

Lemma options_errors_nil v :
  options_errors v = []
  <-> exists opts,
        v = VArray (VString <$> opts)
        /\ 2 <= length opts <= 10 /\ Forall acceptable_option opts.
Proof.
  unfold options_errors. split.
  - destruct (truthy_value v) eqn:T; simpl; [|done].
    destruct v as [| | | | |items|]; try done.
    destruct (length items <? 2) eqn:E1; [done|].
    destruct (10 <? length items) eqn:E2; [done|].
    intros H. apply imap_errors_nil in H as (opts & -> & Hopts);
      [|apply option_errors_nil].
    exists opts. rewrite length_fmap in E1, E2.
    apply Nat.ltb_ge in E1, E2. done.
  - intros (opts & -> & [H1 H2] & Hopts). simpl. rewrite length_fmap.
    apply Nat.ltb_ge in H1, H2. rewrite H1, H2.
    apply imap_errors_nil; [apply option_errors_nil|]. by exists opts.
Qed.

Lemma validateAnswerRequest_nil body :
  validateAnswerRequest body = []
  <-> exists q opts,
        body = mkBody (VString q) (VArray (VString <$> opts))
        /\ acceptable_question q
        /\ 2 <= length opts <= 10
        /\ Forall acceptable_option opts.
Proof.
  unfold validateAnswerRequest. split.
  - intros H. apply app_eq_nil in H as [Hq Ho].
    apply question_errors_nil in Hq as (q & Eq & Hq).
    apply options_errors_nil in Ho as (opts & Eo & Hn & Ho).
    exists q, opts. destruct body as [bq bo]. simpl in *. by subst.
  - intros (q & opts & -> & Hq & Hn & Ho). simpl.
    assert (question_errors (VString q) = []) as ->
      by (apply question_errors_nil; by exists q).
    apply options_errors_nil. by exists opts.
Qed.

(** X6. The validator reports no error exactly for a body whose question is
    a string of at most 1000 code units with at least 10 left after
    trimming, and whose options are an array of 2 to 10 strings, each of at
    most 500 code units and not blank. *)
Theorem validateAnswerRequest_accepts (body : Body) :
  validateAnswerRequest body = []
  <-> exists q opts,
        body = mkBody (VString q) (VArray (VString <$> opts))
        /\ acceptable_question q
        /\ 2 <= length opts <= 10
        /\ Forall acceptable_option opts.
Proof. apply validateAnswerRequest_nil. Qed.

Lemma strings_fmap opts : AnswerRoute.strings (VString <$> opts) = Some opts.
Proof.
  unfold AnswerRoute.strings. by apply mapM_fmap_Some.
Qed.

(** X7. On the answer route a request is either rejected by the validator
    with a non-empty list of errors, or handed to the service with a
    question and 2 to 10 options that the validator accepts; the guard of
    [answerMCQ] against a missing question or an empty option list then
    never fires, so that the service goes on to ask the model. *)
Theorem answer_route_guard_never_fires
    (answerMCQ : str -> list str -> outcome AIService.Answer) (body : Body) :
  (exists errors,
     errors <> [] /\ AnswerRoute.post answerMCQ body = AnswerRoute.Rejected errors)
  \/ (exists q opts,
        acceptable_question q
        /\ 2 <= length opts <= 10
        /\ Forall acceptable_option opts
        /\ AnswerRoute.post answerMCQ body = AnswerRoute.handler answerMCQ q opts
        /\ forall p respond parseAIResponse,
             AIService.answerMCQ p respond parseAIResponse q opts
             = match p with
               | AIService.Other name =>
                   Thrown (Error ("Unsupported AI provider: " ++ name))
               | _ =>
                   response ← respond q opts;
                   Returned (parseAIResponse response opts)
               end).
Proof.
  unfold AnswerRoute.post. cbv zeta.
  destruct (validateAnswerRequest (sanitizeRequest body)) as [|e errors] eqn:E.
  - right. apply validateAnswerRequest_nil in E as (q & opts & -> & Hq & Hn & Ho).
    exists q, opts. cbn [Validator.question Validator.options].
    rewrite strings_fmap.
    split; [done|]. split; [lia|]. split; [done|]. split; [done|].
    intros p respond parseAIResponse. unfold AIService.answerMCQ.
    rewrite (acceptable_question_truthy q) by done.
    destruct opts; [simpl in Hn; lia|]. by destruct p.
  - left. by exists (e :: errors).
Qed.

End RequestValidation.

(** * Upstream failures, as the client sees them *)

Section UpstreamFailures.
Import JS AIService.

(** X8. For a request that passes the guard of [answerMCQ]: a 401 of the
    OpenAI client reaches the caller of the answer route as 401, a 429 as
    503, and a 503 as 500; a refused connection to Ollama as 503. *)
Theorem upstream_failure_status
    (parseAIResponse : str -> list str -> Answer) (question : str)
    (options : list str) (error : ClientError) :
  truthy question = true -> options <> [] ->
  let openai :=
    AnswerRoute.handler
      (answerMCQ OpenAI (fun _ _ => _callOpenAI (inl error)) parseAIResponse)
      question options in
  let ollama :=
    AnswerRoute.handler
      (answerMCQ Ollama (fun _ _ => _callOllama (inl error)) parseAIResponse)
      question options in
  (e_status error = Some 401%Z ->
   openai = AnswerRoute.Failed 401 "AI service authentication failed")
  /\ (e_status error = Some 429%Z ->
      openai = AnswerRoute.Failed 503 "AI service rate limit exceeded")
  /\ (e_status error = Some 503%Z ->
      openai = AnswerRoute.Failed 500 "Failed to process question")
  /\ (e_code error = Some "ECONNREFUSED" ->
      ollama = AnswerRoute.Failed 503 "AI service unavailable").
Proof.
  intros Hq Ho openai ollama. subst openai ollama.
  unfold AnswerRoute.handler, answerMCQ. rewrite Hq.
  destruct options as [|o options]; [done|]. simpl.
  unfold _callOpenAI, _callOllama.
  repeat split; intros ->; reflexivity.
Qed.

Lemma upstream_failure_status_witness :
  AnswerRoute.handler
    (answerMCQ OpenAI
       (fun _ _ => _callOpenAI (inl (mkClientError (Some 503%Z) None "down")))
       _fallbackParse)
    "What is the capital of France?" ["Paris"; "Rome"]
  = AnswerRoute.Failed 500 "Failed to process question".
Proof.
  apply (upstream_failure_status _fallbackParse
           "What is the capital of France?" ["Paris"; "Rome"]
           (mkClientError (Some 503%Z) None "down"));
    [reflexivity|discriminate|reflexivity].
Defined.

End UpstreamFailures.

(** * Uploads *)

Section Uploads.
Import JS OCRUpload.

(** X9. A file that [validateOCRRequest] lets through is an image or a PDF
    for [extractText], which therefore does not reject it as unsupported,
    and has at most 10 MB. *)
Theorem validated_upload_is_supported (file : File) :
  validateOCRRequest (Some file) = None ->
  (exists branch, extractText file = Returned branch)
  /\ (size file <= 10485760)%N.
Proof.
  unfold validateOCRRequest, extractText.
  destruct (existsb _ allowedTypes) eqn:E; simpl; [|done].
  destruct (_ <? _)%N eqn:Es; [done|]. intros _. split.
  - simpl in E. repeat (apply orb_true_iff in E as [E|E]); try done;
      apply str_eqb_eq in E; rewrite E; by eexists.
  - apply N.ltb_ge in Es. exact Es.
Qed.

Lemma validated_upload_is_supported_witness :
  (exists branch, extractText (mkFile "image/png" 2048) = Returned branch)
  /\ (2048 <= 10485760)%N.
Proof.
  apply (validated_upload_is_supported (mkFile "image/png" 2048)).
  vm_compute. reflexivity.
Defined.

End Uploads.

(** * The name hash *)

Section NameHash.
Import JS StealthUtils.
Local Open Scope Z_scope.

Lemma toInt32_range z : - 2 ^ 31 <= toInt32 z < 2 ^ 31.
Proof.
  unfold toInt32. pose proof (Z.mod_pos_bound (z + 2 ^ 31) (2 ^ 32)). lia.
Qed.

Lemma toInt32_shift z k : toInt32 (z + 2 ^ 32 * k) = toInt32 z.
Proof.
  unfold toInt32. f_equal.
  replace (z + 2 ^ 32 * k + 2 ^ 31) with (z + 2 ^ 31 + k * 2 ^ 32) by lia.
  by rewrite Z_mod_plus_full.
Qed.

Lemma toInt32_wraps z : exists k, toInt32 z = z + 2 ^ 32 * k.
Proof.
  exists (- ((z + 2 ^ 31) / 2 ^ 32)). unfold toInt32.
  pose proof (Z.div_mod (z + 2 ^ 31) (2 ^ 32)). lia.
Qed.

Lemma toInt32_id z : - 2 ^ 31 <= z < 2 ^ 31 -> toInt32 z = z.
Proof. intros H. unfold toInt32. rewrite Z.mod_small; lia. Qed.

Lemma hash_step h c :
  (let hash := shl (toInt32 h) 5 - toInt32 h + c in band hash hash)
  = toInt32 (31 * h + c).
Proof.
  cbv zeta. unfold band, shl. rewrite Z.land_diag, Z.shiftl_mul_pow2 by lia.
  destruct (toInt32_wraps h) as [k1 E1].
  rewrite (toInt32_id (toInt32 h)) by apply toInt32_range.
  destruct (toInt32_wraps (toInt32 h * 2 ^ 5)) as [k2 E2].
  rewrite E2, E1.
  replace ((h + 2 ^ 32 * k1) * 2 ^ 5 + 2 ^ 32 * k2 - (h + 2 ^ 32 * k1) + c)
    with (31 * h + c + 2 ^ 32 * (31 * k1 + k2)) by lia.
  apply toInt32_shift.
Qed.

Lemma hash_fold s h :
  fold_left
    (fun hash c =>
       let hash := shl hash 5 - hash + Z.of_nat (code c) in band hash hash)
    s (toInt32 h)
  = toInt32 (fold_left (fun h c => 31 * h + Z.of_nat (code c)) s h).
Proof.
  revert h. induction s as [|c s IH]; intros h; [done|].
  cbn [fold_left]. rewrite hash_step. apply IH.
Qed.

Lemma simpleHash_wrapped s : simpleHash s = Z.abs (toInt32 (poly31 s)).
Proof.
  unfold simpleHash, poly31. f_equal.
  change 0 with (toInt32 0) at 1. apply hash_fold.
Qed.

Lemma simpleHash_bounds s : 0 <= simpleHash s <= 2 ^ 31.
Proof.
  rewrite simpleHash_wrapped. pose proof (toInt32_range (poly31 s)). lia.
Qed.

(** X10. [simpleHash] is the absolute value of the polynomial hash with
    base 31 of the code units, wrapped to a signed 32-bit integer; it lies
    between 0 and 2^31, both included. *)
Theorem simpleHash_polynomial (s : str) :
  simpleHash s = Z.abs (toInt32 (poly31 s))
  /\ 0 <= simpleHash s <= 2 ^ 31.
Proof.
  split; [apply simpleHash_wrapped|apply simpleHash_bounds].
Qed.

Lemma digit36_alnum d :
  0 <= d < 36 ->
  (is_digit (digit36 d) || is_lower (digit36 d)) = true
  /\ digit36_value (digit36 d) = d.
Proof.
  intros H.
  assert (d = 0 \/ d = 1 \/ d = 2 \/ d = 3 \/ d = 4 \/ d = 5 \/ d = 6 \/ d = 7
          \/ d = 8 \/ d = 9 \/ d = 10 \/ d = 11 \/ d = 12 \/ d = 13 \/ d = 14
          \/ d = 15 \/ d = 16 \/ d = 17 \/ d = 18 \/ d = 19 \/ d = 20
          \/ d = 21 \/ d = 22 \/ d = 23 \/ d = 24 \/ d = 25 \/ d = 26
          \/ d = 27 \/ d = 28 \/ d = 29 \/ d = 30 \/ d = 31 \/ d = 32
          \/ d = 33 \/ d = 34 \/ d = 35) as Hd by lia.
  repeat (destruct Hd as [->|Hd]; [by vm_compute|]). subst. by vm_compute.
Qed.

Lemma numeral36_snoc ds c :
  numeral36_value (ds ++ [c]) = 36 * numeral36_value ds + digit36_value c.
Proof. unfold numeral36_value. by rewrite fold_left_app. Qed.

Lemma log2_div36 n : 36 <= n -> Z.log2 (n / 36) < Z.log2 n.
Proof.
  intros H.
  assert (Z.log2 (n / 36) <= Z.log2 (n / 2)) as H1.
  { apply Z.log2_le_mono.
    apply Z.div_le_lower_bound; [lia|].
    pose proof (Z.mul_div_le n 36). pose proof (Z.div_pos n 36).
    pose proof (Z.div_mod n 36). pose proof (Z.mod_pos_bound n 36).
    pose proof (Z.div_lt_upper_bound n 36 (n / 36 + 1)).
    assert (2 * (n / 36) <= 36 * (n / 36)) by lia. lia. }
  assert (Z.log2 (n / 2) = Z.log2 n - 1) as H2.
  { change 2 with (2 ^ 1) at 1. rewrite <- Z.shiftr_div_pow2 by lia.
    rewrite Z.log2_shiftr by lia.
    assert (Z.log2 32 <= Z.log2 n) by (apply Z.log2_le_mono; lia).
    change (Z.log2 32) with 5 in *. lia. }
  lia.
Qed.

(** the numeral built by [digits36]: its digits, its length, its value *)
Lemma digits36_spec fuel :
  forall n acc k,
    0 <= n < 36 ^ Z.of_nat k -> (0 < k)%nat ->
    (Z.to_nat (Z.log2 n) < fuel)%nat ->
    exists ds,
      digits36 fuel n acc = ds ++ acc
      /\ (0 < length ds <= k)%nat
      /\ Forall (fun c => (is_digit c || is_lower c) = true) ds
      /\ numeral36_value ds = n.
Proof.
  induction fuel as [|fuel IH]; intros n acc k Hn Hk Hf; [lia|].
  cbn [digits36].
  pose proof (Z.mod_pos_bound n 36 ltac:(lia)) as Hmod.
  destruct (digit36_alnum (n mod 36) Hmod) as [Hal Hval].
  destruct (n / 36 =? 0) eqn:E.
  - apply Z.eqb_eq in E.
    assert (n mod 36 = n) as Hsmall
      by (pose proof (Z.div_mod n 36 ltac:(lia)); lia).
    exists [digit36 (n mod 36)]. split; [done|]. split; [simpl; lia|].
    split; [by repeat constructor|].
    unfold numeral36_value. simpl. lia.
  - apply Z.eqb_neq in E.
    assert (36 <= n) as Hbig.
    { destruct (decide (n < 36)) as [Hlt|]; [|lia].
      rewrite Z.div_small in E by lia. done. }
    destruct k as [|[|k]]; [lia| |].
    { change (36 ^ Z.of_nat 1) with 36 in Hn. lia. }
    destruct (IH (n / 36) (digit36 (n mod 36) :: acc) (S k))
      as (ds & Eds & Hlen & Hall & Hv).
    + split; [apply Z.div_pos; lia|].
      apply Z.div_lt_upper_bound; [lia|].
      replace (36 * 36 ^ Z.of_nat (S k)) with (36 ^ Z.of_nat (S (S k)));
        [lia|].
      rewrite (Nat2Z.inj_succ (S k)), Z.pow_succ_r by lia. done.
    + lia.
    + pose proof (log2_div36 n Hbig).
      pose proof (Z.log2_nonneg (n / 36)). lia.
    + exists (ds ++ [digit36 (n mod 36)]). split.
      { rewrite Eds. by rewrite <- app_assoc. }
      split; [rewrite length_app; simpl; lia|].
      split; [apply Forall_app; split; [done|by repeat constructor]|].
      rewrite numeral36_snoc, Hv, Hval.
      pose proof (Z.div_mod n 36 ltac:(lia)). lia.
Qed.

Lemma obfuscate_numeral name :
  exists ds,
    obfuscate name = "_" ++ ds
    /\ (1 <= length ds <= 6)%nat
    /\ Forall (fun c => (is_digit c || is_lower c) = true) ds
    /\ numeral36_value ds = simpleHash name.
Proof.
  destruct (simpleHash_bounds name) as [H0 H1].
  destruct (digits36_spec (S (Z.to_nat (Z.log2 (simpleHash name))))
              (simpleHash name) [] 6) as (ds & E & Hlen & Hall & Hv).
  - change (36 ^ Z.of_nat 6) with 2176782336.
    change (2 ^ 31) with 2147483648 in H1. lia.
  - lia.
  - lia.
  - exists ds. unfold obfuscate, toString36. rewrite E, app_nil_r.
    split; [done|]. split; [lia|]. done.
Qed.

(** X11. [obfuscate] returns an underscore followed by one to six
    characters from [0-9a-z], the base-36 numeral of the hash of the name;
    two names get the same result exactly when their hashes are equal. *)
Theorem obfuscate_shape (name : str) :
  (exists ds,
     obfuscate name = "_" ++ ds
     /\ (1 <= length ds <= 6)%nat
     /\ Forall (fun c => (is_digit c || is_lower c) = true) ds
     /\ numeral36_value ds = simpleHash name)
  /\ forall other,
       obfuscate name = obfuscate other
       <-> simpleHash name = simpleHash other.
Proof.
  split; [apply obfuscate_numeral|].
  intros other. split.
  - intros E.
    destruct (obfuscate_numeral name) as (ds1 & E1 & _ & _ & <-).
    destruct (obfuscate_numeral other) as (ds2 & E2 & _ & _ & <-).
    rewrite E1, E2 in E. by injection E as ->.
  - intros E. unfold obfuscate. by rewrite E.
Qed.

End NameHash.

(** * The structure of a question block *)

Section QuestionBlock.
Import JS Regex MCQParser.

Lemma trimStart_id s :
  (forall c, head s = Some c -> is_space c = false) -> trimStart s = s.
Proof. destruct s as [|a s]; [done|]. intros H. simpl. by rewrite (H a). Qed.

Lemma trim_id s : trimmed s -> trim s = s.
Proof.
  intros [Hh Hl]. unfold trim, trimEnd. rewrite (trimStart_id s) by done.
  rewrite trimStart_id; [apply rev_involutive|].
  intros c Hc. apply Hl.
  by rewrite <- (last_rev_head (rev s)), rev_involutive in Hc.
Qed.

Lemma split_char_one_line s : Forall one_line (split_char nl s).
Proof.
  induction s as [|c s IH]; [by repeat constructor|]. simpl.
  destruct (char_eqb c nl) eqn:E.
  - constructor; [constructor|done].
  - assert (c <> nl) as Hc.
    { intros ->. by rewrite (proj2 (char_eqb_eq nl nl)) in E. }
    destruct (split_char nl s) as [|l ls].
    + constructor; [|constructor]. by constructor.
    + inversion IH; subst. constructor; [|done]. by constructor.
Qed.

Lemma block_lines_tidy block : Forall tidy (block_lines block).
Proof.
  unfold block_lines. apply Forall_forall. intros l Hl.
  apply list_elem_of_In, List.filter_In in Hl as [Hl Hne].
  apply List.in_map_iff in Hl as (x & <- & Hx).
  split; [by destruct (trim x)|]. split; [|apply trim_trimmed].
  apply trim_Forall.
  pose proof (split_char_one_line block) as H. rewrite Forall_forall in H.
  apply H. by apply list_elem_of_In.
Qed.

Lemma scan_question_spec lines i questionText :
  (Forall (fun l => looksLikeOption l = false) lines
   /\ scan_question lines i questionText
      = (accumulated questionText lines, 0))
  \/ exists pre l post,
       lines = pre ++ l :: post
       /\ Forall (fun l => looksLikeOption l = false) pre
       /\ looksLikeOption l = true
       /\ scan_question lines i questionText
          = (accumulated questionText pre, i + length pre).
Proof.
  revert i questionText.
  induction lines as [|line rest IH]; intros i questionText.
  - left. by split.
  - simpl. destruct (looksLikeOption line) eqn:E.
    + right. exists [], line, rest. simpl. rewrite Nat.add_0_r. by repeat split.
    + destruct (IH (S i) (questionText
                            ++ (if truthy questionText then " " else [])
                            ++ line))
        as [[Hall Hs]|(pre & l & post & -> & Hpre & Hl & Hs)].
      * left. split; [by constructor|done].
      * right. exists (line :: pre), l, post. simpl.
        replace (i + S (length pre)) with (S i + length pre) by lia.
        repeat split; try done. by constructor.
Qed.

Lemma accumulated_from q lines :
  truthy q = true -> Forall tidy lines ->
  accumulated q lines = q ++ concat (map (fun l => " " ++ l) lines).
Proof.
  intros Hq Hl. revert q Hq.
  induction Hl as [|l lines Hl _ IH]; intros q Hq; simpl.
  - by rewrite app_nil_r.
  - unfold accumulated in *. simpl. rewrite Hq, IH.
    + rewrite <- (app_assoc q). done.
    + by destruct q.
Qed.

Lemma join_from l lines :
  OCRUpload.join " " (l :: lines) = l ++ concat (map (fun x => " " ++ x) lines).
Proof.
  revert l. induction lines as [|x lines IH]; intros l.
  - simpl. by rewrite app_nil_r.
  - change (OCRUpload.join " " (l :: x :: lines))
      with (l ++ " " ++ OCRUpload.join " " (x :: lines)).
    by rewrite IH.
Qed.

Lemma accumulated_join lines :
  Forall tidy lines -> accumulated [] lines = OCRUpload.join " " lines.
Proof.
  intros Hl. destruct Hl as [|l lines Hl Hrest]; [done|].
  rewrite join_from. unfold accumulated. simpl.
  apply (accumulated_from l lines); [|done].
  destruct Hl as [Hne _]. by destruct l.
Qed.

Lemma concat_spaced_tidy l lines :
  tidy l -> Forall tidy lines ->
  tidy (l ++ concat (map (fun x => " " ++ x) lines)).
Proof.
  intros Hl Hlines. revert l Hl.
  induction Hlines as [|x lines Hx _ IH]; intros l Hl.
  - simpl. by rewrite app_nil_r.
  - cbn [map concat]. rewrite (app_assoc l). apply IH.
    destruct Hl as (Hne & Hone & Hh & Hlast).
    destruct Hx as (Hxne & Hxone & Hxh & Hxlast).
    split; [by destruct l|]. split.
    + apply Forall_app. split; [done|]. apply Forall_app. split; [|done].
      by repeat constructor.
    + split.
      * intros c. destruct l as [|a l]; [done|]. simpl. apply Hh.
      * intros c. rewrite app_assoc, last_app.
        destruct (last x) as [y|] eqn:E.
        -- intros [= <-]. by apply Hxlast.
        -- apply last_None in E. done.
Qed.

Lemma join_tidy lines :
  lines <> [] -> Forall tidy lines -> tidy (OCRUpload.join " " lines).
Proof.
  intros Hne Hl. destruct Hl as [|l lines Hl Hrest]; [done|].
  rewrite join_from. by apply concat_spaced_tidy.
Qed.

(** what [parseQuestionBlock] reads out of a block that it accepts *)
Lemma parseQuestionBlock_structure block mcq :
  parseQuestionBlock block = Some mcq ->
  exists questionLines first rest,
    block_lines block = questionLines ++ first :: rest
    /\ questionLines <> []
    /\ Forall (fun l => looksLikeOption l = false) questionLines
    /\ looksLikeOption first = true
    /\ rest <> []
    /\ question mcq = OCRUpload.join " " questionLines
    /\ options mcq = collect_options (first :: rest)
    /\ 2 <= length (options mcq) <= 6
    /\ number mcq = None.
Proof.
  unfold parseQuestionBlock. fold (block_lines block).
  pose proof (block_lines_tidy block) as Htidy.
  destruct (length (block_lines block) <? 3); [done|].
  destruct (scan_question_spec (block_lines block) 0 [])
    as [[_ ->]|(pre & l & post & E & Hpre & Hl & ->)].
  { by rewrite orb_true_r. }
  simpl. destruct (negb (truthy _) || _ || _) eqn:G; [done|].
  apply orb_false_iff in G as [G G3]. apply orb_false_iff in G as [G1 G2].
  apply Nat.eqb_neq in G2. apply Nat.leb_gt in G3.
  destruct (_ || _) eqn:Hlen; [done|]. intros [= <-]. simpl.
  apply orb_false_iff in Hlen as [H2 H6]. apply Nat.ltb_ge in H2, H6.
  rewrite E in *. rewrite length_app in G3. simpl in G3.
  apply Forall_app in Htidy as [Hq Ho].
  exists pre, l, post. split; [done|].
  split; [by destruct pre|]. split; [done|]. split; [done|].
  split; [destruct post; [simpl in G3; lia|done]|].
  rewrite drop_app_length in *.
  split; [|split; [done|split; [lia|done]]].
  rewrite accumulated_join by done.
  apply trim_id. apply join_tidy; [by destruct pre|done].
Qed.

(** X12. When [parseQuestionBlock] accepts a block, the non-empty trimmed
    lines of the block split into one or more question lines that do not
    look like options, the first line that does, and at least one more
    line; the question is the question lines joined by single spaces and
    the options are the cleaned option lines from the first one on, between
    two and six of them; lines among the options that do not look like an
    option are left out. *)
Theorem question_block_structure (block : str) (mcq : MCQ) :
  parseQuestionBlock block = Some mcq ->
  exists questionLines first rest,
    block_lines block = questionLines ++ first :: rest
    /\ questionLines <> []
    /\ Forall (fun l => looksLikeOption l = false) questionLines
    /\ looksLikeOption first = true
    /\ rest <> []
    /\ question mcq = OCRUpload.join " " questionLines
    /\ options mcq = collect_options (first :: rest)
    /\ 2 <= length (options mcq) <= 6
    /\ number mcq = None.
Proof. apply parseQuestionBlock_structure. Qed.

Lemma question_block_structure_witness :
  exists questionLines first rest,
    block_lines example_block = questionLines ++ first :: rest
    /\ questionLines <> []
    /\ Forall (fun l => looksLikeOption l = false) questionLines
    /\ looksLikeOption first = true
    /\ rest <> []
    /\ question example_mcq = OCRUpload.join " " questionLines
    /\ options example_mcq = collect_options (first :: rest)
    /\ 2 <= length (options example_mcq) <= 6
    /\ number example_mcq = None.
Proof.
  apply (question_block_structure example_block example_mcq).
  vm_compute. reflexivity.
Defined.

End QuestionBlock.

(** * What the parser reports *)

Section ParserOutput.
Import JS Regex MCQParser.

Lemma remove_first_Forall (P : ascii -> Prop) r s :
  Forall P s -> Forall P (remove_first r s).
Proof.
  intros Hs. unfold remove_first, exec.
  destruct (search_from r [] s) as [m|] eqn:E; [|done].
  apply search_from_suffix in E as [mid E].
  apply Forall_app. split; [by apply Forall_take|].
  rewrite E in Hs. by apply Forall_app in Hs as [_ ?].
Qed.

Lemma cleanOption_one_line line : one_line line -> one_line (cleanOption line).
Proof.
  intros H. unfold cleanOption.
  by apply trim_Forall; repeat apply remove_first_Forall.
Qed.

Lemma collect_options_tidy lines :
  Forall tidy lines -> Forall tidy (collect_options lines).
Proof.
  intros H. unfold collect_options. apply Forall_forall. intros o Ho.
  apply list_elem_of_In, List.filter_In in Ho as [Ho Hne].
  apply List.in_map_iff in Ho as (l & <- & Hl).
  apply List.filter_In in Hl as [Hl _]. apply list_elem_of_In in Hl.
  rewrite Forall_forall in H. destruct (H l Hl) as (_ & Hone & _).
  split; [by destruct (cleanOption l)|].
  split; [by apply cleanOption_one_line|apply trim_trimmed].
Qed.

Lemma parseQuestionBlock_tidy block mcq :
  parseQuestionBlock block = Some mcq ->
  tidy (question mcq) /\ Forall tidy (options mcq)
  /\ 2 <= length (options mcq) <= 6.
Proof.
  intros H.
  apply parseQuestionBlock_structure in H
    as (ql & first & rest & E & Hne & _ & _ & _ & -> & -> & Hn & _).
  pose proof (block_lines_tidy block) as Ht. rewrite E in Ht.
  apply Forall_app in Ht as [Hq Ho].
  split; [by apply join_tidy|]. split; [by apply collect_options_tidy|done].
Qed.

(** a property of every MCQ that [parse] reports, from the blocks *)
Lemma parse_Forall (P : MCQ -> Prop) text :
  (forall block mcq n,
     parseQuestionBlock block = Some mcq ->
     P (mkMCQ (question mcq) (options mcq) n)) ->
  exists mcqs, parse text = Returned mcqs /\ Forall P mcqs.
Proof.
  intros HP. unfold parse. destruct (_ || _); [by eexists|].
  eexists; split; [reflexivity|].
  apply Forall_forall. intros m Hm.
  apply elem_of_sublist with (l2 := run_strategies (strategies text)) in Hm;
    [|apply dedup_filter_sublist].
  revert m Hm. apply Forall_forall.
  rewrite run_strategies_candidates.
  apply Forall_flat_map. unfold strategies.
  assert (forall m, Forall P (block_of_match m)) as Hb.
  { intros m. unfold block_of_match.
    destruct (parseQuestionBlock _) as [mcq|] eqn:Hb; [|constructor].
    constructor; [by apply HP with (group m 2)|constructor]. }
  repeat apply Forall_cons_2; [| | |constructor]; unfold candidates.
  - apply Forall_flat_map, Forall_forall; intros; apply Hb.
  - apply Forall_flat_map, Forall_forall; intros; apply Hb.
  - apply Forall_flat_map, Forall_forall; intros block _.
    destruct (looksLikeQuestion block); [|constructor].
    destruct (parseQuestionBlock block) as [mcq|] eqn:Hbl; constructor;
      [|constructor].
    specialize (HP block mcq (number mcq) Hbl). by destruct mcq.
Qed.

(** X13. Every MCQ that [parse] reports has a question and options that
    are not empty, hold no line feed and have no white space at either
    end. *)
Theorem parse_reports_tidy_texts (text : str) :
  exists mcqs,
    parse text = Returned mcqs
    /\ Forall (fun mcq => tidy (question mcq) /\ Forall tidy (options mcq))
         mcqs.
Proof.
  apply parse_Forall. intros block mcq n H. simpl.
  by apply parseQuestionBlock_tidy in H as (? & ? & _).
Qed.

(** X14. On the MCQs that [parse] reports, [validate] never complains about
    the options: the only issue it can raise is the one about a question
    shorter than 10 code units, and the MCQ is valid exactly when the
    question has at least 10. *)
Theorem validate_after_parse (text : str) :
  exists mcqs,
    parse text = Returned mcqs
    /\ Forall (fun mcq =>
                 issues (validate mcq)
                 = (if length (question mcq) <? 10
                    then ["Question too short or missing"] else [])
                 /\ isValid (validate mcq) = (10 <=? length (question mcq)))
         mcqs.
Proof.
  apply parse_Forall. intros block mcq n H.
  apply parseQuestionBlock_tidy in H as ((Hq & _) & Ho & Hn).
  unfold validate. cbn [question options issues isValid].
  assert (truthy (question mcq) = true) as -> by by destruct (question mcq).
  assert ((length (options mcq) <? 2) = false) as -> by (apply Nat.ltb_ge; lia).
  assert ((6 <? length (options mcq)) = false) as -> by (apply Nat.ltb_ge; lia).
  assert (List.filter (fun opt => length opt <? 1) (options mcq) = []) as ->.
  { clear Hn. induction Ho as [|o os [Hne _] _ IH]; [done|]. simpl.
    destruct o; [done|]. simpl. exact IH. }
  cbn [orb negb].
  destruct (length (question mcq) <? 10) eqn:E.
  - split; [reflexivity|]. change (false = (10 <=? length (question mcq))).
    symmetry. apply Nat.leb_gt. by apply Nat.ltb_lt.
  - split; [reflexivity|]. change (true = (10 <=? length (question mcq))).
    symmetry. apply Nat.leb_le. by apply Nat.ltb_ge.
Qed.

End ParserOutput.

(** * Resolvers return options of the list *)

Section ResolvedOptions.
Import JS.

Lemma fuzzy_accept_elem cleanAnswer (options : list PageOption) o :
  Highlighter.fuzzy_accept cleanAnswer
    (fold_left (Highlighter.fuzzy_step cleanAnswer) options (None, None))
  = Some o ->
  o ∈ options.
Proof.
  destruct options as [|x rest]; [done|].
  destruct (fuzzy_loop_best cleanAnswer (x :: rest))
    as (i & best & Hi & _ & _ & ->); [done|].
  unfold Highlighter.fuzzy_accept. destruct (Highlighter.below_40_percent _ _); [|done].
  intros [= <-]. by apply list_elem_of_lookup_2 in Hi.
Qed.

Lemma findMatchingOption_elem (options : list PageOption) answer o :
  Highlighter.findMatchingOption options answer = Some o -> o ∈ options.
Proof.
  unfold Highlighter.findMatchingOption, Highlighter.resolve.
  match goal with
  | |- context [List.find ?p options] =>
      destruct (List.find p options) as [x|] eqn:E1
  end.
  { simpl. intros [= <-]. by apply find_some_elem in E1 as [? _]. }
  match goal with
  | |- context [List.find ?p options] =>
      destruct (List.find p options) as [x|] eqn:E2
  end.
  { simpl. intros [= <-]. by apply find_some_elem in E2 as [? _]. }
  destruct (Regex.exec _ answer ≫= _) as [x|] eqn:E3.
  { simpl. intros [= <-]. destruct (Regex.exec _ answer) as [m|]; [|done].
    simpl in E3. by apply (option_at_elem options) in E3. }
  destruct (Highlighter.fuzzy_accept _ _) as [x|] eqn:E4; [|done].
  simpl. intros [= <-]. by apply fuzzy_accept_elem in E4.
Qed.

Lemma matchAnswerToOption_elem answer (options : list str) o :
  AIService._matchAnswerToOption answer options = Some o -> o ∈ options.
Proof.
  unfold AIService._matchAnswerToOption, AIService.resolve.
  match goal with
  | |- context [List.find ?p options] =>
      destruct (List.find p options) as [x|] eqn:E1
  end.
  { simpl. intros [= <-]. by apply find_some_elem in E1 as [? _]. }
  match goal with
  | |- context [List.find ?p options] =>
      destruct (List.find p options) as [x|] eqn:E2
  end.
  { simpl. intros [= <-]. by apply find_some_elem in E2 as [? _]. }
  match goal with
  | |- context [List.find ?p options] =>
      destruct (List.find p options) as [x|] eqn:E3
  end.
  { simpl. intros [= <-]. by apply find_some_elem in E3 as [? _]. }
  destruct (Regex.exec _ answer ≫= _) as [x|] eqn:E4; [|done].
  simpl. intros [= <-]. destruct (Regex.exec _ answer) as [m|]; [|done].
  simpl in E4. by apply option_at_elem in E4.
Qed.

(** X15. Neither resolver makes up an option: what [findMatchingOption]
    and [_matchAnswerToOption] return, at whatever tier, is an element of
    the option list they were given. *)
Theorem resolvers_return_listed_options :
  (forall (options : list PageOption) (answer : str) (o : PageOption),
     Highlighter.findMatchingOption options answer = Some o -> o ∈ options)
  /\ (forall (answer : str) (options : list str) (o : str),
        AIService._matchAnswerToOption answer options = Some o ->
        o ∈ options).
Proof.
  split.
  - apply findMatchingOption_elem.
  - apply matchAnswerToOption_elem.
Qed.

Lemma resolvers_return_listed_options_witness :
  page_option 1 "Berlin" ∈ [page_option 0 "Paris"; page_option 1 "Berlin"]
  /\ "Berlin" ∈ ["Paris"; "Berlin"].
Proof.
  split.
  - apply (proj1 resolvers_return_listed_options
             [page_option 0 "Paris"; page_option 1 "Berlin"] "berlim").
    vm_compute. reflexivity.
  - apply (proj2 resolvers_return_listed_options "B) the second"
             ["Paris"; "Berlin"]).
    vm_compute. reflexivity.
Defined.

Lemma listed_answer_found (options : list PageOption) (o : str) :
  o ∈ text <$> options ->
  exists opt,
    Highlighter.resolve options o = Some (Exact, opt)
    /\ Highlighter.findMatchingOption options o = Some opt
    /\ Highlighter.clean (text opt) = Highlighter.clean o.
Proof.
  intros (x & -> & Hx)%list_elem_of_fmap.
  destruct (find_first
              (fun option => str_eqb (Highlighter.clean (text option))
                               (Highlighter.clean (text x)))
              options x Hx (str_eqb_refl _))
    as (i & y & _ & Hy & _ & Hfind).
  exists y. unfold Highlighter.findMatchingOption, Highlighter.resolve.
  rewrite Hfind. repeat split. by apply str_eqb_eq.
Qed.

Lemma is_space_lower c : is_space (lower_char c) = is_space c.
Proof. by destruct c as [[] [] [] [] [] [] [] []]. Qed.

Lemma trimStart_lower s : trimStart (toLowerCase s) = toLowerCase (trimStart s).
Proof.
  induction s as [|c s IH]; [done|]. simpl.
  rewrite is_space_lower. by destruct (is_space c).
Qed.

Lemma trim_lower s : trim (toLowerCase s) = toLowerCase (trim s).
Proof.
  unfold trim, trimEnd, toLowerCase.
  fold (toLowerCase s). rewrite trimStart_lower. unfold toLowerCase.
  rewrite <- map_rev. fold (toLowerCase (rev (trimStart s))).
  rewrite trimStart_lower. unfold toLowerCase. by rewrite map_rev.
Qed.

Lemma trim_trim s : trim (trim s) = trim s.
Proof. apply trim_id, trim_trimmed. Qed.

(** a text whose white space is single blanks is left as it is *)
Lemma squeeze_single (b : bool) (s : str) :
  only_blanks s -> no_double_blank s ->
  (b = true -> forall c, head s = Some c -> is_space c = false) ->
  squeeze is_space " " b s = s.
Proof.
  revert b. induction s as [|c s IH]; intros b Hob Hnd Hb; [done|].
  apply Forall_cons in Hob as [Hc Hob].
  assert (no_double_blank s) as Hnd'.
  { intros i Hi. apply (Hnd (S i)). exact Hi. }
  simpl. destruct (is_space c) eqn:Ec.
  - destruct b; [by rewrite (Hb eq_refl c eq_refl) in Ec|].
    rewrite (Hc eq_refl) in *. simpl. f_equal. apply IH; [done..|].
    intros _ d Hd. destruct s as [|x s]; [done|]. injection Hd as ->.
    destruct (is_space d) eqn:Ed; [|done]. exfalso.
    apply Forall_cons in Hob as [Hd _]. specialize (Hd Ed). subst d.
    by apply (Hnd 0).
  - f_equal. apply IH; [done..|]. intros [=].
Qed.

Lemma filter_angle_id (s : str) :
  Forall (fun c => c <> "<"%char /\ c <> ">"%char) s ->
  List.filter (fun c => negb (Validator.angle c)) s = s.
Proof.
  induction 1 as [|c s [H1 H2] _ IH]; [done|]. simpl.
  unfold Validator.angle at 1. cbn [existsb].
  destruct (char_eqb c "<") eqn:E1; [by apply char_eqb_eq in E1|].
  destruct (char_eqb c ">") eqn:E2; [by apply char_eqb_eq in E2|].
  simpl. by rewrite IH.
Qed.

(** on such a text the sanitizer only trims *)
Lemma sanitized_plain (t : str) :
  Forall (fun c => c <> "<"%char /\ c <> ">"%char) t ->
  only_blanks (trim t) -> no_double_blank (trim t) ->
  Validator.sanitized t = trim t.
Proof.
  intros Hangle Hob Hnd. unfold Validator.sanitized.
  rewrite replaceAll_runs, replaceAll_class.
  rewrite filter_angle_id by (by apply trim_Forall).
  apply squeeze_single; [done..|]. intros [=].
Qed.

Lemma normalised_answer_found (options : list PageOption) (x : PageOption)
    (o : str) :
  x ∈ options ->
  trim (toLowerCase (text x)) = trim (toLowerCase o) ->
  exists opt,
    Highlighter.resolve options o = Some (Exact, opt)
    /\ Highlighter.findMatchingOption options o = Some opt
    /\ trim (toLowerCase (text opt)) = trim (toLowerCase o).
Proof.
  intros Hx Heq.
  destruct (find_first
              (fun option => str_eqb (Highlighter.clean (text option))
                               (Highlighter.clean o))
              options x Hx)
    as (i & y & _ & Hy & _ & Hfind).
  { by apply str_eqb_eq. }
  exists y. unfold Highlighter.findMatchingOption, Highlighter.resolve.
  rewrite Hfind. repeat split. by apply str_eqb_eq in Hy.
Qed.

Lemma fallbackParse_elem response (options : list str) o :
  AIService.answer (AIService._fallbackParse response options) = Some o ->
  o ∈ options.
Proof.
  intros H. unfold AIService._fallbackParse in H.
  destruct (Regex.exec _ response ≫= _) as [x|] eqn:E1.
  { injection H as <-. destruct (Regex.exec _ response) as [m|]; [|done].
    simpl in E1. by apply option_at_elem in E1. }
  match goal with
  | H : context [List.find ?p ?l] |- _ =>
      destruct (List.find p l) as [x|] eqn:E2
  end.
  { injection H as <-. by apply find_some_elem in E2 as [? _]. }
  simpl in H. by apply list_elem_of_lookup_2 in H.
Qed.

Lemma sanitizeText_strings (texts : list str) :
  map Validator.sanitizeText (Validator.VString <$> texts)
  = Validator.VString <$> (Validator.sanitized <$> texts).
Proof. induction texts as [|t l IH]; [done|]. simpl. by f_equal. Qed.

(** X16. What the service answers and what the page finds.  The answer
    route hands to the service the option texts of the page after
    [sanitizeText].  When every option text of the page is free of '<' and
    '>' and its white space, once it is trimmed, is single blanks, and the
    service has matched the model's answer to one of the texts it was
    given or has fallen back on [_fallbackParse], then the answer it
    returns is found again by [findMatchingOption] on the page, at the
    exact tier, in an option with the same lower-cased, trimmed text.
    Without the condition it need not be: of the options "x < 5" and
    "x > 5" the service is given "x 5" twice, it answers "x 5" to the
    response "A. x < 5", and the page finds no option for "x 5". *)
Theorem service_answer_found_on_page :
  (forall (answerMCQ : str -> list str -> outcome AIService.Answer)
          (question : str) (options : list PageOption),
     let body :=
       Validator.mkBody (Validator.VString question)
         (Validator.VArray (Validator.VString <$> (text <$> options))) in
     (exists errors,
        errors <> []
        /\ AnswerRoute.post answerMCQ body = AnswerRoute.Rejected errors)
     \/ AnswerRoute.post answerMCQ body
        = AnswerRoute.handler answerMCQ (Validator.sanitized question)
            (Validator.sanitized <$> (text <$> options)))
  /\
  (forall (options : list PageOption) (response o : str),
     (forall x, x ∈ options ->
        Forall (fun c => c <> "<"%char /\ c <> ">"%char) (text x)
        /\ only_blanks (trim (text x))
        /\ no_double_blank (trim (text x))) ->
     AIService._matchAnswerToOption response
       (Validator.sanitized <$> (text <$> options)) = Some o
     \/ AIService.answer
          (AIService._fallbackParse response
             (Validator.sanitized <$> (text <$> options)))
        = Some o ->
     exists opt,
       Highlighter.resolve options o = Some (Exact, opt)
       /\ Highlighter.findMatchingOption options o = Some opt
       /\ trim (toLowerCase (text opt)) = trim (toLowerCase o))
  /\
  (Validator.sanitized <$> ["x < 5"; "x > 5"] = ["x 5"; "x 5"]
   /\ AIService._matchAnswerToOption "A. x < 5" ["x 5"; "x 5"] = Some "x 5"
   /\ Highlighter.resolve [page_option 0 "x < 5"; page_option 1 "x > 5"]
        "x 5" = None
   /\ Highlighter.findMatchingOption
        [page_option 0 "x < 5"; page_option 1 "x > 5"] "x 5" = None).
Proof.
  split; [|split; [|repeat split; vm_compute; reflexivity]].
  - intros answerMCQ question options body. subst body.
    unfold AnswerRoute.post. cbv zeta.
    destruct (Validator.validateAnswerRequest _) as [|e errors] eqn:E.
    2:{ left. by exists (e :: errors). }
    right. revert E. unfold Validator.sanitizeRequest.
    cbn [Validator.question Validator.options Validator.truthy_value].
    rewrite sanitizeText_strings.
    destruct (truthy question) eqn:Hq.
    + intros _. cbn [Validator.sanitizeText]. by rewrite strings_fmap.
    + unfold Validator.validateAnswerRequest, Validator.question_errors.
      cbn [Validator.question Validator.truthy_value]. rewrite Hq. done.
  - intros options response o Hplain Hanswer.
    assert (o ∈ Validator.sanitized <$> (text <$> options)) as Hin.
    { destruct Hanswer as [H|H].
      - by apply matchAnswerToOption_elem in H.
      - by apply fallbackParse_elem in H. }
    apply list_elem_of_fmap in Hin as (t & -> & Ht).
    apply list_elem_of_fmap in Ht as (x & -> & Hx).
    destruct (Hplain x Hx) as (Hangle & Hob & Hnd).
    apply (normalised_answer_found options x); [done|].
    rewrite sanitized_plain by done.
    by rewrite <- trim_lower, trim_trim.
Qed.

Lemma service_answer_found_on_page_witness :
  exists opt,
    Highlighter.resolve [page_option 0 "  Paris "; page_option 1 "New York"]
      "Paris"
    = Some (Exact, opt)
    /\ Highlighter.findMatchingOption
         [page_option 0 "  Paris "; page_option 1 "New York"] "Paris"
       = Some opt
    /\ trim (toLowerCase (text opt)) = trim (toLowerCase "Paris").
Proof.
  apply (proj1 (proj2 service_answer_found_on_page)
           [page_option 0 "  Paris "; page_option 1 "New York"]
           "It is paris, I think").
  - intros x Hx.
    repeat (apply elem_of_cons in Hx as [->|Hx];
            [vm_compute; split; [|split];
             [repeat constructor; discriminate
             |repeat constructor; discriminate
             |intros [|[|[|[|[|[|[|[|i]]]]]]]]; vm_compute; congruence]|]).
    by apply elem_of_nil in Hx.
  - right. vm_compute. reflexivity.
Defined.

End ResolvedOptions.

(** * Deduplication, once more *)

Section DeduplicateTwice.
Context {M : Type} (question : M -> str).

Lemma dedup_filter_distinct (seen : gset str) (mcqs : list M) :
  NoDup (dedup_key question <$> mcqs) ->
  (forall m, m ∈ mcqs -> dedup_key question m ∉ seen) ->
  dedup_filter question seen mcqs = mcqs.
Proof.
  revert seen. induction mcqs as [|x l IH]; intros seen Hnd Hout; [done|].
  simpl. rewrite decide_False by (apply Hout; by left).
  rewrite fmap_cons in Hnd. apply NoDup_cons in Hnd as [Hx Hnd].
  f_equal. apply IH; [done|].
  intros m Hm [Hk%elem_of_singleton|Hk]%elem_of_union.
  - apply Hx. rewrite <- Hk. by apply list_elem_of_fmap_2.
  - apply (Hout m); [by right|done].
Qed.

Lemma dedup_filter_twice (mcqs : list M) :
  dedup_filter question ∅ (dedup_filter question ∅ mcqs)
  = dedup_filter question ∅ mcqs.
Proof.
  apply dedup_filter_distinct; [apply dedup_filter_NoDup|].
  intros m _. apply not_elem_of_empty.
Qed.

End DeduplicateTwice.

(** X17. Deduplicating twice is deduplicating once, in the extractor and in
    the parser; and a list is returned as it is exactly when its questions
    differ from one another after lower-casing and trimming. *)
Theorem deduplicate_idempotent :
  (forall mcqs : list MCQExtractor.MCQ,
     MCQExtractor.deduplicate (MCQExtractor.deduplicate mcqs)
     = MCQExtractor.deduplicate mcqs)
  /\ (forall mcqs : list MCQParser.MCQ,
        MCQParser.deduplicate (MCQParser.deduplicate mcqs)
        = MCQParser.deduplicate mcqs)
  /\ (forall mcqs : list MCQExtractor.MCQ,
        NoDup ((fun m => JS.trim (JS.toLowerCase (MCQExtractor.question m)))
                 <$> mcqs)
        <-> MCQExtractor.deduplicate mcqs = mcqs)
  /\ (forall mcqs : list MCQParser.MCQ,
        NoDup ((fun m => JS.trim (JS.toLowerCase (MCQParser.question m)))
                 <$> mcqs)
        <-> MCQParser.deduplicate mcqs = mcqs).
Proof.
  split; [|split; [|split]]; intros mcqs.
  - apply dedup_filter_twice.
  - apply dedup_filter_twice.
  - split.
    + intros H. apply (dedup_filter_distinct MCQExtractor.question); [done|].
      intros m _. apply not_elem_of_empty.
    + intros H. rewrite <- H.
      apply (dedup_filter_NoDup MCQExtractor.question ∅ mcqs).
  - split.
    + intros H. apply (dedup_filter_distinct MCQParser.question); [done|].
      intros m _. apply not_elem_of_empty.
    + intros H. rewrite <- H.
      apply (dedup_filter_NoDup MCQParser.question ∅ mcqs).
Qed.

Lemma deduplicate_idempotent_witness :
  MCQParser.deduplicate
    [MCQParser.mkMCQ "Capital of France?" ["Paris"; "Rome"] None;
     MCQParser.mkMCQ "Capital  of France?" ["Paris"; "Rome"] None;
     MCQParser.mkMCQ " CAPITAL OF SPAIN? " ["Madrid"; "Rome"] None]
  = [MCQParser.mkMCQ "Capital of France?" ["Paris"; "Rome"] None;
     MCQParser.mkMCQ "Capital  of France?" ["Paris"; "Rome"] None;
     MCQParser.mkMCQ " CAPITAL OF SPAIN? " ["Madrid"; "Rome"] None].
Proof.
  apply (proj1 (proj2 (proj2 (proj2 deduplicate_idempotent)) _)).
  apply (bool_decide_unpack _). vm_compute. reflexivity.
Defined.

(** * Allowed origins *)

Section Origins.
Import JS Regex Server.

Lemma char_eqb_sym a b : char_eqb a b = char_eqb b a.
Proof.
  destruct (char_eqb a b) eqn:E.
  - apply char_eqb_eq in E as ->. symmetry. by apply char_eqb_eq.
  - destruct (char_eqb b a) eqn:E'; [|done].
    apply char_eqb_eq in E' as ->. by rewrite (proj2 (char_eqb_eq a a)) in E.
Qed.

Lemma includes_star w : includes (w ++ "*") "*" = true.
Proof. induction w as [|c w IH]; [done|]. simpl in *. by rewrite IH, orb_true_r. Qed.

Lemma replace_star_plain w :
  plain w -> replace_star (w ++ "*") = w ++ ".*".
Proof.
  induction 1 as [|c w Hc _ IH]; [done|].
  change ((c :: w) ++ "*") with (c :: (w ++ "*")).
  cbn [replace_star]. destruct (char_eqb c "*") eqn:E.
  - apply char_eqb_eq in E as ->. done.
  - by rewrite IH.
Qed.

Lemma compile_plain w : plain w -> compile (w ++ ".*") = Some (prefix_pattern w).
Proof.
  induction 1 as [|c w Hc Hw IH]; [done|].
  change ((c :: w) ++ ".*") with (c :: (w ++ ".*")).
  cbn [compile]. rewrite Hc.
  assert (char_eqb c "." = false) as ->.
  { destruct (char_eqb c ".") eqn:E; [|done].
    apply char_eqb_eq in E as ->. done. }
  destruct (w ++ ".*") as [|s rest'] eqn:Ew.
  { by destruct w. }
  assert (char_eqb s "*" = false) as ->.
  { destruct (char_eqb s "*") eqn:E; [|done].
    apply char_eqb_eq in E as ->.
    destruct w as [|x w']; [done|].
    injection Ew as -> _. by inversion Hw. }
  rewrite IH. done.
Qed.

Lemma prefix_pattern_match w bef aft :
  is_Some (match_at (prefix_pattern w) (Pos bef aft)) <-> startsWith aft w = true.
Proof.
  unfold match_at. revert bef aft.
  induction w as [|c w IH]; intros bef aft.
  - simpl prefix_pattern. rewrite rx_seq, rx_star.
    split; [by destruct aft|]. intros _.
    eexists. apply star_class_longest; [simpl; lia|]. reflexivity.
  - simpl prefix_pattern. rewrite rx_seq. unfold Lit.
    destruct aft as [|a aft].
    + rewrite rx_class_nil. split; [by intros [? ?]|done].
    + rewrite rx_class_cons. simpl startsWith.
      rewrite (char_eqb_sym a c). destruct (char_eqb c a); simpl.
      * apply IH.
      * split; [by intros [? ?]|done].
Qed.

Lemma prefix_pattern_search w bef aft :
  is_Some (search_from (prefix_pattern w) bef aft) <-> includes aft w = true.
Proof.
  revert bef. induction aft as [|a aft IH]; intros bef.
  - cbn [search_from includes]. rewrite orb_false_r.
    pose proof (prefix_pattern_match w bef []) as H.
    destruct (match_at (prefix_pattern w) (Pos bef [])) as [[e c]|].
    + split; [intros _; by apply H|done].
    + split; [by intros [? ?]|]. intros Hs. apply H in Hs as [? ?]. done.
  - cbn [search_from includes]. rewrite orb_true_iff.
    pose proof (prefix_pattern_match w bef (a :: aft)) as H.
    destruct (match_at (prefix_pattern w) (Pos bef (a :: aft))) as [[e c]|].
    + split; [intros _; left; by apply H|done].
    + rewrite (IH (a :: bef)). split; [by right|].
      intros [Hs|Hs]; [|done]. apply H in Hs as [? ?]. done.
Qed.

Lemma wildcard_pattern w origin :
  plain w -> origin_matches origin (w ++ "*") = Some (includes origin w).
Proof.
  intros Hw. unfold origin_matches. rewrite includes_star.
  rewrite replace_star_plain, compile_plain by done. simpl.
  f_equal. unfold test, exec.
  pose proof (prefix_pattern_search w [] origin) as H.
  destruct (search_from (prefix_pattern w) [] origin) as [m|].
  - symmetry. apply H. by eexists.
  - destruct (includes origin w); [|done].
    destruct (proj2 H eq_refl) as [? ?]. done.
Qed.

(** X18. A wildcard entry of the allowed origins is not anchored: an entry
    made of a plain text and a star lets in every origin that contains the
    text, wherever it occurs.  With the default entries a request goes on
    when it has no origin, the origin [http://localhost:3000], or an
    origin that contains [chrome-extension://]; every other request is
    answered 401 by the error handler. *)
Theorem wildcard_origin_matches_anywhere :
  (forall w origin : str,
     plain w -> origin_matches origin (w ++ "*") = Some (includes origin w))
  /\ (forall origin : str,
        cors ALLOWED_ORIGINS (Some origin)
        = Some (if negb (truthy origin)
                   || str_eqb origin "http://localhost:3000"
                   || includes origin "chrome-extension://"
                then None
                else Some (401, "CORS policy: Origin not allowed")))
  /\ cors ALLOWED_ORIGINS None = Some None.
Proof.
  split; [apply wildcard_pattern|]. split; [|done].
  intros origin. unfold cors. destruct (negb (truthy origin)); [done|].
  unfold ALLOWED_ORIGINS. cbn [some_pattern].
  change "chrome-extension://*" with ("chrome-extension://" ++ "*").
  rewrite wildcard_pattern by (by repeat constructor).
  unfold origin_matches at 1.
  change (includes "http://localhost:3000" "*") with false. cbn [mbind option_bind].
  destruct (str_eqb origin "http://localhost:3000"); [done|].
  by destruct (includes origin "chrome-extension://").
Qed.

Lemma wildcard_origin_matches_anywhere_witness :
  origin_matches "https://example.org/chrome-extension://x"
    ("chrome-extension://" ++ "*")
  = Some (includes "https://example.org/chrome-extension://x"
            "chrome-extension://").
Proof.
  apply (proj1 wildcard_origin_matches_anywhere "chrome-extension://").
  by repeat constructor.
Defined.

End Origins.

(** * A blank answer *)

Section BlankAnswer.
Import JS.

Lemma includes_nil s : includes s [] = true.
Proof. by destruct s. Qed.

(** X19. An answer that is blank once lower-cased and trimmed is contained
    in every option text, so that neither resolver returns the no-match
    value for it on a non-empty list: both return an option at the exact or
    at the substring tier, and this is the first option when no option text
    is blank itself. *)
Theorem blank_answer_takes_an_option
    (answer : str) (first : PageOption) (rest : list PageOption) :
  trim (toLowerCase answer) = [] ->
  (exists t o,
     Highlighter.resolve (first :: rest) answer = Some (t, o)
     /\ (t = Exact \/ t = Substring)
     /\ ((forall x, x ∈ first :: rest -> Highlighter.clean (text x) <> []) ->
         t = Substring /\ o = first))
  /\ (exists t o,
        AIService.resolve answer (text <$> first :: rest) = Some (t, o)
        /\ (t = Exact \/ t = Substring)
        /\ ((forall x, x ∈ first :: rest -> Highlighter.clean (text x) <> []) ->
            t = Substring /\ o = text first)).
Proof.
  intros Hblank. split.
  - unfold Highlighter.resolve.
    change (Highlighter.clean answer) with (trim (toLowerCase answer)).
    rewrite Hblank.
    match goal with
    | |- context [List.find ?p (first :: rest)] =>
        destruct (List.find p (first :: rest)) as [o|] eqn:E1
    end.
    + exists Exact, o. split; [done|]. split; [by left|].
      intros Hno. apply find_some_elem in E1 as [Hin Ho].
      apply str_eqb_eq in Ho. by destruct (Hno o Hin).
    + exists Substring, first. cbn [List.find]. rewrite includes_nil.
      by repeat split; try right.
  - unfold AIService.resolve. rewrite Hblank.
    match goal with
    | |- context [List.find ?p (text <$> first :: rest)] =>
        destruct (List.find p (text <$> first :: rest)) as [o|] eqn:E1
    end.
    + exists Exact, o. split; [done|]. split; [by left|].
      intros Hno. apply find_some_elem in E1 as [Hin Ho].
      apply str_eqb_eq in Ho.
      apply list_elem_of_fmap in Hin as (x & -> & Hx). by destruct (Hno x Hx).
    + match goal with
      | |- context [List.find ?p (text <$> first :: rest)] =>
          destruct (List.find p (text <$> first :: rest)) as [o|] eqn:E2
      end.
      * exists Substring, o. split; [done|]. split; [by right|].
        intros Hno. apply find_some_elem in E2 as [Hin Ho].
        apply list_elem_of_fmap in Hin as (x & -> & Hx).
        specialize (Hno x Hx). unfold Highlighter.clean in Hno.
        destruct (trim (toLowerCase (text x))); done.
      * exists Substring, (text first). rewrite fmap_cons. cbn [List.find].
        rewrite includes_nil. by repeat split; try right.
Qed.

Lemma blank_answer_takes_an_option_witness :
  Highlighter.findMatchingOption [page_option 0 "Paris"; page_option 1 "Rome"]
    "   "
  = Some (page_option 0 "Paris").
Proof.
  destruct (blank_answer_takes_an_option "   " (page_option 0 "Paris")
              [page_option 1 "Rome"] eq_refl) as [(t & o & E & _ & H) _].
  unfold Highlighter.findMatchingOption. rewrite E. simpl.
  destruct H as [_ ->]; [|done].
  intros x Hx. apply elem_of_cons in Hx as [->|Hx]; [done|].
  apply list_elem_of_singleton in Hx as ->. done.
Defined.

End BlankAnswer.

(** * The edit distance is a metric *)

Section Metric.
Import Edit.

Lemma edits_same s : edits s s 0.
Proof. induction s as [|x s IH]; [constructor|by constructor]. Qed.

Lemma edits_zero s t n : edits s t n -> n = 0 -> s = t.
Proof.
  induction 1 as [|x s t n _ IH| | |]; intros Hn; try done.
  by rewrite IH.
Qed.

Lemma edits_lengths s t n :
  edits s t n -> length s <= length t + n /\ length t <= length s + n.
Proof. induction 1; simpl; lia. Qed.

Lemma edits_longest s t : edits s t (Nat.max (length s) (length t)).
Proof.
  revert t. induction s as [|x s IH]; intros t.
  - apply edits_insert_all.
  - destruct t as [|y t].
    + apply (edits_delete_all (x :: s)).
    + simpl. apply edits_substitute, IH.
Qed.

(** two scripts in a row are a script *)
Lemma edits_trans t u m :
  edits t u m ->
  forall s n, edits s t n -> exists k, k <= n + m /\ edits s u k.
Proof.
  induction 1 as [|y t u m _ IH|y z t u m _ IH|y t u m _ IH|z t u m _ IH];
    intros s n H1.
  - exists n. split; [lia|done].
  - remember (y :: t) as t0 eqn:Et.
    induction H1 as [|x s' t' n' H1 _|x y' s' t' n' H1 _|x s' t' n' H1 IH1
                     |y' s' t' n' H1 _].
    + done.
    + injection Et as -> ->. destruct (IH _ _ H1) as (k & Hk & He).
      exists k. split; [lia|by constructor].
    + injection Et as -> ->. destruct (IH _ _ H1) as (k & Hk & He).
      exists (S k). split; [lia|by constructor].
    + destruct (IH1 Et) as (k & Hk & He).
      exists (S k). split; [lia|by constructor].
    + injection Et as -> ->. destruct (IH _ _ H1) as (k & Hk & He).
      exists (S k). split; [lia|by constructor].
  - remember (y :: t) as t0 eqn:Et.
    induction H1 as [|x s' t' n' H1 _|x y' s' t' n' H1 _|x s' t' n' H1 IH1
                     |y' s' t' n' H1 _].
    + done.
    + injection Et as -> ->. destruct (IH _ _ H1) as (k & Hk & He).
      exists (S k). split; [lia|by constructor].
    + injection Et as -> ->. destruct (IH _ _ H1) as (k & Hk & He).
      exists (S k). split; [lia|by constructor].
    + destruct (IH1 Et) as (k & Hk & He).
      exists (S k). split; [lia|by constructor].
    + injection Et as -> ->. destruct (IH _ _ H1) as (k & Hk & He).
      exists (S k). split; [lia|by constructor].
  - remember (y :: t) as t0 eqn:Et.
    induction H1 as [|x s' t' n' H1 _|x y' s' t' n' H1 _|x s' t' n' H1 IH1
                     |y' s' t' n' H1 _].
    + done.
    + injection Et as -> ->. destruct (IH _ _ H1) as (k & Hk & He).
      exists (S k). split; [lia|by constructor].
    + injection Et as -> ->. destruct (IH _ _ H1) as (k & Hk & He).
      exists (S k). split; [lia|by constructor].
    + destruct (IH1 Et) as (k & Hk & He).
      exists (S k). split; [lia|by constructor].
    + injection Et as -> ->. destruct (IH _ _ H1) as (k & Hk & He).
      exists k. split; [lia|done].
  - destruct (IH _ _ H1) as (k & Hk & He).
    exists (S k). split; [lia|by constructor].
Qed.

(** X20. [levenshteinDistance] is a metric on strings: it is zero exactly
    on equal strings, does not depend on the order of its arguments, and
    obeys the triangle inequality; it lies between the difference of the
    two lengths and the larger of them. *)
Theorem levenshteinDistance_metric (a b c : str) :
  (Highlighter.levenshteinDistance a b = 0 <-> a = b)
  /\ Highlighter.levenshteinDistance a b = Highlighter.levenshteinDistance b a
  /\ Highlighter.levenshteinDistance a c
     <= Highlighter.levenshteinDistance a b
        + Highlighter.levenshteinDistance b c
  /\ Nat.max (length a) (length b) - Nat.min (length a) (length b)
     <= Highlighter.levenshteinDistance a b
  /\ Highlighter.levenshteinDistance a b <= Nat.max (length a) (length b).
Proof.
  destruct (levenshtein_is_distance a b) as [Hab Mab].
  destruct (levenshtein_is_distance b a) as [Hba Mba].
  destruct (levenshtein_is_distance b c) as [Hbc Mbc].
  destruct (levenshtein_is_distance a c) as [Hac Mac].
  split; [|split; [|split; [|split]]].
  - split.
    + by apply edits_zero.
    + intros <-. specialize (Mab 0 (edits_same a)). lia.
  - apply edits_sym in Hab as Hab'. apply edits_sym in Hba as Hba'.
    specialize (Mab _ Hba'). specialize (Mba _ Hab'). lia.
  - destruct (edits_trans _ _ _ Hbc _ _ Hab) as (k & Hk & He).
    specialize (Mac _ He). lia.
  - apply edits_lengths in Hab. lia.
  - apply Mab, edits_longest.
Qed.

End Metric.

(** * One highlight at a time *)

Section OneHighlight.
Import Highlighter.
Context (show : PrimFloat.float -> str) (stealthUtils : bool).
Context (round : PrimFloat.float -> PrimFloat.float).
Context {Declaration Children : Type}.
Context (get_property : str -> Declaration -> str).
Context (set_property : str -> str -> Declaration -> Declaration).
Context (remove_badge : DOM.handle -> Children -> Children).
Context (appendChild : DOM.handle -> Badge -> Children -> Children).

Abbreviation State' := (@State Declaration Children).
Abbreviation Page' := (@Page Declaration Children).
Abbreviation clear_one' := (@clear_one Declaration Children set_property remove_badge).
Abbreviation clearHighlights' :=
  (@clearHighlights Declaration Children set_property remove_badge).
Abbreviation highlight' :=
  (highlight show stealthUtils round get_property set_property remove_badge
     appendChild).
Abbreviation highlightMultiple' :=
  (highlightMultiple show stealthUtils round get_property set_property
     remove_badge appendChild).

Lemma clear_highlighted (l : list (DOM.handle * properties)) (p : Page') :
  highlighted (fold_left clear_one' l p)
  = highlighted p ∖ list_to_set l.*1.
Proof.
  revert p. induction l as [|[e o] l IH]; intros p; simpl.
  - by rewrite difference_empty_L.
  - rewrite IH. simpl. by rewrite difference_difference_l_L.
Qed.

Lemma clear_children (l : list (DOM.handle * properties)) (p : Page') :
  children (fold_left clear_one' l p)
  = fold_left (fun c e => remove_badge e c) l.*1 (children p).
Proof.
  revert p. induction l as [|[e o] l IH]; intros p; simpl; [done|].
  by rewrite IH.
Qed.

Lemma clear_inline_frame (l : list (DOM.handle * properties)) (p : Page')
    (e : DOM.handle) :
  e ∉ l.*1 -> inline (fold_left clear_one' l p) e = inline p e.
Proof.
  revert p. induction l as [|[x o] l IH]; intros p He; simpl; [done|].
  simpl in He. apply not_elem_of_cons in He as [Hne He].
  rewrite IH by done. simpl. by rewrite decide_False.
Qed.

Lemma clear_inline_restored (l : list (DOM.handle * properties)) (p : Page')
    (e : DOM.handle) (original : properties) :
  NoDup l.*1 -> (e, original) ∈ l ->
  inline (fold_left clear_one' l p) e
  = fold_left (fun d '(name, v) => set_property name v d) original
      (inline p e).
Proof.
  revert p. induction l as [|[x o] l IH]; intros p Hnd Hin; simpl.
  - by apply elem_of_nil in Hin.
  - simpl in Hnd. apply NoDup_cons in Hnd as [Hx Hnd].
    apply elem_of_cons in Hin as [[= -> ->]|Hin].
    + rewrite clear_inline_frame by done. simpl. by rewrite decide_True.
    + rewrite IH by done. simpl. rewrite decide_False; [done|].
      intros ->. apply Hx. apply list_elem_of_fmap. by exists (x, original).
Qed.

Lemma highlight_registered mcq answer confidence stealthMode random
    (st : State') :
  (highlightedElements
     (highlight' mcq answer confidence stealthMode random st)).*1
  = target mcq answer.
Proof.
  unfold highlight, target.
  by destruct (findMatchingOption (MCQExtractor.options mcq) answer).
Qed.

Lemma highlight_highlighted mcq answer confidence stealthMode random
    (st : State') :
  highlighted (page (highlight' mcq answer confidence stealthMode random st))
  = (highlighted (page st) ∖ registered st)
    ∪ list_to_set (target mcq answer).
Proof.
  unfold highlight, target, registered.
  destruct (findMatchingOption (MCQExtractor.options mcq) answer) as [o|];
    simpl; rewrite clear_highlighted.
  - by rewrite union_empty_r_L, (comm_L (∪)).
  - by rewrite union_empty_r_L.
Qed.

Lemma highlight_consistent mcq answer confidence stealthMode random
    (st : State') :
  consistent st ->
  consistent (highlight' mcq answer confidence stealthMode random st)
  /\ highlighted
       (page (highlight' mcq answer confidence stealthMode random st))
     = list_to_set (target mcq answer).
Proof.
  intros Hst. unfold consistent in *.
  rewrite highlight_highlighted. unfold registered at 2.
  rewrite highlight_registered, Hst.
  unfold registered. by rewrite difference_diag_L, union_empty_l_L.
Qed.

Lemma clearHighlights_consistent (st : State') :
  consistent st ->
  consistent (clearHighlights' st)
  /\ highlighted (page (clearHighlights' st)) = ∅.
Proof.
  intros Hst. unfold consistent, registered in *. simpl.
  rewrite clear_highlighted, Hst. by rewrite difference_diag_L.
Qed.

Lemma highlightMultiple_consistent (results : list Result) stealthMode
    (st : State') :
  consistent st ->
  consistent (highlightMultiple' results stealthMode st)
  /\ highlighted (page (highlightMultiple' results stealthMode st))
     = list_to_set
         match last results with
         | Some r => target (r_mcq r) (r_answer r)
         | None => []
         end.
Proof.
  intros Hst. unfold highlightMultiple.
  induction results as [|r results IH] using rev_ind.
  - destruct (clearHighlights_consistent st Hst) as [H1 H2].
    split; [exact H1|exact H2].
  - rewrite fold_left_app, last_snoc. simpl.
    apply highlight_consistent, IH.
Qed.

(** X21. One highlight at a time, for calls that run one after the other.
    [highlight] takes the attribute [data-mcq-highlighted] from every
    element that [highlightedElements] holds and puts it on the element of
    the option that the answer resolves to, when there is one; after it
    [highlightedElements] holds that element and no other.  The inline
    styles of the elements that are neither held nor the new element stay
    as they are; an element that was held, once, and is not the new
    element has been assigned the six values recorded for it.  The badge
    is appended to the new element after the first badges inside the held
    elements and inside the new element are removed; it reads the rounded
    confidence followed by "% confident".  When the attribute is on the
    held elements and on no other, this is so again after
    [highlightMultiple], and the attribute is then where the last result
    alone puts it: on one element, or on none when the last answer
    resolves to no option. *)
Theorem one_highlight_at_a_time :
  (forall mcq answer confidence stealthMode random (st : State'),
     let st' := highlight' mcq answer confidence stealthMode random st in
     highlighted (page st')
     = (highlighted (page st) ∖ list_to_set (highlightedElements st).*1)
       ∪ list_to_set (target mcq answer)
     /\ (highlightedElements st').*1 = target mcq answer
     /\ (forall e,
           e ∉ (highlightedElements st).*1 -> e ∉ target mcq answer ->
           inline (page st') e = inline (page st) e)
     /\ (forall e original,
           NoDup (highlightedElements st).*1 ->
           (e, original) ∈ highlightedElements st ->
           e ∉ target mcq answer ->
           inline (page st') e
           = fold_left (fun d '(name, v) => set_property name v d) original
               (inline (page st) e))
     /\ (let cleared :=
           fold_left (fun c e => remove_badge e c) (highlightedElements st).*1
             (children (page st)) in
         match target mcq answer with
         | [] => children (page st') = cleared
         | e :: _ =>
             exists b,
               children (page st')
               = appendChild e b (remove_badge e cleared)
               /\ className b = "mcq-confidence-badge"
               /\ textContent b = show (round confidence) ++ "% confident"
         end))
  /\ (forall (results : list Result) stealthMode (st : State'),
        highlighted (page st) = list_to_set (highlightedElements st).*1 ->
        let st' := highlightMultiple' results stealthMode st in
        highlighted (page st') = list_to_set (highlightedElements st').*1
        /\ highlighted (page st')
           = list_to_set
               match last results with
               | Some r => target (r_mcq r) (r_answer r)
               | None => []
               end
        /\ size (highlighted (page st')) <= 1).
Proof.
  split.
  - intros mcq answer confidence stealthMode random st st'. subst st'.
    split; [apply highlight_highlighted|].
    split; [apply highlight_registered|].
    unfold highlight, target.
    destruct (findMatchingOption (MCQExtractor.options mcq) answer) as [o|];
      simpl.
    + split.
      { intros e He [Hne _]%not_elem_of_cons. rewrite decide_False by done.
        by apply clear_inline_frame. }
      split.
      { intros e original Hnd Hin [Hne _]%not_elem_of_cons.
        rewrite decide_False by done. by apply clear_inline_restored. }
      eexists. rewrite clear_children. by repeat split.
    + split; [intros e He _; by apply clear_inline_frame|].
      split; [intros e original Hnd Hin _; by apply clear_inline_restored|].
      apply clear_children.
  - intros results stealthMode st Hst st'. subst st'.
    destruct (highlightMultiple_consistent results stealthMode st Hst)
      as [H1 H2].
    split; [exact H1|]. split; [exact H2|].
    rewrite H2. destruct (last results) as [r|].
    + unfold target. destruct (findMatchingOption _ _) as [o|].
      * change (size (({[ element o ]} : gset DOM.handle) ∪ ∅) <= 1).
        rewrite union_empty_r_L, size_singleton. lia.
      * change (size (∅ : gset DOM.handle) <= 1). rewrite size_empty. lia.
    + change (size (∅ : gset DOM.handle) <= 1). rewrite size_empty. lia.
Qed.

End OneHighlight.

(** a page whose declarations are lists of assignments, with the badges
    in a list *)
Lemma one_highlight_at_a_time_witness :
  size
    (Highlighter.highlighted
       (Highlighter.page
          (Highlighter.highlightMultiple (fun _ => "0") true (fun x => x)
             (fun name d =>
                default [] (snd <$> List.find (fun e => JS.str_eqb (fst e) name) d))
             (fun name v d => (name, v) :: d)
             (fun e c => filter (fun b => b.1 <> e) c)
             (fun e b c => c ++ [(e, b)])
             [Highlighter.mkResult
                (MCQExtractor.mkMCQ "Capital of France?" [0]
                   [page_option 1 "Paris"; page_option 2 "Rome"] "list" None)
                "Rome" (double_of_nat 90) (fun _ => double_of_nat 0);
              Highlighter.mkResult
                (MCQExtractor.mkMCQ "Capital of Spain?" [3]
                   [page_option 4 "Madrid"; page_option 5 "Rome"] "list" None)
                "madrid" (double_of_nat 50) (fun _ => double_of_nat 0)]
             true
             (Highlighter.mkState
                (Highlighter.mkPage (fun _ => []) {[ [7] ]} [])
                [([7], [])]))))
  <= 1.
Proof.
  apply (one_highlight_at_a_time (fun _ => "0") true (fun x => x)).
  vm_compute. reflexivity.
Defined.

(** * Confidence bands *)

Section ConfidenceBands.
Import PrimFloat.

(** X22. The popup, the badge and the highlight cut the confidence at the
    same two places, 80 and 60, with or without stealth mode: a confidence
    is shown as high, green and with a solid border and a shadow, as
    medium, yellow and with a solid border, or as low, orange and with a
    dashed border, and never as a mixture.  Without stealth mode, or where
    [StealthUtils] is not defined, the border is 3px wide and has the
    colour of the badge; otherwise its width and colour are computed from
    random numbers.  A confidence that is not a number is shown as low.
    The three confidences that [_fallbackParse] gives, 50, 40 and 20, are
    all shown as low. *)
Theorem confidence_bands_agree :
  (forall (show : float -> str) (stealthUtils : bool)
          (random : nat -> float) (confidence : float) (stealthMode : bool),
     let style :=
       Highlighter.getHighlightStyle show stealthUtils random confidence
         stealthMode in
     let class := Popup.getConfidenceClass confidence in
     let colour := Highlighter.getConfidenceBadgeColor confidence in
     ((80 <=? confidence)%float = true
      /\ class = "high" /\ colour = "#22c55e"
      /\ line show "solid" (border style) /\ is_Some (boxShadow style))
     \/ ((80 <=? confidence)%float = false
         /\ (60 <=? confidence)%float = true
         /\ class = "medium" /\ colour = "#eab308"
         /\ line show "solid" (border style) /\ boxShadow style = None)
     \/ ((80 <=? confidence)%float = false
         /\ (60 <=? confidence)%float = false
         /\ class = "low" /\ colour = "#f97316"
         /\ line show "dashed" (border style) /\ boxShadow style = None))
  /\ (forall (show : float -> str) (stealthUtils : bool)
             (random : nat -> float) (confidence : float)
             (stealthMode : bool),
        stealthMode && stealthUtils = false ->
        let style :=
          Highlighter.getHighlightStyle show stealthUtils random confidence
            stealthMode in
        let colour := Highlighter.getConfidenceBadgeColor confidence in
        border style = "3px solid " ++ colour
        \/ border style = "3px dashed " ++ colour)
  /\ (forall (show : float -> str) (random : nat -> float)
             (confidence : float),
        (80 <=? confidence)%float = true ->
        border (Highlighter.getHighlightStyle show true random confidence true)
        = show (2 + random 2%nat)%float ++ "px solid hsl("
            ++ show (120 + (random 0%nat * 10 - 5))%float ++ ", "
            ++ show (70 + (random 1%nat * 10 - 5))%float ++ "%, 45%)")
  /\ (Popup.getConfidenceClass 80 = "high"
      /\ Popup.getConfidenceClass 79.5 = "medium"
      /\ Popup.getConfidenceClass 60 = "medium"
      /\ Popup.getConfidenceClass 59.5 = "low"
      /\ Popup.getConfidenceClass nan = "low")
  /\ (forall (text : str) (options : list str),
        Popup.getConfidenceClass
          (double_of_nat
             (AIService.confidence (AIService._fallbackParse text options)))
        = "low").
Proof.
  split; [|split; [|split; [|split]]].
  - intros show stealthUtils random confidence stealthMode.
    unfold Highlighter.getHighlightStyle, StealthUtils.getHighlightStyle,
      Popup.getConfidenceClass, Highlighter.getConfidenceBadgeColor.
    destruct (80 <=? confidence)%float;
      [left|destruct (60 <=? confidence)%float; [right; left|right; right]];
      destruct (stealthMode && stealthUtils); cbv zeta; cbn [border boxShadow];
      repeat split; try done;
      try (exists (show (2 + random 2%nat)%float); eexists;
           split; [reflexivity|right; by eexists]).
    + by exists "3", "#22c55e"; split; [|left].
    + by exists "3", "#eab308"; split; [|left].
    + by exists "3", "#f97316"; split; [|left].
  - intros show stealthUtils random confidence stealthMode Hplain.
    unfold Highlighter.getHighlightStyle, Highlighter.getConfidenceBadgeColor.
    rewrite Hplain.
    destruct (80 <=? confidence)%float; [by left|].
    destruct (60 <=? confidence)%float; [by left|by right].
  - intros show random confidence H80.
    unfold Highlighter.getHighlightStyle, StealthUtils.getHighlightStyle.
    simpl. by rewrite H80.
  - repeat split; vm_compute; reflexivity.
  - intros text options. unfold AIService._fallbackParse.
    destruct (Regex.exec _ text ≫= _); [by vm_compute|].
    destruct (List.find _ options); by vm_compute.
Qed.

End ConfidenceBands.

Lemma confidence_bands_agree_witness :
  border
    (Highlighter.getHighlightStyle (fun _ => "0") true
       (fun _ => double_of_nat 0) (double_of_nat 70) false)
  = "3px solid #eab308".
Proof.
  destruct (proj1 (proj2 confidence_bands_agree) (fun _ => "0") true
              (fun _ => double_of_nat 0) (double_of_nat 70) false eq_refl)
    as [H|H].
  - exact H.
  - vm_compute in H. discriminate H.
Defined.

(** * Radio buttons are grouped by name *)

Section RadioGroups.
Import JS DOM MCQExtractor.
Context (d : document).

Lemma push_radio_spec name radio (g : groups) :
  (exists g1 rs g2,
     g = g1 ++ (name, rs) :: g2 /\ (name ∉ g1.*1)
     /\ push_radio name radio g = g1 ++ (name, rs ++ [radio]) :: g2)
  \/ ((name ∉ g.*1) /\ push_radio name radio g = g ++ [(name, [radio])]).
Proof.
  induction g as [|[k rs] g IH]; simpl.
  - right. split; [apply not_elem_of_nil|done].
  - destruct (str_eqb k name) eqn:E.
    + apply str_eqb_eq in E as ->. left. exists [], rs, g.
      split; [done|]. split; [apply not_elem_of_nil|done].
    + assert (k <> name) as Hne.
      { intros ->. by rewrite str_eqb_refl in E. }
      destruct IH as [(g1 & rs' & g2 & -> & Hout & ->)|[Hout ->]].
      * left. exists ((k, rs) :: g1), rs', g2. split_and!; [done| |done].
        by intros [?|?]%elem_of_cons.
      * right. split; [|done]. by intros [?|?]%elem_of_cons.
Qed.

Lemma grouped_nil : grouped d [] [].
Proof.
  split; [constructor|]. split.
  - intros k rs H. by apply elem_of_nil in H.
  - intros r H. by apply elem_of_nil in H.
Qed.

Lemma filter_snoc_name k read radio :
  filter (fun r => radio_name d r = k) (read ++ [radio])
  = filter (fun r => radio_name d r = k) read
    ++ (if decide (radio_name d radio = k) then [radio] else []).
Proof.
  rewrite filter_app. f_equal.
Qed.

Lemma filter_none (P : handle -> Prop) `{!forall r, Decision (P r)} l :
  Forall (fun r => ~ P r) l -> filter P l = [].
Proof.
  induction 1 as [|r l Hr _ IH]; [done|]. by rewrite filter_cons_False.
Qed.

Lemma grouped_skip read g radio :
  radio_name d radio = [] -> grouped d read g -> grouped d (read ++ [radio]) g.
Proof.
  intros Hname (Hnd & Hg & Hall). split; [done|]. split.
  - intros k rs Hk. destruct (Hg k rs Hk) as [Hne ->]. split; [done|].
    rewrite filter_snoc_name, decide_False, app_nil_r; [done|congruence].
  - intros r [Hr|Hr]%elem_of_app Hn; [by apply Hall|].
    apply list_elem_of_singleton in Hr as ->. done.
Qed.

Lemma grouped_push read g radio :
  radio_name d radio <> [] -> grouped d read g ->
  grouped d (read ++ [radio]) (push_radio (radio_name d radio) radio g).
Proof.
  intros Hname (Hnd & Hg & Hall).
  destruct (push_radio_spec (radio_name d radio) radio g)
    as [(g1 & rs & g2 & -> & Hout & ->)|[Hout ->]].
  - rewrite fmap_app, fmap_cons in Hnd. simpl in Hnd.
    split; [by rewrite fmap_app, fmap_cons|]. split.
    + intros k rs' Hk.
      apply elem_of_app in Hk as [Hk|Hk]; [|apply elem_of_cons in Hk as [Hk|Hk]].
      * destruct (Hg k rs') as [Hne ->]; [apply elem_of_app; by left|].
        split; [done|].
        rewrite filter_snoc_name, decide_False, app_nil_r; [done|].
        intros <-. apply Hout. by apply (list_elem_of_fmap_2 fst) in Hk.
      * injection Hk as -> ->.
        destruct (Hg (radio_name d radio) rs) as [Hne ->].
        { apply elem_of_app; right; by left. }
        split; [done|]. by rewrite filter_snoc_name, decide_True.
      * destruct (Hg k rs') as [Hne ->].
        { apply elem_of_app; right; by right. }
        split; [done|].
        rewrite filter_snoc_name, decide_False, app_nil_r; [done|].
        intros <-. apply NoDup_app in Hnd as (_ & _ & Hnd).
        apply NoDup_cons in Hnd as [Hnd _]. apply Hnd.
        by apply (list_elem_of_fmap_2 fst) in Hk.
    + intros r [Hr|Hr]%elem_of_app Hn.
      * specialize (Hall r Hr Hn).
        by rewrite fmap_app, fmap_cons in Hall |- *.
      * apply list_elem_of_singleton in Hr as ->.
        rewrite fmap_app, fmap_cons. apply elem_of_app; right; by left.
  - split; [|split].
    + rewrite fmap_app. apply NoDup_app. split; [done|]. split.
      * intros k Hk [->|H]%elem_of_cons; [done|]. by apply elem_of_nil in H.
      * simpl. apply NoDup_singleton.
    + intros k rs Hk. apply elem_of_app in Hk as [Hk|Hk].
      * destruct (Hg k rs Hk) as [Hne ->]. split; [done|].
        rewrite filter_snoc_name, decide_False, app_nil_r; [done|].
        intros <-. apply Hout. by apply (list_elem_of_fmap_2 fst) in Hk.
      * apply list_elem_of_singleton in Hk. injection Hk as -> ->.
        split; [done|]. rewrite filter_snoc_name, decide_True by done.
        replace (filter (fun r => radio_name d r = radio_name d radio) read)
          with (@nil handle); [done|].
        symmetry. apply filter_none. apply Forall_forall. intros r Hr E.
        apply Hout. rewrite <- E. apply Hall; [done|]. by rewrite E.
    + intros r [Hr|Hr]%elem_of_app Hn.
      * rewrite fmap_app. apply elem_of_app. left. by apply Hall.
      * apply list_elem_of_singleton in Hr as ->.
        rewrite fmap_app. apply elem_of_app. right. by left.
Qed.

Lemma group_radio_grouped read g radio g' :
  grouped d read g -> group_radio d g radio = Returned g' ->
  grouped d (read ++ [radio]) g'.
Proof.
  intros Hg. unfold group_radio. fold (radio_name d radio).
  destruct (truthy (radio_name d radio)) eqn:T; cbn [negb].
  - destruct (existsb (str_eqb (radio_name d radio)) prototype_names);
      [done|]. intros [= <-].
    apply grouped_push; [|done]. by destruct (radio_name d radio).
  - intros [= <-]. apply grouped_skip; [|done].
    by destruct (radio_name d radio).
Qed.

Lemma foldM_group_radio radios :
  forall read g g',
    grouped d read g -> foldM (group_radio d) radios g = Returned g' ->
    grouped d (read ++ radios) g'.
Proof.
  induction radios as [|radio radios IH]; intros read g g' Hg; simpl.
  - intros [= <-]. by rewrite app_nil_r.
  - destruct (group_radio d g radio) as [g1|e] eqn:E; [|done]. simpl.
    intros H. replace (read ++ radio :: radios) with ((read ++ [radio]) ++ radios)
      by (by rewrite <- app_assoc).
    eapply IH; [|exact H]. by eapply group_radio_grouped.
Qed.

Lemma insert_sorted_perm e (l : groups) : insert_sorted e l ≡ₚ e :: l.
Proof.
  induction l as [|e' l IH]; simpl; [done|].
  destruct (_ <=? _)%N; [done|]. rewrite IH. apply Permutation_swap.
Qed.

Lemma filter_split_perm {A} (p : A -> bool) (l : list A) :
  List.filter p l ++ List.filter (fun x => negb (p x)) l ≡ₚ l.
Proof.
  induction l as [|x l IH]; simpl; [done|]. destruct (p x); simpl.
  - by rewrite IH.
  - rewrite <- Permutation_middle. by rewrite IH.
Qed.

Lemma entries_perm (g : groups) : entries g ≡ₚ g.
Proof.
  unfold entries.
  assert (forall l : groups, foldr insert_sorted [] l ≡ₚ l) as H.
  { induction l as [|e l IH]; simpl; [done|].
    by rewrite insert_sorted_perm, IH. }
  rewrite H. apply filter_split_perm.
Qed.

Lemma mapM_radio_option radios options :
  mapM (radio_option d) radios = Returned options ->
  element <$> options = radios.
Proof.
  revert options. induction radios as [|r radios IH]; intros options; simpl.
  - by intros [= <-].
  - unfold mbind at 1, outcome_bind. unfold radio_option at 1.
    unfold mbind at 1, outcome_bind.
    destruct (findLabelForInput d r) as [label|]; [|done].
    unfold mbind, outcome_bind.
    destruct (mapM (radio_option d) radios) as [os|] eqn:E; [|done].
    intros [= <-]. simpl. f_equal. by apply IH.
Qed.

(** what the loop over the groups adds to the list of MCQs *)
Lemma foldM_radio_group_mcq (es : groups) :
  forall acc mcqs,
    foldM (radio_group_mcq d) es acc = Returned mcqs ->
    exists new,
      mcqs = acc ++ new
      /\ (groupName <$> new) `sublist_of` (Some <$> (es.*1))
      /\ Forall (fun m =>
                   type m = "radio"
                   /\ 2 <= length (options m)
                   /\ exists k rs,
                        (k, rs) ∈ es /\ groupName m = Some k
                        /\ element <$> options m = rs) new.
Proof.
  induction es as [|[k rs] es IH]; intros acc mcqs; cbn [foldM].
  - intros [= <-]. exists []. rewrite app_nil_r.
    split; [done|]. split; constructor.
  - destruct (radio_group_mcq d acc (k, rs)) as [acc'|] eqn:E; [|done].
    cbn [mbind outcome_bind]. intros H. apply IH in H as (new & -> & Hsub & Hall).
    assert (Forall (fun m =>
                      type m = "radio" /\ 2 <= length (options m)
                      /\ exists k0 rs0,
                           (k0, rs0) ∈ (k, rs) :: es /\ groupName m = Some k0
                           /\ element <$> options m = rs0) new) as Hall'.
    { eapply Forall_impl; [exact Hall|].
      intros m (? & ? & k0 & rs0 & ? & ? & ?). split; [done|]. split; [done|].
      exists k0, rs0. split; [by right|done]. }
    unfold radio_group_mcq in E.
    destruct (mapM (radio_option d) rs) as [options|] eqn:Em; [|done].
    simpl in E. apply mapM_radio_option in Em.
    destruct (match rs with r0 :: _ => findQuestionForRadioGroup d r0
                          | [] => None end) as [q|].
    + destruct (1 <? length options) eqn:Hlen; injection E as <-.
      * exists (mkMCQ (q_text q) (q_element q) options "radio" (Some k) :: new).
        split; [by rewrite <- app_assoc|]. split; [by apply sublist_skip|].
        constructor; [|done]. split; [done|]. apply Nat.ltb_lt in Hlen.
        split; [simpl; lia|]. exists k, rs. split; [by left|done].
      * exists new. split; [done|]. split; [by apply sublist_cons|done].
    + injection E as <-. exists new. split; [done|].
      split; [by apply sublist_cons|done].
Qed.

(** X23. The radio strategy groups by name.  When it returns, no two of its
    MCQs carry the same group name, and the options of each MCQ are exactly
    the radio buttons of the page with that name, which is not empty, in
    document order, two at least. *)
Theorem radio_options_are_the_named_radios (mcqs : list MCQ) :
  extractFromRadioButtons d = Returned mcqs ->
  NoDup (groupName <$> mcqs)
  /\ Forall (fun mcq =>
               type mcq = "radio"
               /\ 2 <= length (options mcq)
               /\ exists name,
                    groupName mcq = Some name /\ name <> []
                    /\ element <$> options mcq = named_radios d name) mcqs.
Proof.
  unfold extractFromRadioButtons.
  destruct (foldM (group_radio d) (querySelectorAll_doc d sel_radio) [])
    as [g|] eqn:Eg; [|done]. simpl.
  apply (foldM_group_radio _ [] [] g grouped_nil) in Eg.
  destruct Eg as (Hnd & Hg & _). simpl in Hg.
  intros H. apply foldM_radio_group_mcq in H as (new & -> & Hsub & Hall).
  simpl. split.
  - eapply sublist_NoDup; [|exact Hsub].
    apply (NoDup_fmap_2 Some). by rewrite entries_perm.
  - eapply Forall_impl; [exact Hall|].
    intros m (Ht & Hlen & k & rs & Hin & Hk & Hel).
    split; [done|]. split; [done|]. exists k.
    rewrite entries_perm in Hin. destruct (Hg k rs Hin) as [Hne ->].
    done.
Qed.

End RadioGroups.

Lemma radio_options_are_the_named_radios_witness :
  exists mcqs,
    MCQExtractor.extractFromRadioButtons Examples.seven_radios = Returned mcqs
    /\ NoDup (MCQExtractor.groupName <$> mcqs)
    /\ Forall (fun mcq =>
                 MCQExtractor.type mcq = "radio"
                 /\ 2 <= length (MCQExtractor.options mcq)
                 /\ exists name,
                      MCQExtractor.groupName mcq = Some name /\ name <> []
                      /\ element <$> MCQExtractor.options mcq
                         = named_radios Examples.seven_radios name) mcqs.
Proof.
  eexists. split; [vm_compute; reflexivity|].
  apply (radio_options_are_the_named_radios Examples.seven_radios).
  vm_compute. reflexivity.
Defined.

(** * The word count *)

Section WordCount.
Import JS Regex.

Lemma pieces_true_skip s :
  pieces true [] s = pieces false [] (Marker.skip is_space s).
Proof.
  induction s as [|a s IH]; [done|]. simpl.
  destruct (is_space a) eqn:Ha; [done|]. simpl. by rewrite Ha.
Qed.

Lemma split_loop_runs fuel :
  forall piece bef aft,
    length aft < fuel -> length piece <= length bef ->
    split_loop fuel (Plus true (Chr is_space)) piece (Pos bef aft)
    = pieces false piece aft.
Proof.
  induction fuel as [|fuel IH]; intros piece bef aft Hf Hp; [lia|].
  destruct aft as [|a rest]; [done|].
  cbn [split_loop after before pieces]. simpl in Hf.
  destruct (is_space a) eqn:Ha.
  - rewrite plus_class_match by done.
    pose proof (skip_length is_space rest) as Hskip.
    assert ((index (after_run is_space (a :: bef) rest)
             =? index (Pos bef (a :: rest)) - length piece) = false) as ->.
    { apply Nat.eqb_neq. unfold after_run, index. simpl.
      rewrite length_app. simpl. lia. }
    f_equal. rewrite pieces_true_skip. unfold after_run at 1.
    apply IH; [lia|simpl; lia].
  - rewrite (proj2 (plus_class_starts is_space)) by done.
    apply IH; [lia|simpl; lia].
Qed.

Lemma split_runs s :
  split (Plus true (Chr is_space)) s = pieces false [] s.
Proof.
  unfold split. destruct s as [|a s]; [done|].
  apply split_loop_runs; simpl; lia.
Qed.

Lemma pieces_count b piece s :
  (b = true -> piece = []) ->
  length (List.filter (fun w => 0 <? length w) (pieces b piece s))
  = (if 0 <? length piece then 1 else 0)
    + count_words (0 <? length piece) s.
Proof.
  revert b piece. induction s as [|c s IH]; intros b piece Hb.
  - simpl. rewrite length_rev. destruct (0 <? length piece); simpl; lia.
  - cbn [pieces count_words]. destruct (is_space c).
    + destruct b.
      * rewrite (Hb eq_refl). by rewrite IH.
      * cbn [List.filter]. rewrite length_rev.
        destruct (0 <? length piece); cbn [length];
          rewrite (IH true []) by done; reflexivity.
    + rewrite (IH false (c :: piece)) by done.
      change (0 <? length (c :: piece)) with true.
      destruct (0 <? length piece); reflexivity.
Qed.

Lemma word_count_runs s : OCRService.word_count s = count_words false s.
Proof.
  unfold OCRService.word_count, OCRService.spaces.
  rewrite split_runs, (pieces_count false []) by done. done.
Qed.

(** X24. The word count of an extraction is the number of maximal runs of
    code units that are not white space.  An empty text has no word, so on
    an extraction result the issue about missing text never comes alone,
    and the result is valid exactly when the confidence is at least 50 and
    the text has at least 10 words. *)
Theorem word_count_counts_runs (text : str) (confidence : Z) :
  OCRService.word_count text = count_words false text
  /\ OCRService.isValid
       (OCRService.validateResult (OCRService.extracted text confidence))
     = (50 <=? confidence)%Z && (10 <=? count_words false text)
  /\ ("No text extracted"
        ∈ OCRService.issues
            (OCRService.validateResult (OCRService.extracted text confidence))
      -> "Very little text detected - image quality may be poor"
           ∈ OCRService.issues
               (OCRService.validateResult
                  (OCRService.extracted text confidence))).
Proof.
  split; [apply word_count_runs|].
  unfold OCRService.validateResult, OCRService.extracted.
  cbn [OCRService.text OCRService.confidence OCRService.wordCount
       OCRService.isValid OCRService.issues].
  rewrite word_count_runs.
  destruct text as [|c text].
  - cbn [truthy negb orb count_words]. split.
    + rewrite andb_false_r. by destruct (confidence <? 50)%Z.
    + intros _. apply list_elem_of_In.
      destruct (confidence <? 50)%Z; simpl; tauto.
  - cbn [truthy negb orb length Nat.eqb].
    set (n := count_words false (c :: text)). split.
    + destruct (confidence <? 50)%Z eqn:E1, (n <? 10) eqn:E2;
        cbn [app length Nat.eqb]; symmetry.
      * apply andb_false_iff. left. apply Z.leb_gt. by apply Z.ltb_lt.
      * apply andb_false_iff. left. apply Z.leb_gt. by apply Z.ltb_lt.
      * apply andb_false_iff. right. apply Nat.leb_gt. by apply Nat.ltb_lt.
      * apply andb_true_iff. split.
        -- apply Z.leb_le. by apply Z.ltb_ge.
        -- apply Nat.leb_le. by apply Nat.ltb_ge.
    + intros H. exfalso. apply list_elem_of_In in H.
      destruct (confidence <? 50)%Z, (n <? 10); simpl in H;
        intuition discriminate.
Qed.

End WordCount.

(** * What the type of an extracted MCQ tells *)

Section Labels.
Import JS DOM MCQExtractor.
Context (d : document).

Lemma previous_question_text attempts current q :
  previous_question d attempts current = Some q ->
  q_text q = extractTextContent d (q_element q)
  /\ looksLikeQuestion (q_text q) = true.
Proof.
  revert current. induction attempts as [|n IH]; intros current; simpl.
  - done.
  - destruct current as [cur|]; [|done].
    destruct (looksLikeQuestion (extractTextContent d cur)) eqn:E.
    + by intros [= <-].
    + apply IH.
Qed.

Lemma findQuestionBeforeElement_text element q :
  findQuestionBeforeElement d element = Some q ->
  q_text q = extractTextContent d (q_element q)
  /\ looksLikeQuestion (q_text q) = true.
Proof.
  unfold findQuestionBeforeElement.
  destruct (previous_question d 5 _) as [q'|] eqn:E.
  - intros [= <-]. by apply previous_question_text in E.
  - destruct (parentElement element) as [parent|]; [|done].
    destruct (querySelector d parent sel_heading_p_div) as [heading|]; [|done].
    destruct (bool_decide _); [|done].
    destruct (looksLikeQuestion (extractTextContent d heading)) eqn:El; [|done].
    by intros [= <-].
Qed.

Lemma findQuestionForRadioGroup_text radio q :
  findQuestionForRadioGroup d radio = Some q ->
  q_text q = extractTextContent d (q_element q).
Proof.
  unfold findQuestionForRadioGroup.
  destruct (closest d radio sel_container) as [container|].
  - destruct (querySelector d container sel_legend) as [legend|].
    { by intros [= <-]. }
    destruct (querySelector d container sel_heading) as [heading|].
    { by intros [= <-]. }
    intros H. by apply findQuestionBeforeElement_text in H as [? _].
  - intros H. by apply findQuestionBeforeElement_text in H as [? _].
Qed.

Lemma radio_group_mcq_labelled mcqs entry mcqs' :
  Forall (labelled d) mcqs ->
  radio_group_mcq d mcqs entry = Returned mcqs' ->
  Forall (labelled d) mcqs'.
Proof.
  intros Hm. unfold radio_group_mcq. destruct entry as [name radios].
  destruct (mapM (radio_option d) radios) as [opts|e]; simpl; [|done].
  destruct (match radios with [] => _ | _ => _ end) as [q|] eqn:Eq;
    [|intros [= <-]; done].
  destruct (1 <? length opts); intros [= <-]; [|done].
  apply Forall_app; split; [done|]. constructor; [|constructor].
  left. split; [done|]. split; [by eexists|].
  unfold question_of_element. simpl.
  destruct radios as [|r0 radios']; [done|].
  by apply findQuestionForRadioGroup_text in Eq.
Qed.

Lemma foldM_radio_labelled es mcqs mcqs' :
  Forall (labelled d) mcqs ->
  foldM (radio_group_mcq d) es mcqs = Returned mcqs' ->
  Forall (labelled d) mcqs'.
Proof.
  revert mcqs. induction es as [|e es IH]; intros mcqs Hm; simpl.
  - by intros [= <-].
  - destruct (radio_group_mcq d mcqs e) as [m1|x] eqn:He; simpl; [|done].
    apply IH. by eapply radio_group_mcq_labelled.
Qed.

Lemma radio_labelled :
  Forall (labelled d) (candidates (fun _ => extractFromRadioButtons d)).
Proof.
  unfold candidates.
  destruct (extractFromRadioButtons d) as [l|e] eqn:He; [|constructor].
  unfold extractFromRadioButtons in He.
  destruct (foldM (group_radio d) _ _) as [g|x]; simpl in He; [|done].
  eapply foldM_radio_labelled; [|exact He]. constructor.
Qed.

Lemma list_mcq_labelled lst : Forall (labelled d) (list_mcq d lst).
Proof.
  unfold list_mcq.
  destruct (findQuestionBeforeElement d lst) as [q|] eqn:E; [|constructor].
  destruct (_ && _); [|constructor].
  destruct (existsb _ _); constructor; [|constructor].
  apply findQuestionBeforeElement_text in E as [Et El].
  right; left. by repeat split.
Qed.

Lemma div_mcq_labelled qElem : Forall (labelled d) (div_mcq d qElem).
Proof.
  unfold div_mcq. destruct (_ && _); constructor; [|constructor].
  right; right; left. split; [by left|]. split; [done|]. split; [done|].
  simpl. apply Forall_forall. intros o Ho.
  apply list_elem_of_fmap in Ho as (elem & -> & _). done.
Qed.

Lemma table_mcq_labelled table : Forall (labelled d) (table_mcq d table).
Proof.
  unfold table_mcq. destruct (3 <=? _); [|constructor].
  destruct (querySelectorAll d table sel_tr) as [|firstRow optionRows];
    [constructor|].
  destruct (_ && _); constructor; [|constructor].
  right; right; left. split; [by right|]. split; [done|]. split; [done|].
  simpl. apply Forall_forall. intros o Ho.
  apply list_elem_of_fmap in Ho as (elem & -> & _). done.
Qed.

Lemma platform_mcq_labelled headingSel optionSel t q :
  platform d t headingSel optionSel ->
  Forall (labelled d) (platform_mcq d headingSel optionSel t q).
Proof.
  intros Ht. unfold platform_mcq.
  destruct (querySelector d q headingSel) as [heading|] eqn:Eh; [|constructor].
  destruct (_ && _) eqn:E; constructor; [|constructor].
  apply andb_true_iff in E as [E _].
  right; right; right. exists headingSel, optionSel, heading.
  cbn [type groupName questionElement question options].
  split; [done|]. split; [done|]. split; [done|]. split; [done|].
  split; [intros Hq; by rewrite Hq in E|].
  split.
  - rewrite <- list_fmap_compose. apply list_fmap_id.
  - apply Forall_forall. intros o Ho.
    apply list_elem_of_fmap in Ho as (elem & -> & _). done.
Qed.

Lemma startsWith_prefix s p : startsWith s p = true -> exists r, s = p ++ r.
Proof.
  revert s. induction p as [|y p IH]; intros s; simpl.
  - intros _. by exists s.
  - destruct s as [|x s]; [done|].
    intros [Hx Hs]%andb_true_iff. apply Ascii.eqb_eq in Hx as ->.
    destruct (IH s Hs) as (r & ->). by exists r.
Qed.

Lemma includes_infix s p : includes s p = true -> infix_of p s.
Proof.
  induction s as [|x s IH].
  - destruct p; [intros _; apply infix_of_nil|done].
  - cbn [includes]. intros [(r & ->)%startsWith_prefix|H]%orb_true_iff.
    + by exists [], r.
    + destruct (IH H) as (l & r & ->). by exists (x :: l), r.
Qed.

Lemma platforms_labelled : Forall (labelled d) (extractFromCommonPlatforms d).
Proof.
  unfold extractFromCommonPlatforms, extractFromGoogleForms,
    extractFromQuizlet, extractFromCanvas. cbv zeta.
  destruct (includes (hostname d) "google.com/forms") eqn:E1.
  { apply includes_infix in E1.
    apply Forall_flat_map, Forall_forall; intros q _.
    apply platform_mcq_labelled. by left. }
  destruct (includes (hostname d) "quizlet.com") eqn:E2.
  { apply includes_infix in E2.
    apply Forall_flat_map, Forall_forall; intros q _.
    apply platform_mcq_labelled. by right; left. }
  destruct (_ || _) eqn:E3; [|constructor].
  apply Forall_flat_map, Forall_forall; intros q _.
  apply platform_mcq_labelled. right; right.
  split; [done|]. split; [done|]. split; [done|].
  apply orb_true_iff in E3 as [E3|E3].
  - left. by apply includes_infix.
  - right. by apply bool_decide_eq_true in E3.
Qed.

Lemma extractTextContent_shape p : normalised (extractTextContent d p).
Proof.
  unfold extractTextContent, normalised.
  destruct (node_at (root d) p) as [n|].
  - rewrite replaceAll_runs. split; [|split].
    + apply squeeze_trimmed, trim_trimmed.
    + apply squeeze_only_blanks.
    + apply squeeze_no_double_blank.
  - split; [by split|]. split; [constructor|]. by intros i.
Qed.

Lemma looksLikeQuestion_length text :
  looksLikeQuestion text = true -> 10 <= length text.
Proof.
  unfold looksLikeQuestion.
  destruct (length text <? 10) eqn:E; [by rewrite orb_true_r|].
  intros _. by apply Nat.ltb_ge in E.
Qed.

Lemma infix_elem (x t : str) c : infix_of x t -> c ∈ x -> c ∈ t.
Proof.
  intros (l & r & ->) Hc. apply elem_of_app. right.
  apply elem_of_app. by left.
Qed.

Lemma labelled_consequences m :
  labelled d m ->
  (MCQExtractor.type m ∈ ["radio" : str; "list" : str; "div" : str;
                          "table" : str] ->
   normalised (MCQExtractor.question m))
  /\ (MCQExtractor.type m = "list" -> 10 <= length (MCQExtractor.question m))
  /\ ("/"%char ∉ hostname d -> MCQExtractor.type m <> "google-forms").
Proof.
  intros [(Ht & _ & Hq)|[(Ht & _ & Hq & Hl)|[(Ht & _ & Hq & _)|H]]].
  - split; [|split].
    + intros _. rewrite Hq. apply extractTextContent_shape.
    + by rewrite Ht.
    + intros _. by rewrite Ht.
  - split; [|split].
    + intros _. rewrite Hq. apply extractTextContent_shape.
    + intros _. by apply looksLikeQuestion_length.
    + intros _. by rewrite Ht.
  - split; [|split].
    + intros _. rewrite Hq. apply extractTextContent_shape.
    + by destruct Ht as [-> | ->].
    + intros _. by destruct Ht as [-> | ->].
  - destruct H as (hs & os & h & Hp & _).
    destruct Hp as [(Ht & _ & _ & Hh)|[(Ht & _)|(Ht & _)]]; rewrite Ht.
    + split; [|split]; [| done |].
      * intros Hin. exfalso.
        repeat (apply elem_of_cons in Hin as [Hin|Hin]; [done|]).
        by apply elem_of_nil in Hin.
      * intros Hslash _. apply Hslash.
        apply (infix_elem "google.com/forms"); [done|].
        apply list_elem_of_lookup_2 with 10. reflexivity.
    + split; [|split]; [| done | done].
      intros Hin. exfalso.
      repeat (apply elem_of_cons in Hin as [Hin|Hin]; [done|]).
      by apply elem_of_nil in Hin.
    + split; [|split]; [| done | done].
      intros Hin. exfalso.
      repeat (apply elem_of_cons in Hin as [Hin|Hin]; [done|]).
      by apply elem_of_nil in Hin.
Qed.

(** X25. The type of an MCQ that [extractAll] reports tells where it comes
    from.  It is one of seven; a group name is present exactly on the
    "radio" ones.  On "radio", "list", "div" and "table" MCQs the question
    is the normalised text of the question element, a text with single
    blanks and none at its ends; on "list" ones it looks like a question
    and has ten characters at least; on "div" and "table" ones every
    option carries the normalised text of its element as text and as
    value.  An MCQ of a platform extractor carries as its question the
    text of the first heading inside the question element, as it is and
    not empty, and as options the elements that the option selector of the
    platform finds there, each with its text as it is; the extractor has
    run because of the name of the host or, for Canvas, because of a class
    of the page.  On a page whose host name holds no slash, as host names
    do, no MCQ is of type "google-forms".  On the Canvas page of the
    examples the white space of the markup stays in the question and in
    the options. *)
Theorem extracted_mcqs_are_labelled :
  (exists mcqs,
     extractAll d = Returned mcqs
     /\ Forall (labelled d) mcqs
     /\ Forall (fun m =>
                  MCQExtractor.type m
                    ∈ ["radio" : str; "list" : str; "div" : str;
                       "table" : str] ->
                  trimmed (MCQExtractor.question m)
                  /\ only_blanks (MCQExtractor.question m)
                  /\ no_double_blank (MCQExtractor.question m)) mcqs
     /\ Forall (fun m =>
                  MCQExtractor.type m = "list" ->
                  10 <= length (MCQExtractor.question m)) mcqs
     /\ ("/"%char ∉ hostname d ->
         Forall (fun m => MCQExtractor.type m <> "google-forms") mcqs))
  /\ extractAll Examples.canvas_question
     = Returned
         [mkMCQ ("010"%char :: "  What is 2 + 2?  ") [0; 0]
            [mkOption " 3" [0; 0; 1] " 3"; mkOption "4 " [0; 0; 2] "4 "]
            "canvas" None].
Proof.
  split; [|vm_compute; reflexivity].
  eexists; split; [reflexivity|].
  assert (Forall (labelled d)
            (MCQExtractor.deduplicate (run_strategies (strategies d)))) as H.
  { apply Forall_forall. intros m Hm.
    apply elem_of_sublist with (l2 := run_strategies (strategies d)) in Hm;
      [|apply dedup_filter_sublist].
    revert m Hm. apply Forall_forall.
    rewrite run_strategies_candidates.
    apply Forall_flat_map. unfold strategies.
    repeat apply Forall_cons_2; [| | | | |constructor]; unfold candidates.
    - apply radio_labelled.
    - apply Forall_flat_map, Forall_forall; intros; apply list_mcq_labelled.
    - apply Forall_flat_map, Forall_forall; intros sel _.
      apply Forall_flat_map, Forall_forall; intros; apply div_mcq_labelled.
    - apply Forall_flat_map, Forall_forall; intros; apply table_mcq_labelled.
    - apply platforms_labelled. }
  split; [exact H|].
  split; [|split].
  - eapply Forall_impl; [exact H|]. intros m Hm.
    apply (proj1 (labelled_consequences m Hm)).
  - eapply Forall_impl; [exact H|]. intros m Hm.
    apply (proj1 (proj2 (labelled_consequences m Hm))).
  - intros Hslash. eapply Forall_impl; [exact H|]. intros m Hm.
    by apply (proj2 (proj2 (labelled_consequences m Hm))).
Qed.

End Labels.
